(** * SvelteMark backup and import: the export/import functions of
      [appState.svelte.ts] and the JSON adapter, as documented in
      [BACKUP_IMPORT_ADAPTER_ANALYSIS.md].

    The development is layered as the code is:
    - JSON values as [JSON.parse] produces them, with JavaScript truthiness
      and property reads;
    - the typed records the TypeScript code declares ([Folder], [File],
      [BackupData]);
    - a state-and-exception monad with a log of the awaited calls, in which
      [exportBackup], [importBackup] and the adapter methods are written;
    - the collaborators the code calls but does not define ([JSON.parse],
      [JSON.stringify], the clock, [sortedFolders], the repository functions)
      as parameters, each with an implementation to instantiate them: a
      JSON reader and writer, an in-memory repository and a parents-first
      sort. *)

From Stdlib Require Import ZArith String Ascii List Bool Lia.
From stdpp Require Import base option list gmap strings pretty sorting relations.

Set Warnings "-register-all".

Local Open Scope string_scope.
Local Open Scope list_scope.
Local Open Scope Z_scope.

(** ** JSON values *)

(** What [JSON.parse] returns.  Numbers are restricted to the integers: the
    program only reads identifiers and the version. *)
Inductive json : Type :=
| JNull
| JBool (b : bool)
| JNum (n : Z)
| JStr (s : string)
| JArr (items : list json)
| JObj (props : list (string * json)).

(** A JavaScript value read out of a parsed document: [None] is
    [undefined]. *)
Definition jsval : Type := option json.

(** ** Exceptions and results *)

Inductive exn : Type :=
| SyntaxError                 (* thrown by JSON.parse *)
| TypeError                   (* property read on null *)
| Error (message : string)    (* new Error(message) *)
| ShapeError.
(* [ShapeError] is not a JavaScript exception: it marks a document that is
   outside the declared types [Folder] / [File] (for instance a folder whose
   [name] is a number).  JavaScript would go on with such values; this
   development stops there. *)

Inductive outcome (A : Type) : Type :=
| Ok (a : A)
| Throw (e : exn).
Arguments Ok {A} a.
Arguments Throw {A} e.

(** ** JavaScript primitives on JSON values *)

(** ToBoolean: [undefined], [null], [false], [0] and the empty string are
    falsy; every array and object (also the empty ones) is truthy. *)
Definition truthy (v : jsval) : bool :=
  match v with
  | None => false
  | Some JNull => false
  | Some (JBool b) => b
  | Some (JNum n) => negb (n =? 0)
  | Some (JStr s) => negb (String.eqb s "")
  | Some (JArr _) => true
  | Some (JObj _) => true
  end.

(** Own property of an object literal; a later duplicate key wins, as in
    [JSON.parse]. *)
Fixpoint own_prop (k : string) (props : list (string * json)) : jsval :=
  match props with
  | [] => None
  | (k', v) :: rest =>
      match own_prop k rest with
      | Some w => Some w
      | None => if String.eqb k k' then Some v else None
      end
  end.

(** [v.k] for the property names this program reads ([folders], [files],
    [version], [id], ...), none of which is inherited from a prototype:
    reading from [null] throws, reading from a primitive or an array gives
    [undefined]. *)
Definition get_prop (k : string) (v : json) : outcome jsval :=
  match v with
  | JNull => Throw TypeError
  | JObj props => Ok (own_prop k props)
  | _ => Ok None
  end.

(** ** The records of the application *)

(** [interface Folder { id?: number; name: string; parentId: number | null;
    isOpen: boolean }].  [id = None] is an absent ([undefined]) id. *)
Record Folder : Type := mkFolder {
  folder_id : option Z;
  name : string;
  parentId : option Z;
  isOpen : bool
}.

(** [interface File { id?: number; folderId: number | null; title; content;
    createdAt; updatedAt }], the timestamps as the ISO strings of the backup
    format. *)
Record File : Type := mkFile {
  file_id : option Z;
  folderId : option Z;
  title : string;
  content : string;
  createdAt : string;
  updatedAt : string
}.

(** [interface BackupData], with the version and the timestamp as they are
    found in the document. *)
Record BackupData : Type := mkBackupData {
  version : jsval;
  exportedAt : jsval;
  folders : list Folder;
  files : list File
}.

(** [if (x.id)]: an absent id and the id [0] are both falsy. *)
Definition truthy_id (i : option Z) : bool :=
  match i with
  | Some n => negb (n =? 0)
  | None => false
  end.

(** *** Records as JSON values and back *)

Definition nullable (i : option Z) : json :=
  match i with
  | Some n => JNum n
  | None => JNull
  end.

(** An [undefined] property is left out by [JSON.stringify]. *)
Definition optional_prop (k : string) (i : option Z) : list (string * json) :=
  match i with
  | Some n => [(k, JNum n)]
  | None => []
  end.

Definition folder_to_json (f : Folder) : json :=
  JObj (optional_prop "id" (folder_id f) ++
        [("name", JStr (name f));
         ("parentId", nullable (parentId f));
         ("isOpen", JBool (isOpen f))]).

Definition file_to_json (f : File) : json :=
  JObj (optional_prop "id" (file_id f) ++
        [("folderId", nullable (folderId f));
         ("title", JStr (title f));
         ("content", JStr (content f));
         ("createdAt", JStr (createdAt f));
         ("updatedAt", JStr (updatedAt f))]).

Definition as_optional_number (v : jsval) : option (option Z) :=
  match v with
  | None => Some None
  | Some (JNum n) => Some (Some n)
  | _ => None
  end.

Definition as_nullable_number (v : jsval) : option (option Z) :=
  match v with
  | Some JNull => Some None
  | Some (JNum n) => Some (Some n)
  | _ => None
  end.

Definition as_string (v : jsval) : option string :=
  match v with
  | Some (JStr s) => Some s
  | _ => None
  end.

Definition as_boolean (v : jsval) : option bool :=
  match v with
  | Some (JBool b) => Some b
  | _ => None
  end.

(** The typed reading of a folder record of the backup format; properties
    the type does not name are ignored. *)
Definition as_folder (v : json) : option Folder :=
  match v with
  | JObj props =>
      i ← as_optional_number (own_prop "id" props);
      n ← as_string (own_prop "name" props);
      p ← as_nullable_number (own_prop "parentId" props);
      o ← as_boolean (own_prop "isOpen" props);
      Some (mkFolder i n p o)
  | _ => None
  end.

Definition as_file (v : json) : option File :=
  match v with
  | JObj props =>
      i ← as_optional_number (own_prop "id" props);
      d ← as_nullable_number (own_prop "folderId" props);
      t ← as_string (own_prop "title" props);
      c ← as_string (own_prop "content" props);
      ca ← as_string (own_prop "createdAt" props);
      ua ← as_string (own_prop "updatedAt" props);
      Some (mkFile i d t c ca ua)
  | _ => None
  end.

Definition as_array {A : Type} (elt : json → option A) (v : jsval) : option (list A) :=
  match v with
  | Some (JArr items) => mapM elt items
  | _ => None
  end.

(** The typed reading of a whole parsed backup. *)
Definition as_backup (v : json) : option BackupData :=
  match v with
  | JObj props =>
      fs ← as_array as_folder (own_prop "folders" props);
      ds ← as_array as_file (own_prop "files" props);
      Some (mkBackupData (own_prop "version" props) (own_prop "exportedAt" props) fs ds)
  | _ => None
  end.

(** ** The calls [importBackup] awaits, and the state it runs in *)

(** One entry per awaited call of an application function, with the
    arguments it was given. *)
Inductive Call : Type :=
| CallDeleteFile (id : Z)
| CallDeleteFolder (id : Z)
| CallCreateFolder (name : string) (parentId : option Z)
| CallToggleFolderOpen (id : Z)
| CallCreateFile (folderId : option Z) (title content : string)
| CallRefreshData
| CallSelectFile (id : option Z).

(** The module-level variables of [appState.svelte.ts] that the two
    functions read or assign, and the database behind them. *)
Record AppState (DB : Type) : Type := mkAppState {
  db : DB;
  st_folders : list Folder;       (* let folders *)
  st_files : list File;           (* let files *)
  activeFileId : option Z;        (* let activeFileId: number | null *)
  buffer : string;                (* let buffer *)
  dirty : bool                    (* let dirty *)
}.
Arguments mkAppState {DB}.
Arguments db {DB}.
Arguments st_folders {DB}.
Arguments st_files {DB}.
Arguments activeFileId {DB}.
Arguments buffer {DB}.
Arguments dirty {DB}.

(** The application functions [importBackup] calls and this file of the
    repository does not define.  Each one may fail (a rejected promise) and
    may change any part of the state. *)
Class Repository (DB : Type) : Type := {
  deleteFile : Z → AppState DB → outcome unit * AppState DB;
  deleteFolder : Z → AppState DB → outcome unit * AppState DB;
  createFolder : string → option Z → AppState DB → outcome Z * AppState DB;
  toggleFolderOpen : Z → AppState DB → outcome unit * AppState DB;
  createFile : option Z → string → string → AppState DB → outcome Z * AppState DB;
  refreshData : AppState DB → outcome unit * AppState DB;
  selectFile : option Z → AppState DB → outcome unit * AppState DB
}.

(** A running function: the application state and the calls made so far. *)
Record World (DB : Type) : Type := mkWorld {
  app : AppState DB;
  calls : list Call
}.
Arguments mkWorld {DB}.
Arguments app {DB}.
Arguments calls {DB}.

(** State, exceptions and the call log. *)
Definition M (DB A : Type) : Type := World DB → outcome A * World DB.

Definition ret {DB A} (a : A) : M DB A := λ w, (Ok a, w).

Definition bind {DB A B} (m : M DB A) (k : A → M DB B) : M DB B :=
  λ w, match m w with
       | (Ok a, w') => k a w'
       | (Throw e, w') => (Throw e, w')
       end.

Definition throw {DB A} (e : exn) : M DB A := λ w, (Throw e, w).

Definition read {DB A} (proj : AppState DB → A) : M DB A := λ w, (Ok (proj (app w)), w).

Definition assign {DB} (upd : AppState DB → AppState DB) : M DB unit :=
  λ w, (Ok tt, mkWorld (upd (app w)) (calls w)).

(** [await f(args)]: the call is logged, then run on the state. *)
Definition await {DB A} (c : Call) (f : AppState DB → outcome A * AppState DB) : M DB A :=
  λ w, let '(r, s) := f (app w) in (r, mkWorld s (calls w ++ [c])).

Definition lift {DB A} (r : outcome A) : M DB A := λ w, (r, w).

Declare Scope js_scope.
Delimit Scope js_scope with js.
Notation "'let*' x ':=' m 'in' k" := (bind m (λ x, k))
  (at level 10, x name, m at level 100, k at level 200) : js_scope.
Notation "m ';;;' k" := (bind m (λ _, k))
  (at level 100, k at level 200, right associativity) : js_scope.
Local Open Scope js_scope.

(** [for (const x of xs) { body }] *)
Fixpoint for_of {DB A} (xs : list A) (body : A → M DB unit) : M DB unit :=
  match xs with
  | [] => ret tt
  | x :: rest => body x ;;; for_of rest body
  end.

(** A [for ... of] loop whose body updates a local variable. *)
Fixpoint for_of_acc {DB A S} (xs : list A) (acc : S) (body : S → A → M DB S) : M DB S :=
  match xs with
  | [] => ret acc
  | x :: rest => let* acc' := body acc x in for_of_acc rest acc' body
  end.

(** ** The functions of the application *)

Section Application.
Context {DB : Type} `{Repository DB}.

(** [JSON.parse(text)]: [None] when it throws a SyntaxError. *)
Variable JSON_parse : string → option json.
(** [JSON.stringify(value, null, 2)]. *)
Variable JSON_stringify : json → string.
(** The computation of [sortedFolders] from [backup.folders]: the loop of
    [importBackup] reads the variable, the document does not show its
    definition. *)
Variable sortFolders : list Folder → list Folder.

Definition parse (text : string) : outcome json :=
  match JSON_parse text with
  | Some v => Ok v
  | None => Throw SyntaxError
  end.

(** The object literal [{ version: 1, exportedAt: ..., folders: folders,
    files: files }]. *)
Definition backup_literal (exportedAt : string) (folders : list Folder)
    (files : list File) : json :=
  JObj [("version", JNum 1);
        ("exportedAt", JStr exportedAt);
        ("folders", JArr (folder_to_json <$> folders));
        ("files", JArr (file_to_json <$> files))].

(** [exportBackup()]; [now] is [new Date().toISOString()]. *)
Definition exportBackup (now : string) : M DB string :=
  let* folders := read st_folders in
  let* files := read st_files in
  let backup := backup_literal now folders files in
  ret (JSON_stringify backup).

(** [JSONAdapter.serialize(folders, files)]. *)
Definition JSONAdapter_serialize (now : string) (folders : list Folder)
    (files : list File) : string :=
  let backup := backup_literal now folders files in
  JSON_stringify backup.

(** [if (!backup.folders || !backup.files) throw new Error(message)]. *)
Definition check_backup (message : string) (backup : json) : outcome unit :=
  match get_prop "folders" backup with
  | Throw e => Throw e
  | Ok bfolders =>
      if negb (truthy bfolders) then Throw (Error message)
      else match get_prop "files" backup with
           | Throw e => Throw e
           | Ok bfiles =>
               if negb (truthy bfiles) then Throw (Error message) else Ok tt
           end
  end.

(** [JSONAdapter.deserialize(data)]. *)
Definition JSONAdapter_deserialize (data : string) : outcome json :=
  match parse data with
  | Throw e => Throw e
  | Ok backup =>
      match check_backup "Invalid backup format" backup with
      | Throw e => Throw e
      | Ok _ => Ok backup
      end
  end.

(** [if (x.id) await f(x.id)]. *)
Definition if_id (i : option Z) (f : Z → M DB unit) : M DB unit :=
  match i with
  | Some n => if truthy_id (Some n) then f n else ret tt
  | None => ret tt
  end.

(** Step 1, "Clear existing data": the loop over [files], then the loop
    over [folders]; each list is read when its loop starts. *)
Definition deleteFiles (files : list File) : M DB unit :=
  for_of files (λ file,
    if_id (file_id file) (λ i, await (CallDeleteFile i) (deleteFile i))).

Definition deleteFolders (folders : list Folder) : M DB unit :=
  for_of folders (λ folder,
    if_id (folder_id folder) (λ i, await (CallDeleteFolder i) (deleteFolder i))).

Definition clearExistingData : M DB unit :=
  (let* files := read st_files in deleteFiles files) ;;;
  (let* folders := read st_folders in deleteFolders folders).

(** [folderIdMap[oldId] = newId].  With an absent [oldId] JavaScript
    writes the key ["undefined"], which no later read uses: the reads are
    at parent and folder ids, which are numbers. *)
Definition set_entry (oldId : option Z) (newId : Z) (m : gmap Z Z) : gmap Z Z :=
  match oldId with
  | Some k => <[k := newId]> m
  | None => m
  end.

(** [ref !== null ? folderIdMap[ref] ?? null : null]. *)
Definition remap (folderIdMap : gmap Z Z) (ref : option Z) : option Z :=
  match ref with
  | Some k => match folderIdMap !! k with
              | Some n => Some n
              | None => None
              end
  | None => None
  end.

(** The body of the loop of step 2. *)
Definition importFolder (folderIdMap : gmap Z Z) (folder : Folder) : M DB (gmap Z Z) :=
  let oldId := folder_id folder in
  let newParentId := remap folderIdMap (parentId folder) in
  let* newId := await (CallCreateFolder (name folder) newParentId)
                      (createFolder (name folder) newParentId) in
  let folderIdMap' := set_entry oldId newId folderIdMap in
  (if isOpen folder then ret tt
   else await (CallToggleFolderOpen newId) (toggleFolderOpen newId)) ;;;
  ret folderIdMap'.

(** Step 2, "Import folders maintaining hierarchy"; the result is the
    final [folderIdMap]. *)
Definition importFolders (sortedFolders : list Folder) : M DB (gmap Z Z) :=
  for_of_acc sortedFolders ∅ importFolder.

(** The body of the loop of step 3. *)
Definition importFile (folderIdMap : gmap Z Z) (file : File) : M DB unit :=
  let newFolderId := remap folderIdMap (folderId file) in
  let* _ := await (CallCreateFile newFolderId (title file) (content file))
                  (createFile newFolderId (title file) (content file)) in
  ret tt.

(** Step 3, "Import files with remapped folder references". *)
Definition importFiles (files : list File) (folderIdMap : gmap Z Z) : M DB unit :=
  for_of files (importFile folderIdMap).

(** [activeFileId = null; buffer = ''; dirty = false]. *)
Definition reset_editor (s : AppState DB) : AppState DB :=
  mkAppState (db s) (st_folders s) (st_files s) None "" false.

(** Step 4, "Refresh UI and select first file". *)
Definition refreshAndSelect : M DB unit :=
  await CallRefreshData refreshData ;;;
  assign reset_editor ;;;
  let* files := read st_files in
  match files with
  | [] => ret tt
  | first :: _ => await (CallSelectFile (file_id first)) (selectFile (file_id first))
  end.

(** The steps after the format check, on the typed reading of the
    backup: what follows the folders, what follows the wipe, and the
    four steps together. *)
Definition after_folders (backup : BackupData) (folderIdMap : gmap Z Z) : M DB unit :=
  importFiles (files backup) folderIdMap ;;;
  refreshAndSelect.

Definition after_wipe (backup : BackupData) : M DB unit :=
  let* folderIdMap := importFolders (sortFolders (folders backup)) in
  after_folders backup folderIdMap.

Definition replay (backup : BackupData) : M DB unit :=
  clearExistingData ;;;
  after_wipe backup.

(** [importBackup(jsonString)]. *)
Definition importBackup (jsonString : string) : M DB unit :=
  let* backup := lift (parse jsonString) in
  lift (check_backup "Invalid backup format" backup) ;;;
  match as_backup backup with
  | None => throw ShapeError
  | Some data => replay data
  end.

End Application.

(** ** Vocabulary for statements about runs *)

(** The step of [importBackup] a call belongs to: deleting files, deleting
    folders, replaying folders, replaying files, refreshing, selecting. *)
Definition phase (c : Call) : nat :=
  match c with
  | CallDeleteFile _ => 0
  | CallDeleteFolder _ => 1
  | CallCreateFolder _ _ => 2
  | CallToggleFolderOpen _ => 2
  | CallCreateFile _ _ _ => 3
  | CallRefreshData => 4
  | CallSelectFile _ => 5
  end.

(** No call of an earlier phase comes after a call of a later one. *)
Definition in_order (l : list Call) : Prop :=
  StronglySorted (λ a b, (phase a ≤ phase b)%nat) l.

Definition within (lo hi : nat) (l : list Call) : Prop :=
  Forall (λ c, (lo ≤ phase c ≤ hi)%nat) l.

Definition spans (lo hi : nat) (l : list Call) : Prop := in_order l ∧ within lo hi l.

(** Every run of [m] adds to the log a list of calls that satisfies [P]. *)
Definition emits {DB A} (P : list Call → Prop) (m : M DB A) : Prop :=
  ∀ w r w', m w = (r, w') → ∃ l, calls w' = calls w ++ l ∧ P l.

(** The ids a wipe loop passes on: those that are present and not [0]. *)
Definition deleted_ids {A} (proj : A → option Z) (l : list A) : list Z :=
  omap (λ x, if truthy_id (proj x) then proj x else None) l.

Definition is_array (v : jsval) : Prop := ∃ items, v = Some (JArr items).

Definition is_createFolder (c : Call) : bool :=
  match c with
  | CallCreateFolder _ _ => true
  | _ => false
  end.

Definition is_createFile (c : Call) : bool :=
  match c with
  | CallCreateFile _ _ _ => true
  | _ => false
  end.

(** Every folder of the list comes after the folder its [parentId] names. *)
Definition parents_first (l : list Folder) : Prop :=
  ∀ pre f post p,
    l = pre ++ f :: post → parentId f = Some p →
    ∃ g, g ∈ pre ∧ folder_id g = Some p.

(** Every folder of the list has an id, and no two have the same. *)
Definition distinct_ids (l : list Folder) : Prop :=
  NoDup (folder_id <$> l) ∧ ∀ f, f ∈ l → is_Some (folder_id f).

(** [parent] is the folder of [l] that [child] names as its parent. *)
Definition parent_of (l : list Folder) (child parent : Folder) : Prop :=
  child ∈ l ∧ parent ∈ l ∧ is_Some (parentId child) ∧ parentId child = folder_id parent.

(** The folders of a backup form a forest: ids are distinct, every
    [parentId] names a folder of the list, and no folder is its own
    ancestor. *)
Definition forest (l : list Folder) : Prop :=
  distinct_ids l
  ∧ (∀ f p, f ∈ l → parentId f = Some p → ∃ g, g ∈ l ∧ folder_id g = Some p)
  ∧ ∀ f, ¬ tc (parent_of l) f f.

(** Each folder of [l] has its parent among [seen] or before it in [l]. *)
Fixpoint ordered (seen : list Z) (l : list Folder) : Prop :=
  match l with
  | [] => True
  | f :: rest =>
      (∀ p, parentId f = Some p → p ∈ seen)
      ∧ ordered (seen ++ omap folder_id [f]) rest
  end.

(** The [createFile] call of step 3 for one file of the backup. *)
Definition file_call (folderIdMap : gmap Z Z) (file : File) : Call :=
  CallCreateFile (remap folderIdMap (folderId file)) (title file) (content file).

(** ** A reference JSON reader and writer

    [JSON.parse] and [JSON.stringify] belong to the platform.  The functions
    below implement them for the documents of this program (integers,
    strings with the short escapes, arrays, objects), so that the
    application functions can be run on concrete text. *)

Module Reference.

Definition dquote : ascii := "034"%char.
Definition backslash : ascii := "092"%char.
Definition newline : ascii := "010"%char.

Definition is_ws (c : ascii) : bool :=
  match nat_of_ascii c with
  | 32%nat | 9%nat | 10%nat | 13%nat => true
  | _ => false
  end.

Fixpoint skip_ws (s : string) : string :=
  match s with
  | String c r => if is_ws c then skip_ws r else s
  | EmptyString => s
  end.

Definition digit_of (c : ascii) : option Z :=
  let n := nat_of_ascii c in
  if ((48 <=? n) && (n <=? 57))%nat then Some (Z.of_nat n - 48) else None.

Fixpoint read_digits (s : string) (acc : Z) : Z * string :=
  match s with
  | String c r =>
      match digit_of c with
      | Some d => read_digits r (acc * 10 + d)
      | None => (acc, s)
      end
  | EmptyString => (acc, s)
  end.

(** An integer literal; a fraction or an exponent is not read. *)
Definition read_number (s : string) : option (Z * string) :=
  let unsigned (t : string) :=
    match t with
    | String c _ =>
        match digit_of c with
        | Some _ => Some (read_digits t 0)
        | None => None
        end
    | EmptyString => None
    end in
  match s with
  | String "-" r =>
      match unsigned r with
      | Some (n, rest) => Some (- n, rest)
      | None => None
      end
  | _ => unsigned s
  end.

Definition unescape (c : ascii) : option ascii :=
  match c with
  | "b"%char => Some "008"%char
  | "f"%char => Some "012"%char
  | "n"%char => Some "010"%char
  | "r"%char => Some "013"%char
  | "t"%char => Some "009"%char
  | "/"%char => Some "/"%char
  | _ => if Ascii.eqb c dquote then Some dquote
         else if Ascii.eqb c backslash then Some backslash
         else None
  end.

Definition hex_value (c : ascii) : option nat :=
  let n := nat_of_ascii c in
  if ((48 <=? n) && (n <=? 57))%nat then Some (n - 48)%nat
  else if ((97 <=? n) && (n <=? 102))%nat then Some (n - 87)%nat
  else if ((65 <=? n) && (n <=? 70))%nat then Some (n - 55)%nat
  else None.

(** [\uXXXX] below 128; other code points are not read. *)
Definition unescape_unicode (a b c d : ascii) : option ascii :=
  match hex_value a, hex_value b, hex_value c, hex_value d with
  | Some 0%nat, Some 0%nat, Some h, Some l =>
      if (h <? 8)%nat then Some (ascii_of_nat (16 * h + l)) else None
  | _, _, _, _ => None
  end.

(** The characters after an opening quote, up to the closing one. *)
Fixpoint read_string (s : string) : option (string * string) :=
  match s with
  | EmptyString => None
  | String c r =>
      if Ascii.eqb c dquote then Some (EmptyString, r)
      else if Ascii.eqb c backslash then
        match r with
        | String "u" (String h1 (String h2 (String h3 (String h4 r')))) =>
            match unescape_unicode h1 h2 h3 h4, read_string r' with
            | Some c', Some (body, rest) => Some (String c' body, rest)
            | _, _ => None
            end
        | String e r' =>
            match unescape e, read_string r' with
            | Some c', Some (body, rest) => Some (String c' body, rest)
            | _, _ => None
            end
        | EmptyString => None
        end
      else if (nat_of_ascii c <? 32)%nat then None
      else match read_string r with
           | Some (body, rest) => Some (String c body, rest)
           | None => None
           end
  end.

(** [strip p s] is what follows the prefix [p] in [s]. *)
Fixpoint strip (p s : string) : option string :=
  match p with
  | EmptyString => Some s
  | String a p' =>
      match s with
      | String b s' => if Ascii.eqb a b then strip p' s' else None
      | EmptyString => None
      end
  end.

Definition tagged {A B} (tag : A → B) (r : option (A * string)) : option (B * string) :=
  match r with
  | Some (a, rest) => Some (tag a, rest)
  | None => None
  end.

Definition read_literal (t : string) : option (json * string) :=
  match strip "null" t with
  | Some r => Some (JNull, r)
  | None =>
      match strip "true" t with
      | Some r => Some (JBool true, r)
      | None =>
          match strip "false" t with
          | Some r => Some (JBool false, r)
          | None => tagged JNum (read_number t)
          end
      end
  end.

Fixpoint read_value (fuel : nat) (s : string) : option (json * string) :=
  match fuel with
  | O => None
  | S n =>
      match skip_ws s with
      | EmptyString => None
      | String c r as t =>
          if Ascii.eqb c "[" then
            match skip_ws r with
            | String c' r' =>
                if Ascii.eqb c' "]" then Some (JArr [], r')
                else tagged JArr (read_items n r)
            | EmptyString => None
            end
          else if Ascii.eqb c "{" then
            match skip_ws r with
            | String c' r' =>
                if Ascii.eqb c' "}" then Some (JObj [], r')
                else tagged JObj (read_members n r)
            | EmptyString => None
            end
          else if Ascii.eqb c dquote then tagged JStr (read_string r)
          else read_literal t
      end
  end
with read_items (fuel : nat) (s : string) : option (list json * string) :=
  match fuel with
  | O => None
  | S n =>
      match read_value n s with
      | Some (v, r) =>
          match skip_ws r with
          | String c r' =>
              if Ascii.eqb c "," then tagged (cons v) (read_items n r')
              else if Ascii.eqb c "]" then Some ([v], r')
              else None
          | EmptyString => None
          end
      | None => None
      end
  end
with read_members (fuel : nat) (s : string) : option (list (string * json) * string) :=
  match fuel with
  | O => None
  | S n =>
      match skip_ws s with
      | String q r =>
          if Ascii.eqb q dquote then
            match read_string r with
            | Some (k, r1) =>
                match skip_ws r1 with
                | String colon r2 =>
                    if Ascii.eqb colon ":" then
                      match read_value n r2 with
                      | Some (v, r3) =>
                          match skip_ws r3 with
                          | String c r4 =>
                              if Ascii.eqb c "," then tagged (cons (k, v)) (read_members n r4)
                              else if Ascii.eqb c "}" then Some ([(k, v)], r4)
                              else None
                          | EmptyString => None
                          end
                      | None => None
                      end
                    else None
                | EmptyString => None
                end
            | None => None
            end
          else None
      | EmptyString => None
      end
  end.

(** [JSON.parse]: one value, then nothing but white space. *)
Definition JSON_parse (text : string) : option json :=
  match read_value (2 * String.length text + 2) text with
  | Some (v, rest) =>
      match skip_ws rest with
      | EmptyString => Some v
      | _ => None
      end
  | None => None
  end.

Definition hex_digit (n : nat) : ascii :=
  if (n <? 10)%nat then ascii_of_nat (48 + n) else ascii_of_nat (87 + n).

Definition write_char (c : ascii) : string :=
  if Ascii.eqb c dquote then String backslash (String dquote EmptyString)
  else if Ascii.eqb c backslash then String backslash (String backslash EmptyString)
  else match nat_of_ascii c with
       | 8%nat => String backslash "b"
       | 12%nat => String backslash "f"
       | 10%nat => String backslash "n"
       | 13%nat => String backslash "r"
       | 9%nat => String backslash "t"
       | n => if (n <? 32)%nat
              then String backslash
                     (String "u" (String "0" (String "0"
                        (String (hex_digit (n / 16)) (String (hex_digit (n mod 16)) EmptyString)))))
              else String c EmptyString
       end.

Fixpoint write_chars (s : string) : string :=
  match s with
  | EmptyString => EmptyString
  | String c r => write_char c +:+ write_chars r
  end.

Definition write_string (s : string) : string :=
  String dquote (write_chars s +:+ String dquote EmptyString).

Definition line_break : string := String newline EmptyString.

Fixpoint join_lines (lines : list string) : string :=
  match lines with
  | [] => EmptyString
  | [l] => l
  | l :: rest => l +:+ "," +:+ line_break +:+ join_lines rest
  end.

(** [JSON.stringify(v, null, 2)] at the nesting level whose indentation
    is [indent]. *)
Fixpoint write_value (indent : string) (v : json) : string :=
  let inner := indent +:+ "  " in
  match v with
  | JNull => "null"
  | JBool true => "true"
  | JBool false => "false"
  | JNum n => pretty n
  | JStr s => write_string s
  | JArr [] => "[]"
  | JArr items =>
      "[" +:+ line_break +:+
      join_lines (map (λ item, inner +:+ write_value inner item) items) +:+
      line_break +:+ indent +:+ "]"
  | JObj [] => "{}"
  | JObj props =>
      "{" +:+ line_break +:+
      join_lines (map (λ kv, inner +:+ write_string (fst kv) +:+ ": " +:+
                              write_value inner (snd kv)) props) +:+
      line_break +:+ indent +:+ "}"
  end.

Definition JSON_stringify (v : json) : string := write_value EmptyString v.

(** *** Vocabulary for the round trip of the two functions *)

Definition is_digit (c : ascii) : Prop := is_Some (digit_of c).

(** What may follow a number: anything but a digit. *)
Definition ends_number (rest : string) : Prop :=
  match rest with
  | String c _ => digit_of c = None
  | EmptyString => True
  end.

(** The first character of a written value: no white space and no closing
    bracket. *)
Definition opens_value (c : ascii) : Prop :=
  is_ws c = false ∧ Ascii.eqb c "]" = false ∧ Ascii.eqb c "}" = false.

Fixpoint all_ws (s : string) : bool :=
  match s with
  | EmptyString => true
  | String c r => is_ws c && all_ws r
  end.

(** One line of a written array, and of a written object. *)
Definition written (inner : string) (item : json) : string :=
  inner +:+ write_value inner item.

Definition written_member (inner : string) (kv : string * json) : string :=
  inner +:+ write_string (fst kv) +:+ ": " +:+ write_value inner (snd kv).

(** The fuel [read_value] needs for a value: one unit per value and one
    per element or member. *)
Definition total {A} (f : A → nat) (l : list A) : nat :=
  fold_right (λ x acc, S (f x) + acc)%nat 0%nat l.

Fixpoint cost (v : json) : nat :=
  match v with
  | JArr items => S (total cost items)
  | JObj props => S (total (λ kv, cost (snd kv)) props)
  | _ => 1
  end.

End Reference.

(** ** An in-memory repository

    The persistence functions ([createFolder], [deleteFile], ...) live in
    parts of the application that are not in this repository's documents.
    This instance follows the repository interface of the specification. *)

Module Memory.

(** Modelled from the spec: the repository behind the interface
    "createFolder(name, parentId) -> newId, deleteFolder(id),
    toggleFolderOpen(id), createFile(folderId, title, content) -> newId,
    deleteFile(id), plus read access to current folders/files", whose
    identifiers are "unique within the repository" (here: counters that
    only grow).  [refused] lists the file ids whose deletion the backend
    rejects, for the reading of these functions as "fallible remote
    calls"; [clock] stamps created files. *)
Record Store : Type := mkStore {
  stored_folders : list Folder;
  stored_files : list File;
  nextFolderId : Z;
  nextFileId : Z;
  refused : list Z;
  clock : string
}.

(** [x.id === id]. *)
Definition has_id {A} (proj : A → option Z) (id : Z) (x : A) : bool :=
  bool_decide (proj x = Some id).

(** The application state over a changed store; the cache and the editor
    are left as they are. *)
Definition with_store (s : AppState Store) (d : Store) : AppState Store :=
  mkAppState d (st_folders s) (st_files s) (activeFileId s) (buffer s) (dirty s).

(** Modelled from the spec: "deleteFile(id) -> void", a fallible call. *)
Definition deleteFile (id : Z) (s : AppState Store) : outcome unit * AppState Store :=
  let d := db s in
  if bool_decide (id ∈ refused d) then (Throw (Error "delete failed"), s)
  else (Ok tt,
        with_store s (mkStore (stored_folders d)
                        (filter (λ f, negb (has_id file_id id f)) (stored_files d))
                        (nextFolderId d) (nextFileId d) (refused d) (clock d))).

(** Modelled from the spec: "deleteFolder(id) -> void". *)
Definition deleteFolder (id : Z) (s : AppState Store) : outcome unit * AppState Store :=
  let d := db s in
  (Ok tt,
   with_store s (mkStore (filter (λ f, negb (has_id folder_id id f)) (stored_folders d))
                   (stored_files d)
                   (nextFolderId d) (nextFileId d) (refused d) (clock d))).

(** Modelled from the spec: "createFolder(name, parentId) -> newId";
    "repositories are assumed to default new folders to open". *)
Definition createFolder (nm : string) (parent : option Z) (s : AppState Store)
    : outcome Z * AppState Store :=
  let d := db s in
  let newId := nextFolderId d in
  (Ok newId,
   with_store s (mkStore (stored_folders d ++ [mkFolder (Some newId) nm parent true])
                   (stored_files d)
                   (newId + 1) (nextFileId d) (refused d) (clock d))).

(** Flips [isOpen] of the folder [id]. *)
Definition toggle (id : Z) (f : Folder) : Folder :=
  if has_id folder_id id f
  then mkFolder (folder_id f) (name f) (parentId f) (negb (isOpen f))
  else f.

(** Modelled from the spec: "toggleFolderOpen(id) -> void", the
    "closed-state toggle". *)
Definition toggleFolderOpen (id : Z) (s : AppState Store) : outcome unit * AppState Store :=
  let d := db s in
  (Ok tt,
   with_store s (mkStore (toggle id <$> stored_folders d) (stored_files d)
                   (nextFolderId d) (nextFileId d) (refused d) (clock d))).

(** Modelled from the spec: "createFile(folderId, title, content) ->
    newId". *)
Definition createFile (folder : option Z) (ttl cnt : string) (s : AppState Store)
    : outcome Z * AppState Store :=
  let d := db s in
  let newId := nextFileId d in
  (Ok newId,
   with_store s (mkStore (stored_folders d)
                   (stored_files d ++ [mkFile (Some newId) folder ttl cnt (clock d) (clock d)])
                   (nextFolderId d) (newId + 1) (refused d) (clock d))).

(** Modelled from the spec: "refreshing its cached view of folders/files
    from the repository". *)
Definition refreshData (s : AppState Store) : outcome unit * AppState Store :=
  (Ok tt,
   mkAppState (db s) (stored_folders (db s)) (stored_files (db s))
     (activeFileId s) (buffer s) (dirty s)).

(** Modelled from the spec: the "currently active file" is set; the
    content of that file, when it is in the cached list, becomes the edit
    buffer. *)
Definition selectFile (id : option Z) (s : AppState Store) : outcome unit * AppState Store :=
  let text :=
    match id with
    | Some i => match filter (has_id file_id i) (st_files s) with
                | f :: _ => content f
                | [] => ""
                end
    | None => ""
    end in
  (Ok tt, mkAppState (db s) (st_folders s) (st_files s) id text false).

#[global] Instance repository : Repository Store :=
  Build_Repository Store deleteFile deleteFolder createFolder toggleFolderOpen
    createFile refreshData selectFile.

(** Modelled from the spec: "sort the snapshot's folders into an order
    where every folder appears after its parent (topological order over
    the parent-reference forest; folders whose parentId is null come
    first)".  Folders are released in rounds: a folder is ready when it
    has no parent or its parent was released in an earlier round.  What can
    never be released (a cycle, a parent that is not in the list) is kept,
    in its original order, at the end. *)
Definition is_ready (released : list Z) (f : Folder) : bool :=
  match parentId f with
  | None => true
  | Some p => bool_decide (p ∈ released)
  end.

(** Modelled from the spec: one round of the "topological order over the
    parent-reference forest" releases the folders that are ready, in their
    order in the backup; [fuel] bounds the number of rounds. *)
Fixpoint rounds (fuel : nat) (released : list Z) (pending : list Folder) : list Folder :=
  match fuel with
  | O => pending
  | S n =>
      let now := filter (λ f, is_ready released f) pending in
      let later := filter (λ f, negb (is_ready released f)) pending in
      match now with
      | [] => pending
      | _ => now ++ rounds n (released ++ omap folder_id now) later
      end
  end.

(** Modelled from the spec: the computation of [sortedFolders], "an order
    where every folder appears after its parent". *)
Definition sortFolders (folders : list Folder) : list Folder :=
  rounds (length folders) [] folders.

(** The folder the repository holds under an id. *)
Definition folder_by_id (id : Z) (folders : list Folder) : option Folder :=
  head (filter (λ f, has_id folder_id id f) folders).

(** The id counter is ahead of every stored folder. *)
Definition fresh (d : Store) : Prop :=
  ∀ g i, g ∈ stored_folders d → folder_id g = Some i → i < nextFolderId d.

(** The application over the reference collaborators. *)
Definition run_importBackup : string → M Store unit :=
  importBackup Reference.JSON_parse sortFolders.

Definition run_exportBackup : string → M Store string :=
  exportBackup Reference.JSON_stringify.

Definition start (d : Store) (folders : list Folder) (files : list File) : World Store :=
  mkWorld (mkAppState d folders files None "" false) [].

End Memory.


(** ** Concrete documents and repositories, used by the examples *)

Module Examples.

(** JSON text is written here with ['] for the double quote. *)
Fixpoint quoted (s : string) : string :=
  match s with
  | EmptyString => EmptyString
  | String c r => String (if Ascii.eqb c "'" then Reference.dquote else c) (quoted r)
  end.

(** The document of the unsupported-version test of the specification. *)
Definition version_999 : string :=
  quoted "{'version': 999, 'folders': [], 'files': []}".

(** Both required fields present, neither a sequence. *)
Definition not_sequences : string :=
  quoted "{'version': 1, 'folders': 5, 'files': 'x'}".

(** A workspace: a chain of three folders, listed child first, and two
    files. *)
Definition docs : Folder := mkFolder (Some 1) "docs" None true.
Definition notes : Folder := mkFolder (Some 2) "notes" (Some 1) false.
Definition drafts : Folder := mkFolder (Some 3) "drafts" (Some 2) true.

Definition readme : File :=
  mkFile (Some 1) (Some 3) "readme" "# Markdown content here"
    "2025-12-07T10:00:00.000Z" "2025-12-07T10:30:00.000Z".
Definition todo : File :=
  mkFile (Some 2) None "todo" "- [ ] write" "2025-12-07T10:00:00.000Z"
    "2025-12-07T10:30:00.000Z".

Definition workspace_folders : list Folder := [drafts; notes; docs].
Definition workspace_files : list File := [readme; todo].

Definition store : Memory.Store :=
  Memory.mkStore workspace_folders workspace_files 4 3 [] "2025-12-08T09:00:00.000Z".

(** The application with its cache loaded from [store]. *)
Definition loaded : World Memory.Store :=
  Memory.start store workspace_folders workspace_files.

Definition exported_at : string := "2025-12-07T10:30:00.000Z".

(** The backup of the workspace, as [exportBackup] writes it. *)
Definition backup_text : string :=
  Reference.JSON_stringify (backup_literal exported_at workspace_folders workspace_files).

(** The empty backup: a factory reset. *)
Definition empty_backup : string :=
  quoted "{'version': 1, 'exportedAt': '', 'folders': [], 'files': []}".

(** One file, filed under a folder 99 that the backup does not have. *)
Definition orphan : File := mkFile (Some 7) (Some 99) "orphan" "text" "" "".
Definition dangling : string :=
  Reference.JSON_stringify (backup_literal exported_at [] [orphan]).

(** Two folders, each the parent of the other. *)
Definition folder_a : Folder := mkFolder (Some 1) "A" (Some 2) true.
Definition folder_b : Folder := mkFolder (Some 2) "B" (Some 1) true.
Definition cycle : string :=
  Reference.JSON_stringify (backup_literal exported_at [folder_a; folder_b] []).

(** The same application over a backend that refuses to delete file 1. *)
Definition locked : World Memory.Store :=
  Memory.start
    (Memory.mkStore workspace_folders workspace_files 4 3 [1] "2025-12-08T09:00:00.000Z")
    workspace_folders workspace_files.

(** The run that restores the backup of the workspace over itself, and
    the worlds between its steps. *)
Definition restored : outcome unit * World Memory.Store :=
  Memory.run_importBackup backup_text loaded.

Definition wiped : World Memory.Store := snd (clearExistingData loaded).

Definition folders_replayed : outcome (gmap Z Z) * World Memory.Store :=
  importFolders (Memory.sortFolders workspace_folders) wiped.

Definition remap_table : gmap Z Z := {[ 1 := 4; 2 := 5; 3 := 6 ]}.

Definition files_replayed : World Memory.Store :=
  snd (importFiles workspace_files remap_table (snd folders_replayed)).

End Examples.

(** * The storage adapters, the cloud functions and the toolbar

    The rest of the document: the classes [GoogleDriveAdapter] and
    [GitHubAdapter], the adapter functions of [appState.svelte.ts]
    ([exportBackupWithAdapter], [importBackupWithAdapter],
    [setStorageAdapter], [uploadToCloud], [downloadFromCloud]) and the
    handlers of [Toolbar.svelte].  They run over the application of the first
    part, a store of adapter objects, the network, the clock and the
    browser. *)

(** ** State and exceptions over any state *)

Definition St (S A : Type) : Type := S → outcome A * S.

Definition pure {S A} (a : A) : St S A := λ s, (Ok a, s).

Definition and_then {S A B} (m : St S A) (k : A → St S B) : St S B :=
  λ s, match m s with
       | (Ok a, s') => k a s'
       | (Throw e, s') => (Throw e, s')
       end.

Definition raise {S A} (e : exn) : St S A := λ s, (Throw e, s).

Definition get {S A} (proj : S → A) : St S A := λ s, (Ok (proj s), s).

Definition modify {S} (upd : S → S) : St S unit := λ s, (Ok tt, upd s).

(** A computation without effect: a property read, a pure function that
    may throw. *)
Definition of_outcome {S A} (r : outcome A) : St S A := λ s, (r, s).

(** [try { body } catch (err) { handler }].  [ShapeError] is not an
    exception of the program and is not caught. *)
Definition try_catch {S A} (body : St S A) (handler : exn → St S A) : St S A :=
  λ s, match body s with
       | (Ok a, s') => (Ok a, s')
       | (Throw ShapeError, s') => (Throw ShapeError, s')
       | (Throw e, s') => handler e s'
       end.

Declare Scope st_scope.
Delimit Scope st_scope with st.
Notation "'let*' x ':=' m 'in' k" := (and_then m (λ x, k))
  (at level 10, x name, m at level 100, k at level 200) : st_scope.
Notation "m ';;;' k" := (and_then m (λ _, k))
  (at level 100, k at level 200, right associativity) : st_scope.

(** ** JavaScript strings *)

(** [!s] is false for a string that is present and not empty. *)
Definition truthy_string (s : option string) : bool :=
  match s with
  | Some t => negb (String.eqb t "")
  | None => false
  end.

(** [`${s}`] for [s: string | null]. *)
Definition template (s : option string) : string :=
  match s with
  | Some t => t
  | None => "null"
  end.

(** [s || ''] for an optional string. *)
Definition or_empty (s : option string) : string :=
  match s with
  | Some t => if truthy_string (Some t) then t else ""
  | None => ""
  end.

(** [s.split(sep)[0]] for a separator of one character: what comes before
    its first occurrence, the whole string when there is none. *)
Fixpoint before (sep : ascii) (s : string) : string :=
  match s with
  | EmptyString => EmptyString
  | String c r => if Ascii.eqb c sep then EmptyString else String c (before sep r)
  end.

(** [`${prefix}${iso.split('T')[0]}.json`]: the name of a backup file. *)
Definition dated (prefix iso : string) : string :=
  prefix +:+ before "T" iso +:+ ".json".

(** The line feed of a template literal. *)
Definition line_feed : string := String "010"%char EmptyString.

(** ** The network and the browser *)

(** [new Blob([text], { type })]. *)
Record Blob : Type := mkBlob {
  blob_text : string;
  blob_type : string
}.

(** The body of a request: a string, or a [FormData] with its appended
    entries. *)
Inductive Body : Type :=
| BodyText (text : string)
| BodyForm (entries : list (string * Blob)).

(** [fetch(url, { method, headers, body })]; an absent method is [GET]. *)
Record Request : Type := mkRequest {
  req_url : string;
  req_method : option string;
  req_headers : list (string * string);
  req_body : option Body
}.

(** What the program reads of a [Response]: [ok], and the body, whose
    reading may fail. *)
Record Response : Type := mkResponse {
  resp_ok : bool;
  resp_body : outcome string
}.

(** [fetch] belongs to the platform: it may reject, and the network
    changes under it. *)
Class Network (N : Type) : Type := {
  fetch : Request → N → outcome Response * N
}.

(** A file picked in the file input: the text [readAsText] delivers, [None]
    when the read fails and no [load] event is fired. *)
Definition PickedFile : Type := option string.

(** What the handlers do to the page. *)
Inductive UiEvent : Type :=
| UiAlert (message : string)               (* alert(message) *)
| UiCreateObjectURL (blob : Blob)          (* URL.createObjectURL(blob) *)
| UiClick (href download : string)         (* a.click() on the anchor *)
| UiRevokeObjectURL (url : string)         (* URL.revokeObjectURL(url) *)
| UiCloseMenus                             (* closeMenus() *)
| UiReadAsText (file : PickedFile)         (* reader.readAsText(file) *)
| UiSetValue (value : string).             (* target.value = value *)

(** ** Adapter objects *)

(** The private fields of a [GoogleDriveAdapter]. *)
Record GoogleDriveFields : Type := mkGoogleDrive {
  accessToken : option string;    (* string | null *)
  fileId : jsval                  (* string | null; assigned [result.id] *)
}.

(** The private fields of a [GitHubAdapter]. *)
Record GitHubFields : Type := mkGitHub {
  token : option string;          (* string | null *)
  owner : string;
  repo : string
}.

(** An object of one of the three classes that extend [StorageAdapter]. *)
Inductive Adapter : Type :=
| JSONAdapter
| GoogleDriveAdapter (fields : GoogleDriveFields)
| GitHubAdapter (fields : GitHubFields).

(** [new GoogleDriveAdapter()]: both fields start as [null]. *)
Definition GoogleDrive_new : GoogleDriveFields := mkGoogleDrive None (Some JNull).

Definition new_GoogleDriveAdapter : Adapter := GoogleDriveAdapter GoogleDrive_new.

(** [new GitHubAdapter(owner?, repo?)]: the constructor, the only place
    that assigns [owner] and [repo]. *)
Definition GitHub_new (owner repo : option string) : GitHubFields :=
  mkGitHub None (or_empty owner) (or_empty repo).

Definition new_GitHubAdapter (owner repo : option string) : Adapter :=
  GitHubAdapter (GitHub_new owner repo).

(** The fields [name] and [id] of the three classes. *)
Definition adapter_name (a : Adapter) : string :=
  match a with
  | JSONAdapter => "JSON File"
  | GoogleDriveAdapter _ => "Google Drive"
  | GitHubAdapter _ => "GitHub"
  end.

Definition adapter_id (a : Adapter) : string :=
  match a with
  | JSONAdapter => "json-file"
  | GoogleDriveAdapter _ => "google-drive"
  | GitHubAdapter _ => "github"
  end.

(** [adapter.uploadToRemote] and [adapter.downloadFromRemote] are defined
    by the two cloud classes only. *)
Definition has_uploadToRemote (a : Adapter) : bool :=
  match a with
  | JSONAdapter => false
  | _ => true
  end.

Definition has_downloadFromRemote (a : Adapter) : bool :=
  match a with
  | JSONAdapter => false
  | _ => true
  end.

(** The message of the format check of each class. *)
Definition format_message (a : Adapter) : string :=
  match a with
  | JSONAdapter => "Invalid backup format"
  | GoogleDriveAdapter _ => "Invalid Google Drive backup format"
  | GitHubAdapter _ => "Invalid GitHub backup format"
  end.

(** A reference to an adapter object. *)
Definition ref : Type := nat.

(** [{ id: string; url?: string }]. *)
Record UploadResult : Type := mkUploadResult {
  result_id : jsval;
  result_url : option string
}.

(** ** The running program *)

(** The application, its variable [currentAdapter], the adapter objects,
    the network with the requests sent so far, the number of clock readings
    made, and what was done to the page. *)
Record Cloud (DB N : Type) : Type := mkCloud {
  world : World DB;
  currentAdapter : ref;
  objects : gmap ref Adapter;
  net : N;
  requests : list Request;
  ticks : nat;
  ui : list UiEvent
}.
Arguments mkCloud {DB N}.
Arguments world {DB N}.
Arguments currentAdapter {DB N}.
Arguments objects {DB N}.
Arguments net {DB N}.
Arguments requests {DB N}.
Arguments ticks {DB N}.
Arguments ui {DB N}.

Section Cloud.
Context {DB : Type} `{Repository DB} {N : Type} `{Network N}.

Local Open Scope st_scope.

(** [JSON.parse(text)]: [None] when it throws a SyntaxError. *)
Variable JSON_parse : string → option json.
(** [JSON.stringify(value, null, 2)]. *)
Variable JSON_stringify : json → string.
(** [JSON.stringify(value)]. *)
Variable JSON_stringify_compact : json → string.
(** The computation of [sortedFolders], as in [importBackup]. *)
Variable sortFolders : list Folder → list Folder.
(** [new Date().toISOString()] at the n-th reading of the clock. *)
Variable clock : nat → string.
(** [btoa(data)], which throws on a character outside Latin-1. *)
Variable btoa : string → outcome string.
(** The string of a number, an array or an object in a template. *)
Variable ToString_other : json → string.
(** The [message] of an exception the platform has thrown. *)
Variable message_text : exn → string.
(** The n-th URL [URL.createObjectURL] hands out. *)
Variable object_url : nat → string.

(** [`${v}`]. *)
Definition ToString (v : jsval) : string :=
  match v with
  | None => "undefined"
  | Some JNull => "null"
  | Some (JBool true) => "true"
  | Some (JBool false) => "false"
  | Some (JStr s) => s
  | Some other => ToString_other other
  end.

(** [(err as Error).message]. *)
Definition message (err : exn) : string :=
  match err with
  | Error m => m
  | other => message_text other
  end.

(** *** Access to the running program *)

Definition with_world (c : Cloud DB N) (w : World DB) : Cloud DB N :=
  mkCloud w (currentAdapter c) (objects c) (net c) (requests c) (ticks c) (ui c).

Definition with_currentAdapter (c : Cloud DB N) (r : ref) : Cloud DB N :=
  mkCloud (world c) r (objects c) (net c) (requests c) (ticks c) (ui c).

Definition with_object (c : Cloud DB N) (r : ref) (a : Adapter) : Cloud DB N :=
  mkCloud (world c) (currentAdapter c) (<[r := a]> (objects c)) (net c) (requests c)
    (ticks c) (ui c).

Definition sent (c : Cloud DB N) (request : Request) (n : N) : Cloud DB N :=
  mkCloud (world c) (currentAdapter c) (objects c) n (requests c ++ [request])
    (ticks c) (ui c).

Definition tick (c : Cloud DB N) : Cloud DB N :=
  mkCloud (world c) (currentAdapter c) (objects c) (net c) (requests c)
    (S (ticks c)) (ui c).

Definition shown (c : Cloud DB N) (e : UiEvent) : Cloud DB N :=
  mkCloud (world c) (currentAdapter c) (objects c) (net c) (requests c)
    (ticks c) (ui c ++ [e]).

(** A function of the first part, run on the application. *)
Definition in_app {A} (m : M DB A) : St (Cloud DB N) A :=
  λ c, let '(r, w) := m (world c) in (r, with_world c w).

(** [new Date().toISOString()]. *)
Definition toISOString : St (Cloud DB N) string :=
  λ c, (Ok (clock (ticks c)), tick c).

(** [await fetch(url, init)]. *)
Definition await_fetch (request : Request) : St (Cloud DB N) Response :=
  λ c, let '(r, n) := fetch request (net c) in (r, sent c request n).

(** [await response.text()] and [await response.json()]. *)
Definition response_text (response : Response) : St (Cloud DB N) string :=
  of_outcome (resp_body response).

Definition read_json (response : Response) : outcome json :=
  match resp_body response with
  | Throw e => Throw e
  | Ok text => parse JSON_parse text
  end.

Definition response_json (response : Response) : St (Cloud DB N) json :=
  of_outcome (read_json response).

Definition ui_event (e : UiEvent) : St (Cloud DB N) unit :=
  modify (λ c, shown c e).

Definition alert (text : string) : St (Cloud DB N) unit :=
  ui_event (UiAlert text).

(** [URL.createObjectURL(blob)]. *)
Definition createObjectURL (blob : Blob) : St (Cloud DB N) string :=
  let* n := get (λ c, length (ui c)) in
  ui_event (UiCreateObjectURL blob) ;;;
  pure (object_url n).

(** The object behind a reference.  A reference always names an object;
    a store that lacks it is outside the programs considered, as a document
    with [ShapeError] is. *)
Definition deref (r : ref) : St (Cloud DB N) Adapter :=
  λ c, match objects c !! r with
       | Some a => (Ok a, c)
       | None => (Throw ShapeError, c)
       end.

(** *** Methods *)

(** A method of a class with fields [T] runs on the fields of [this] and
    on the program. *)
Definition Method (T A : Type) : Type := St (T * Cloud DB N) A.

Definition this {T} : Method T T := get fst.

Definition assign_this {T} (upd : T → T) : Method T unit :=
  modify (λ s, (upd (fst s), snd s)).

Definition outside {T A} (m : St (Cloud DB N) A) : Method T A :=
  λ s, let '(r, c) := m (snd s) in (r, (fst s, c)).

(** [object.method(args)] on the object [r], whose fields are [fields]:
    what the method assigns stays in the object, also when it throws. *)
Definition invoke {T A} (r : ref) (class : T → Adapter) (fields : T)
    (method : Method T A) : St (Cloud DB N) A :=
  λ c, let '(res, (fields', c')) := method (fields, c) in
       (res, with_object c' r (class fields')).

(** *** [serialize] and [deserialize]

    The three classes have the same [serialize]; [deserialize] differs
    in the message.  Neither reads a field. *)

Definition GoogleDriveAdapter_serialize (now : string) (folders : list Folder)
    (files : list File) : string :=
  let backup := backup_literal now folders files in
  JSON_stringify backup.

Definition GitHubAdapter_serialize (now : string) (folders : list Folder)
    (files : list File) : string :=
  let backup := backup_literal now folders files in
  JSON_stringify backup.

Definition GoogleDriveAdapter_deserialize (data : string) : outcome json :=
  match parse JSON_parse data with
  | Throw e => Throw e
  | Ok backup =>
      match check_backup "Invalid Google Drive backup format" backup with
      | Throw e => Throw e
      | Ok _ => Ok backup
      end
  end.

Definition GitHubAdapter_deserialize (data : string) : outcome json :=
  match parse JSON_parse data with
  | Throw e => Throw e
  | Ok backup =>
      match check_backup "Invalid GitHub backup format" backup with
      | Throw e => Throw e
      | Ok _ => Ok backup
      end
  end.

(** [adapter.serialize(folders, files)]: the method of the class of the
    object; each reads the clock for [exportedAt]. *)
Definition serialize (adapter : ref) (folders : list Folder) (files : list File)
    : St (Cloud DB N) string :=
  let* a := deref adapter in
  match a with
  | JSONAdapter =>
      let* now := toISOString in
      pure (JSONAdapter_serialize JSON_stringify now folders files)
  | GoogleDriveAdapter _ =>
      let* now := toISOString in
      pure (GoogleDriveAdapter_serialize now folders files)
  | GitHubAdapter _ =>
      let* now := toISOString in
      pure (GitHubAdapter_serialize now folders files)
  end.

(** [adapter.deserialize(data)]. *)
Definition adapter_deserialize (a : Adapter) (data : string) : outcome json :=
  match a with
  | JSONAdapter => JSONAdapter_deserialize JSON_parse data
  | GoogleDriveAdapter _ => GoogleDriveAdapter_deserialize data
  | GitHubAdapter _ => GitHubAdapter_deserialize data
  end.

Definition deserialize (adapter : ref) (data : string) : St (Cloud DB N) json :=
  let* a := deref adapter in
  of_outcome (adapter_deserialize a data).

(** *** [GoogleDriveAdapter] *)

(** [requestGoogleAuth()]: a placeholder that throws. *)
Definition requestGoogleAuth : Method GoogleDriveFields string :=
  raise (Error "Implement Google OAuth flow").

(** [authenticate()]. *)
Definition GoogleDriveAdapter_authenticate : Method GoogleDriveFields unit :=
  let* token := requestGoogleAuth in
  assign_this (λ t, mkGoogleDrive (Some token) (fileId t)).

(** [if (!this.accessToken) { await this.authenticate(); }]. *)
Definition ensure_accessToken : Method GoogleDriveFields unit :=
  let* t := this in
  if negb (truthy_string (accessToken t)) then GoogleDriveAdapter_authenticate
  else pure tt.

(** [uploadToRemote(data)]. *)
Definition GoogleDriveAdapter_uploadToRemote (data : string)
    : Method GoogleDriveFields UploadResult :=
  ensure_accessToken ;;;
  let fileData := mkBlob data "application/json" in
  let* now := outside toISOString in
  let metadata :=
    JObj [("name", JStr (dated "sveltemark-backup-" now));
          ("mimeType", JStr "application/json")] in
  let form :=
    [("metadata", mkBlob (JSON_stringify_compact metadata) "application/json");
     ("file", fileData)] in
  let* t := this in
  let* response :=
    outside (await_fetch
      (mkRequest "https://www.googleapis.com/upload/drive/v3/files?uploadType=multipart"
         (Some "POST")
         [("Authorization", "Bearer " +:+ template (accessToken t))]
         (Some (BodyForm form)))) in
  let* result := outside (response_json response) in
  let* id := of_outcome (get_prop "id" result) in
  assign_this (λ t, mkGoogleDrive (accessToken t) id) ;;;
  pure (mkUploadResult id (Some ("https://drive.google.com/file/d/" +:+ ToString id))).

(** [downloadFromRemote(id)]. *)
Definition GoogleDriveAdapter_downloadFromRemote (id : string)
    : Method GoogleDriveFields string :=
  ensure_accessToken ;;;
  let* t := this in
  let* response :=
    outside (await_fetch
      (mkRequest ("https://www.googleapis.com/drive/v3/files/" +:+ id +:+ "?alt=media")
         None
         [("Authorization", "Bearer " +:+ template (accessToken t))]
         None)) in
  outside (response_text response).

(** *** [GitHubAdapter] *)

(** The header ['Authorization': `Bearer ${this.token}`]. *)
Definition authorization (t : GitHubFields) : string * string :=
  ("Authorization", "Bearer " +:+ template (token t)).

(** The request of [authenticate]. *)
Definition user_request (t : GitHubFields) : Request :=
  mkRequest "https://api.github.com/user"
    None
    [authorization t; ("Accept", "application/vnd.github.v3+json")]
    None.

(** [authenticate(token)]. *)
Definition GitHubAdapter_authenticate (token' : string) : Method GitHubFields unit :=
  assign_this (λ t, mkGitHub (Some token') (owner t) (repo t)) ;;;
  let* t := this in
  let* response := outside (await_fetch (user_request t)) in
  if negb (resp_ok response) then raise (Error "Invalid GitHub token")
  else pure tt.

(** [!this.token || !this.owner || !this.repo]. *)
Definition unconfigured (t : GitHubFields) : bool :=
  negb (truthy_string (token t))
  || negb (truthy_string (Some (owner t)))
  || negb (truthy_string (Some (repo t))).

(** [`https://api.github.com/repos/${this.owner}/${this.repo}/contents/${filePath}`]. *)
Definition contents_url (t : GitHubFields) (filePath : string) : string :=
  "https://api.github.com/repos/" +:+ owner t +:+ "/" +:+ repo t +:+ "/contents/"
  +:+ filePath.

(** [`https://github.com/${this.owner}/${this.repo}/blob/main/${filePath}`]. *)
Definition blob_url (t : GitHubFields) (filePath : string) : string :=
  "https://github.com/" +:+ owner t +:+ "/" +:+ repo t +:+ "/blob/main/" +:+ filePath.

(** [`backups/${fileName}`] with [fileName] the dated name. *)
Definition backup_path (now : string) : string :=
  let fileName := dated "backup-" now in
  "backups/" +:+ fileName.

(** The request that looks for the file, the one that writes it, and the
    one that reads it back. *)
Definition existing_request (t : GitHubFields) (filePath : string) : Request :=
  mkRequest (contents_url t filePath)
    None
    [authorization t; ("Accept", "application/vnd.github.v3+json")]
    None.

Definition put_request (t : GitHubFields) (filePath body : string) : Request :=
  mkRequest (contents_url t filePath)
    (Some "PUT")
    [authorization t;
     ("Accept", "application/vnd.github.v3+json");
     ("Content-Type", "application/json")]
    (Some (BodyText body)).

Definition raw_request (t : GitHubFields) (filePath : string) : Request :=
  mkRequest (contents_url t filePath)
    None
    [authorization t; ("Accept", "application/vnd.github.v3.raw")]
    None.

(** The property [sha: sha] of the request body: [JSON.stringify] leaves
    out a property that is [undefined]. *)
Definition sha_prop (sha : jsval) : list (string * json) :=
  match sha with
  | Some v => [("sha", v)]
  | None => []
  end.

(** [JSON.stringify({ message: ..., content: btoa(data), sha: sha })],
    with the time [now] in the message. *)
Definition put_body (now content : string) (sha : jsval) : string :=
  JSON_stringify_compact
    (JObj ([("message", JStr ("Backup from SvelteMark: " +:+ now));
            ("content", JStr content)] ++ sha_prop sha)).

(** [let sha; if (existingFile.ok) { sha = (await existingFile.json()).sha }]:
    the value of [sha] after the block. *)
Definition existing_sha (existingFile : Response) : outcome jsval :=
  if resp_ok existingFile
  then match read_json existingFile with
       | Throw e => Throw e
       | Ok fileData => get_prop "sha" fileData
       end
  else Ok None.

(** [uploadToRemote(data)]. *)
Definition GitHubAdapter_uploadToRemote (data : string)
    : Method GitHubFields UploadResult :=
  let* t := this in
  if unconfigured t then raise (Error "GitHub credentials not configured")
  else
    let* now := outside toISOString in
    let filePath := backup_path now in
    let* existingFile := outside (await_fetch (existing_request t filePath)) in
    let* sha := of_outcome (existing_sha existingFile) in
    let* now' := outside toISOString in
    let* content := of_outcome (btoa data) in
    let* response :=
      outside (await_fetch (put_request t filePath (put_body now' content sha))) in
    let* result := outside (response_json response) in
    pure (mkUploadResult (Some (JStr filePath)) (Some (blob_url t filePath))).

(** [downloadFromRemote(filePath)]. *)
Definition GitHubAdapter_downloadFromRemote (filePath : string)
    : Method GitHubFields string :=
  let* t := this in
  if unconfigured t then raise (Error "GitHub credentials not configured")
  else
    let* response := outside (await_fetch (raw_request t filePath)) in
    outside (response_text response).

(** [adapter.uploadToRemote(data)] and [adapter.downloadFromRemote(id)]:
    the method of the class of the object.  A [JSONAdapter] has neither,
    and calling what is [undefined] is a TypeError. *)
Definition uploadToRemote (adapter : ref) (data : string) : St (Cloud DB N) UploadResult :=
  let* a := deref adapter in
  match a with
  | JSONAdapter => raise TypeError
  | GoogleDriveAdapter t =>
      invoke adapter GoogleDriveAdapter t (GoogleDriveAdapter_uploadToRemote data)
  | GitHubAdapter t =>
      invoke adapter GitHubAdapter t (GitHubAdapter_uploadToRemote data)
  end.

Definition downloadFromRemote (adapter : ref) (id : string) : St (Cloud DB N) string :=
  let* a := deref adapter in
  match a with
  | JSONAdapter => raise TypeError
  | GoogleDriveAdapter t =>
      invoke adapter GoogleDriveAdapter t (GoogleDriveAdapter_downloadFromRemote id)
  | GitHubAdapter t =>
      invoke adapter GitHubAdapter t (GitHubAdapter_downloadFromRemote id)
  end.

(** *** The adapter functions of [appState.svelte.ts] *)

(** [adapter || currentAdapter]. *)
Definition adapterToUse (adapter : option ref) : St (Cloud DB N) ref :=
  match adapter with
  | Some r => pure r
  | None => get currentAdapter
  end.

(** [exportBackupWithAdapter(adapter?)]. *)
Definition exportBackupWithAdapter (adapter : option ref) : St (Cloud DB N) string :=
  let* adapterToUse := adapterToUse adapter in
  let* folders := in_app (read st_folders) in
  let* files := in_app (read st_files) in
  let* serialized := serialize adapterToUse folders files in
  pure serialized.

(** [importBackupWithAdapter(jsonString, adapter?)].  After [deserialize]
    the document has "rest of import logic remains the same": the four
    steps of [importBackup] that follow its format check. *)
Definition importBackupWithAdapter (jsonString : string) (adapter : option ref)
    : St (Cloud DB N) unit :=
  let* adapterToUse := adapterToUse adapter in
  let* backup := deserialize adapterToUse jsonString in
  match as_backup backup with
  | None => raise ShapeError
  | Some data => in_app (replay sortFolders data)
  end.

(** [setStorageAdapter(adapter)]. *)
Definition setStorageAdapter (adapter : ref) : St (Cloud DB N) unit :=
  modify (λ c, with_currentAdapter c adapter).

(** [uploadToCloud(adapter)]. *)
Definition uploadToCloud (adapter : ref) : St (Cloud DB N) UploadResult :=
  let* a := deref adapter in
  if negb (has_uploadToRemote a)
  then raise (Error (adapter_name a +:+ " does not support cloud uploads"))
  else
    let* data := exportBackupWithAdapter (Some adapter) in
    uploadToRemote adapter data.

(** [downloadFromCloud(adapter, id)]. *)
Definition downloadFromCloud (adapter : ref) (id : string) : St (Cloud DB N) unit :=
  let* a := deref adapter in
  if negb (has_downloadFromRemote a)
  then raise (Error (adapter_name a +:+ " does not support cloud downloads"))
  else
    let* data := downloadFromRemote adapter id in
    importBackupWithAdapter data (Some adapter).

(** *** The handlers of [Toolbar.svelte] *)

(** The lines both export handlers share: the blob, its URL, the anchor
    with [href] and [download], the click, the URL revoked. *)
Definition save_as_file (backup : string) : St (Cloud DB N) unit :=
  let blob := mkBlob backup "application/json" in
  let* url := createObjectURL blob in
  let* now := toISOString in
  ui_event (UiClick url (dated "sveltemark-backup-" now)) ;;;
  ui_event (UiRevokeObjectURL url).

(** [handleExport()]. *)
Definition handleExport : St (Cloud DB N) unit :=
  let* now := toISOString in
  let* backup := in_app (exportBackup JSON_stringify now) in
  save_as_file backup ;;;
  ui_event UiCloseMenus.

(** The [onload] handler of the reader, with [e.target.result]. *)
Definition reader_onload (content : string) : St (Cloud DB N) unit :=
  try_catch
    (in_app (importBackup JSON_parse sortFolders content) ;;;
     alert "Backup imported successfully!")
    (λ err, alert ("Failed to import backup: " +:+ message err)).

(** [target.files?.[0]]. *)
Definition first_file (files : option (list PickedFile)) : option PickedFile :=
  match files with
  | Some l => head l
  | None => None
  end.

(** [handleImportFile(event)], with [event.target.files].  The [load]
    event of the reader is delivered after the handler has returned, so
    after the input has been reset. *)
Definition handleImportFile (files : option (list PickedFile)) : St (Cloud DB N) unit :=
  match first_file files with
  | None => pure tt
  | Some file =>
      ui_event (UiReadAsText file) ;;;
      ui_event (UiSetValue "") ;;;
      match file with
      | Some content => reader_onload content
      | None => pure tt
      end
  end.

(** [adapters.find(a => a.id === selectedAdapter)]. *)
Fixpoint find_adapter (selectedAdapter : string) (adapters : list ref)
    : St (Cloud DB N) (option ref) :=
  match adapters with
  | [] => pure None
  | r :: rest =>
      let* a := deref r in
      if String.eqb (adapter_id a) selectedAdapter then pure (Some r)
      else find_adapter selectedAdapter rest
  end.

(** [result.url || 'N/A']. *)
Definition or_NA (url : option string) : string :=
  match url with
  | Some u => if truthy_string (Some u) then u else "N/A"
  | None => "N/A"
  end.

(** [handleExportWithAdapter()], with the variables [selectedAdapter] and
    [adapters] of the component. *)
Definition handleExportWithAdapter (selectedAdapter : string) (adapters : list ref)
    : St (Cloud DB N) unit :=
  let* adapter := find_adapter selectedAdapter adapters in
  match adapter with
  | None => pure tt
  | Some adapter =>
      let* a := deref adapter in
      if String.eqb (adapter_id a) "json-file" then
        let* backup := exportBackupWithAdapter (Some adapter) in
        save_as_file backup
      else if has_uploadToRemote a then
        let* result := uploadToCloud adapter in
        alert ("Backup saved to " +:+ adapter_name a +:+ "!" +:+ line_feed
               +:+ "ID: " +:+ ToString (result_id result) +:+ line_feed
               +:+ "URL: " +:+ or_NA (result_url result))
      else pure tt
  end.

(** *** Vocabulary for statements about adapter objects *)

(** The calls that reach the fields of a [GoogleDriveAdapter], and those
    that reach the fields of a [GitHubAdapter]. *)
Inductive GoogleDriveCall : Type :=
| GD_authenticate
| GD_uploadToRemote (data : string)
| GD_downloadFromRemote (id : string).

Inductive GitHubCall : Type :=
| GH_authenticate (token : string)
| GH_uploadToRemote (data : string)
| GH_downloadFromRemote (filePath : string).

(** A call whose result is not looked at. *)
Definition discard {S A} (m : St S A) : St S unit :=
  let* _ := m in pure tt.

Definition GoogleDrive_call (k : GoogleDriveCall) : Method GoogleDriveFields unit :=
  match k with
  | GD_authenticate => GoogleDriveAdapter_authenticate
  | GD_uploadToRemote data => discard (GoogleDriveAdapter_uploadToRemote data)
  | GD_downloadFromRemote id => discard (GoogleDriveAdapter_downloadFromRemote id)
  end.

Definition GitHub_call (k : GitHubCall) : Method GitHubFields unit :=
  match k with
  | GH_authenticate token => GitHubAdapter_authenticate token
  | GH_uploadToRemote data => discard (GitHubAdapter_uploadToRemote data)
  | GH_downloadFromRemote filePath => discard (GitHubAdapter_downloadFromRemote filePath)
  end.

(** The state after a list of calls, each made whether or not the one
    before it threw. *)
Definition after_calls {S K} (call : K → St S unit) (ks : list K) (s : S) : S :=
  foldl (λ s k, snd (call k s)) s ks.

(** The tokens a list of calls has passed to [authenticate]. *)
Definition tokens (ks : list GitHubCall) : list string :=
  omap (λ k, match k with GH_authenticate token => Some token | _ => None end) ks.

(** What [alert] shows after an import, by its outcome. *)
Definition import_report (r : outcome unit) : string :=
  match r with
  | Ok _ => "Backup imported successfully!"
  | Throw err => "Failed to import backup: " +:+ message err
  end.

End Cloud.

(** The name a [createFolder] call gives, the id a [toggleFolderOpen] call
    gives. *)
Definition created_name (c : Call) : option string :=
  match c with
  | CallCreateFolder n _ => Some n
  | _ => None
  end.

Definition toggled (c : Call) : option Z :=
  match c with
  | CallToggleFolderOpen i => Some i
  | _ => None
  end.

(** ** A scripted network and a repository that never fails

    Used to run the cloud functions on concrete answers. *)

Module Scripted.

(** The answers the network will give, in order; once they have run out
    [fetch] rejects, as it does when the network is down. *)
Definition fetch (request : Request) (answers : list (outcome Response))
    : outcome Response * list (outcome Response) :=
  match answers with
  | a :: rest => (a, rest)
  | [] => (Throw TypeError, [])
  end.

#[global] Instance network : Network (list (outcome Response)) :=
  Build_Network (list (outcome Response)) fetch.

End Scripted.

Module Ledger.

(** A repository that keeps no rows: it hands out ids from a counter and
    accepts every call. *)
Definition next (s : AppState Z) : AppState Z :=
  mkAppState (db s + 1) (st_folders s) (st_files s) (activeFileId s) (buffer s) (dirty s).

Definition deleteFile (id : Z) (s : AppState Z) : outcome unit * AppState Z := (Ok tt, s).
Definition deleteFolder (id : Z) (s : AppState Z) : outcome unit * AppState Z := (Ok tt, s).
Definition createFolder (nm : string) (parent : option Z) (s : AppState Z)
    : outcome Z * AppState Z := (Ok (db s), next s).
Definition toggleFolderOpen (id : Z) (s : AppState Z) : outcome unit * AppState Z :=
  (Ok tt, s).
Definition createFile (folder : option Z) (ttl cnt : string) (s : AppState Z)
    : outcome Z * AppState Z := (Ok (db s), next s).
Definition refreshData (s : AppState Z) : outcome unit * AppState Z := (Ok tt, s).
Definition selectFile (id : option Z) (s : AppState Z) : outcome unit * AppState Z :=
  (Ok tt, mkAppState (db s) (st_folders s) (st_files s) id (buffer s) false).

#[global] Instance repository : Repository Z :=
  Build_Repository Z deleteFile deleteFolder createFolder toggleFolderOpen
    createFile refreshData selectFile.

End Ledger.

Module Remote.

(** The clock of the examples stands still. *)
Definition clock (n : nat) : string := Examples.exported_at.

(** A stand-in for [btoa] that accepts every string. *)
Definition btoa (data : string) : outcome string := Ok data.

(** A [btoa] for ASCII text.  A character outside ASCII is held here as
    its UTF-8 bytes; this function rejects every string that has one, as
    [btoa] rejects a character outside Latin-1. *)
Definition ascii_only (data : string) : outcome string :=
  if forallb (λ ch, (nat_of_ascii ch <? 128)%nat) (list_ascii_of_string data)
  then Ok data
  else Throw (Error "InvalidCharacterError").

Definition ToString_other (v : json) : string := Reference.JSON_stringify v.

Definition message_text (e : exn) : string :=
  match e with
  | SyntaxError => "Unexpected token"
  | _ => "Cannot read properties of null"
  end.

Definition object_url (n : nat) : string := "blob:" +:+ pretty n.

(** The adapters of the toolbar, and a GitHub adapter with a repository
    and a token. *)
Definition octo : GitHubFields := mkGitHub (Some "t0k3n") "octo" "notes".

Definition adapters : gmap ref Adapter :=
  {[ 0%nat := JSONAdapter;
     1%nat := new_GoogleDriveAdapter;
     2%nat := new_GitHubAdapter None None;
     3%nat := GitHubAdapter octo ]}.

(** The loaded application of the examples, online, with the given
    answers waiting. *)
Definition online (answers : list (outcome Response))
    : Cloud Memory.Store (list (outcome Response)) :=
  mkCloud Examples.loaded 0%nat adapters answers [] 0%nat [].

(** GitHub's answer for a file that does not exist, and its answer to a
    [PUT] it refuses. *)
Definition not_found : Response :=
  mkResponse false (Ok (Examples.quoted "{'message': 'Not Found'}")).

Definition refused : Response :=
  mkResponse false (Ok (Examples.quoted "{'message': 'Bad credentials'}")).

(** A text that parses and is no backup: [files] is missing. *)
Definition no_files : string := Examples.quoted "{'version': 1, 'folders': []}".

(** The application over the repository that never fails. *)
Definition ledger : Cloud Z (list (outcome Response)) :=
  mkCloud
    (mkWorld (mkAppState 1 Examples.workspace_folders Examples.workspace_files None "" false) [])
    0%nat adapters [] [] 0%nat [].

End Remote.
(** * Properties *)

(** ** The codec: records, truthiness, [deserialize] *)

Lemma as_folder_to_json (f : Folder) : as_folder (folder_to_json f) = Some f.
Proof. destruct f as [[i|] n [p|] o]; reflexivity. Qed.

Lemma as_file_to_json (f : File) : as_file (file_to_json f) = Some f.
Proof. destruct f as [[i|] [d|] t c ca ua]; reflexivity. Qed.

Lemma mapM_roundtrip {A} (enc : A → json) (dec : json → option A) (l : list A) :
  (∀ x, dec (enc x) = Some x) → mapM dec (enc <$> l) = Some l.
Proof.
  intros Hrt. induction l as [|x l IH]; [reflexivity|].
  cbn. rewrite Hrt. cbn. rewrite IH. reflexivity.
Qed.

Lemma as_backup_literal now fs ds :
  as_backup (backup_literal now fs ds)
  = Some (mkBackupData (Some (JNum 1)) (Some (JStr now)) fs ds).
Proof.
  unfold as_backup, backup_literal. cbn.
  rewrite (mapM_roundtrip _ _ fs as_folder_to_json). cbn.
  rewrite (mapM_roundtrip _ _ ds as_file_to_json). reflexivity.
Qed.

Lemma check_backup_literal msg now fs ds :
  check_backup msg (backup_literal now fs ds) = Ok tt.
Proof. reflexivity. Qed.

(** A document with a typed reading passes the format check: arrays are
    truthy, also the empty one. *)
Lemma check_backup_typed msg v data : as_backup v = Some data → check_backup msg v = Ok tt.
Proof.
  destruct v as [| | | | |props]; try discriminate. unfold as_backup, check_backup. cbn.
  destruct (own_prop "folders" props) as [[]|]; try discriminate.
  destruct (own_prop "files" props) as [[]|]; cbn.
  all: try reflexivity.
  all: destruct (mapM as_folder items); discriminate.
Qed.

(** [deserialize] in full: which error for which document. *)
Lemma JSONAdapter_deserialize_cases JSON_parse data :
  JSONAdapter_deserialize JSON_parse data =
  match JSON_parse data with
  | None => Throw SyntaxError
  | Some JNull => Throw TypeError
  | Some (JObj props) =>
      if truthy (own_prop "folders" props) && truthy (own_prop "files" props)
      then Ok (JObj props) else Throw (Error "Invalid backup format")
  | Some _ => Throw (Error "Invalid backup format")
  end.
Proof.
  unfold JSONAdapter_deserialize, parse.
  destruct (JSON_parse data) as [[| | | | |props]|]; try reflexivity.
  unfold check_backup. cbn.
  destruct (truthy (own_prop "folders" props)); [|reflexivity].
  destruct (truthy (own_prop "files" props)); reflexivity.
Qed.

(** ** The reference reader and writer: reading what was written *)

Section ReferenceRoundTrip.
Import Reference.

Lemma append_cons (x : ascii) (a b : string) : String x a +:+ b = String x (a +:+ b).
Proof. reflexivity. Qed.

Lemma append_assoc (a b c : string) : (a +:+ b) +:+ c = a +:+ (b +:+ c).
Proof. induction a as [|x a IH]; [reflexivity|]. rewrite !append_cons, IH. reflexivity. Qed.

Lemma append_nil_r (a : string) : a +:+ "" = a.
Proof. induction a as [|x a IH]; [reflexivity|]. rewrite append_cons, IH. reflexivity. Qed.

Lemma length_append (a b : string) :
String.length (a +:+ b) = (String.length a + String.length b)%nat.
Proof.
induction a as [|x a IH]; [reflexivity|]. rewrite append_cons. cbn [String.length].
rewrite IH. reflexivity.
Qed.

(** *** Numbers *)

Lemma digit_of_pretty_N_char (d : N) :
(d < 10)%N → digit_of (pretty_N_char d) = Some (Z.of_N d).
Proof.
intros Hd.
assert (d = 0 ∨ d = 1 ∨ d = 2 ∨ d = 3 ∨ d = 4 ∨ d = 5 ∨ d = 6 ∨ d = 7 ∨ d = 8 ∨ d = 9)%N
  as Hcases by lia.
repeat (destruct Hcases as [->|Hcases]; [reflexivity|]). subst. reflexivity.
Qed.

Lemma pretty_N_go_append (x : N) (s rest : string) :
pretty_N_go x s +:+ rest = pretty_N_go x (s +:+ rest).
Proof.
revert s. induction (N.lt_wf_0 x) as [x _ IH]. intros s.
destruct (decide (x = 0)%N) as [->|Hx]; [rewrite !pretty_N_go_0; reflexivity|].
rewrite (pretty_N_go_step x s), (pretty_N_go_step x (s +:+ rest)) by lia.
rewrite IH by (apply N.div_lt; lia). reflexivity.
Qed.

Lemma read_digits_pretty_N_go (x : N) (s : string) :
read_digits (pretty_N_go x s) 0 = read_digits s (Z.of_N x).
Proof.
revert s. induction (N.lt_wf_0 x) as [x _ IH]. intros s.
destruct (decide (x = 0)%N) as [->|Hx]; [rewrite pretty_N_go_0; reflexivity|].
rewrite pretty_N_go_step by lia.
rewrite IH by (apply N.div_lt; lia).
cbn [read_digits]. rewrite digit_of_pretty_N_char by (apply N.mod_lt; lia).
f_equal. pose proof (N.div_mod x 10 ltac:(lia)) as Hdm. lia.
Qed.

Lemma pretty_N_go_head (x : N) (s : string) :
(0 < x)%N → ∃ c r, pretty_N_go x s = String c r ∧ is_digit c.
Proof.
revert s. induction (N.lt_wf_0 x) as [x _ IH]. intros s Hx.
rewrite pretty_N_go_step by lia.
destruct (decide (x `div` 10 = 0)%N) as [Hz|Hnz].
- rewrite Hz, pretty_N_go_0. eexists _, _. split; [reflexivity|].
  unfold is_digit. rewrite digit_of_pretty_N_char by (apply N.mod_lt; lia). eauto.
- apply IH; [apply N.div_lt; lia|apply N.neq_0_lt_0; exact Hnz].
Qed.

Lemma read_digits_stop (rest : string) (acc : Z) :
ends_number rest → read_digits rest acc = (acc, rest).
Proof. destruct rest as [|c r]; [reflexivity|]. cbn. intros ->. reflexivity. Qed.

Lemma read_unsigned_pretty (p : positive) (rest : string) :
ends_number rest →
∃ c r, pretty (N.pos p) +:+ rest = String c r ∧ is_digit c
     ∧ read_digits (String c r) 0 = (Z.pos p, rest).
Proof.
intros Hrest. unfold pretty, pretty_N. cbn [decide].
destruct (decide (N.pos p = 0%N)) as [Habs|_]; [discriminate|].
rewrite pretty_N_go_append. cbn [String.append].
destruct (pretty_N_go_head (N.pos p) rest) as (c & r & Heq & Hc); [lia|].
exists c, r. split; [exact Heq|]. split; [exact Hc|].
rewrite <- Heq, read_digits_pretty_N_go. apply read_digits_stop. exact Hrest.
Qed.

Lemma read_number_pretty (z : Z) (rest : string) :
ends_number rest → read_number (pretty z +:+ rest) = Some (z, rest).
Proof.
intros Hrest. destruct z as [|p|p].
- change (read_number (String "0" rest) = Some (0, rest)).
  unfold read_number. cbn [read_digits]. change (digit_of "0") with (Some 0).
  cbn. rewrite read_digits_stop by exact Hrest. reflexivity.
- change (pretty (Z.pos p)) with (pretty (N.pos p)).
  destruct (read_unsigned_pretty p rest Hrest) as (c & r & -> & [d Hd] & Hread).
  unfold read_number.
  assert (c ≠ "-"%char) as Hc by (intros ->; discriminate).
  destruct c as [[] [] [] [] [] [] [] []]; try (exfalso; apply Hc; reflexivity);
    rewrite Hd, Hread; reflexivity.
- change (read_number (String "-" (pretty (N.pos p) +:+ rest)) = Some (Z.neg p, rest)).
  destruct (read_unsigned_pretty p rest Hrest) as (c & r & Heq & [d Hd] & Hread).
  rewrite Heq. unfold read_number. rewrite Hd, Hread. reflexivity.
Qed.

(** *** Strings *)

Lemma read_string_write_char (c : ascii) (X : string) :
read_string (write_char c +:+ X)
= match read_string X with
  | Some (body, rest) => Some (String c body, rest)
  | None => None
  end.
Proof. destruct c as [[] [] [] [] [] [] [] []]; reflexivity. Qed.

Lemma read_string_write_chars (s rest : string) :
read_string (write_chars s +:+ String dquote rest) = Some (s, rest).
Proof.
induction s as [|c s IH]; [reflexivity|].
change (write_chars (String c s)) with (write_char c +:+ write_chars s).
rewrite append_assoc, read_string_write_char, IH. reflexivity.
Qed.

(** *** Values *)

Lemma skip_ws_ws (a s : string) : all_ws a = true → skip_ws (a +:+ s) = skip_ws s.
Proof.
induction a as [|c a IH]; [reflexivity|]. cbn [all_ws]. intros [Hc Ha]%andb_true_iff.
rewrite append_cons. cbn [skip_ws]. rewrite Hc. exact (IH Ha).
Qed.

Lemma skip_ws_head (c : ascii) (r : string) : is_ws c = false → skip_ws (String c r) = String c r.
Proof. intros Hc. cbn [skip_ws]. rewrite Hc. reflexivity. Qed.

Lemma all_ws_append (a b : string) : all_ws a = true → all_ws b = true → all_ws (a +:+ b) = true.
Proof.
induction a as [|c a IH]; [auto|]. cbn [all_ws]. intros [Hc Ha]%andb_true_iff Hb.
rewrite append_cons. cbn [all_ws]. rewrite Hc, (IH Ha Hb). reflexivity.
Qed.

Lemma read_value_skip (fuel : nat) (a s : string) :
all_ws a = true → read_value fuel (a +:+ s) = read_value fuel s.
Proof.
intros Ha. destruct fuel as [|n]; [reflexivity|].
cbn [read_value]. rewrite (skip_ws_ws a s Ha). reflexivity.
Qed.

Lemma read_value_skip_line (fuel : nat) (inner s : string) :
all_ws inner = true → read_value fuel (line_break +:+ inner +:+ s) = read_value fuel s.
Proof.
intros Hinner. rewrite (read_value_skip fuel line_break) by reflexivity.
apply read_value_skip. exact Hinner.
Qed.

Lemma read_value_skip_space (fuel : nat) (s : string) :
read_value fuel (String " " s) = read_value fuel s.
Proof. apply (read_value_skip fuel " " s). reflexivity. Qed.

Lemma digit_opens_value c : is_digit c ∨ c = "-"%char → opens_value c.
Proof.
intros Hc. destruct c as [[] [] [] [] [] [] [] []];
  try (repeat split; reflexivity);
  exfalso; destruct Hc as [[d Hd]|Hc]; discriminate.
Qed.

Lemma pretty_Z_head (z : Z) :
∃ c r, pretty z = String c r ∧ (is_digit c ∨ c = "-"%char).
Proof.
destruct z as [|p|p].
- exists "0"%char, EmptyString. split; [reflexivity|]. left. eexists. reflexivity.
- change (pretty (Z.pos p)) with (pretty (N.pos p)). unfold pretty, pretty_N.
  destruct (decide (N.pos p = 0%N)) as [Habs|_]; [discriminate|].
  destruct (pretty_N_go_head (N.pos p) "") as (c & r & Heq & Hc); [lia|].
  exists c, r. split; [exact Heq|]. left. exact Hc.
- eexists "-"%char, _. split; [reflexivity|]. right. reflexivity.
Qed.

Lemma write_value_head (indent : string) (v : json) :
∃ c r, write_value indent v = String c r ∧ opens_value c.
Proof.
destruct v as [|[]|z|s|[|x xs]|[|kv kvs]];
  try (eexists _, _; split; [reflexivity|repeat split; reflexivity]).
destruct (pretty_Z_head z) as (c & r & Heq & Hc).
exists c, r. split; [exact Heq|]. apply digit_opens_value. exact Hc.
Qed.

Lemma read_value_number (fuel : nat) (c : ascii) (r : string) :
is_digit c ∨ c = "-"%char →
read_value (S fuel) (String c r) = tagged JNum (read_number (String c r)).
Proof.
intros Hc. destruct c as [[] [] [] [] [] [] [] []];
  try reflexivity;
  exfalso; destruct Hc as [[d Hd]|Hc]; discriminate.
Qed.

Lemma append_nil_l (a : string) : "" +:+ a = a.
Proof. reflexivity. Qed.

Ltac flatten :=
repeat (rewrite append_assoc || rewrite append_cons || rewrite append_nil_l).

Lemma write_value_array indent x xs :
write_value indent (JArr (x :: xs))
= "[" +:+ line_break +:+ join_lines (map (written (indent +:+ "  ")) (x :: xs))
  +:+ line_break +:+ indent +:+ "]".
Proof. reflexivity. Qed.

Lemma write_value_object indent kv kvs :
write_value indent (JObj (kv :: kvs))
= "{" +:+ line_break +:+ join_lines (map (written_member (indent +:+ "  ")) (kv :: kvs))
  +:+ line_break +:+ indent +:+ "}".
Proof. reflexivity. Qed.

Lemma total_cons {A} (f : A → nat) x xs : total f (x :: xs) = (S (f x) + total f xs)%nat.
Proof. reflexivity. Qed.

Section Values.
Variable n : nat.
Hypothesis IH : ∀ v indent rest fuel,
(cost v ≤ n)%nat → (cost v ≤ fuel)%nat → all_ws indent = true → ends_number rest →
read_value fuel (write_value indent v +:+ rest) = Some (v, rest).

Lemma read_items_written (items : list json) :
∀ inner tail rest fuel,
  items ≠ [] →
  (∀ x, x ∈ items → (cost x ≤ n)%nat) →
  (total cost items ≤ fuel)%nat →
  all_ws inner = true →
  skip_ws tail = String "]" rest → ends_number tail →
  read_items fuel (line_break +:+ join_lines (map (written inner) items) +:+ tail)
  = Some (items, rest).
Proof.
induction items as [|x xs IHl]; intros inner tail rest fuel Hne Hcost Hfuel Hinner Htail Hend;
  [contradiction|].
rewrite total_cons in Hfuel. destruct fuel as [|k]; [lia|].
assert (cost x ≤ n)%nat as Hx by (apply Hcost; left).
destruct xs as [|y ys].
- cbn [map join_lines]. unfold written. flatten.
  cbn [read_items]. rewrite read_value_skip_line by exact Hinner.
  rewrite IH by (try assumption; lia).
  rewrite Htail. reflexivity.
- change (join_lines (map (written inner) (x :: y :: ys)))
    with (written inner x +:+ "," +:+ line_break +:+ join_lines (map (written inner) (y :: ys))).
  unfold written at 1. flatten.
  cbn [read_items]. rewrite read_value_skip_line by exact Hinner.
  rewrite IH; [|exact Hx|lia|exact Hinner|reflexivity].
  rewrite skip_ws_head by reflexivity.
  change (Ascii.eqb "," ",") with true. cbn match.
  rewrite (IHl inner tail rest k); [reflexivity|discriminate| |rewrite total_cons in *; lia|exact Hinner|exact Htail|exact Hend].
  intros z Hz. apply Hcost. right. exact Hz.
Qed.

Lemma skip_ws_line (inner s : string) :
all_ws inner = true → skip_ws (line_break +:+ inner +:+ s) = skip_ws s.
Proof.
intros Hinner. rewrite (skip_ws_ws line_break) by reflexivity.
apply skip_ws_ws. exact Hinner.
Qed.

Lemma read_members_written (props : list (string * json)) :
∀ inner tail rest fuel,
  props ≠ [] →
  (∀ kv, kv ∈ props → (cost (snd kv) ≤ n)%nat) →
  (total (λ kv, cost (snd kv)) props ≤ fuel)%nat →
  all_ws inner = true →
  skip_ws tail = String "}" rest → ends_number tail →
  read_members fuel (line_break +:+ join_lines (map (written_member inner) props) +:+ tail)
  = Some (props, rest).
Proof.
induction props as [|[key x] kvs IHl];
  intros inner tail rest fuel Hne Hcost Hfuel Hinner Htail Hend; [contradiction|].
rewrite total_cons in Hfuel. cbn [snd] in Hfuel. destruct fuel as [|k]; [lia|].
assert (cost x ≤ n)%nat as Hx by (apply (Hcost (key, x)); left).
destruct kvs as [|kv' kvs'].
- cbn [map join_lines]. unfold written_member, write_string. cbn [fst snd]. flatten.
  cbn [read_members]. rewrite skip_ws_line by exact Hinner.
  rewrite skip_ws_head by reflexivity.
  change (Ascii.eqb dquote dquote) with true. cbn match.
  rewrite read_string_write_chars.
  rewrite skip_ws_head by reflexivity.
  change (Ascii.eqb ":" ":") with true. cbn match.
  rewrite read_value_skip_space.
  rewrite IH by (try assumption; lia).
  rewrite Htail. reflexivity.
- change (join_lines (map (written_member inner) ((key, x) :: kv' :: kvs')))
    with (written_member inner (key, x) +:+ "," +:+ line_break
          +:+ join_lines (map (written_member inner) (kv' :: kvs'))).
  unfold written_member at 1, write_string. cbn [fst snd]. flatten.
  cbn [read_members]. rewrite skip_ws_line by exact Hinner.
  rewrite skip_ws_head by reflexivity.
  change (Ascii.eqb dquote dquote) with true. cbn match.
  rewrite read_string_write_chars.
  rewrite skip_ws_head by reflexivity.
  change (Ascii.eqb ":" ":") with true. cbn match.
  rewrite read_value_skip_space.
  rewrite IH; [|exact Hx|lia|exact Hinner|reflexivity].
  rewrite skip_ws_head by reflexivity.
  change (Ascii.eqb "," ",") with true. cbn match.
  rewrite (IHl inner tail rest k);
    [reflexivity|discriminate| |rewrite total_cons in *; lia|exact Hinner|exact Htail|exact Hend].
  intros z Hz. apply Hcost. right. exact Hz.
Qed.

End Values.

Lemma total_elem {A} (f : A → nat) (x : A) (l : list A) : x ∈ l → (f x < total f l)%nat.
Proof.
induction l as [|y l IH]; intros Hx; [inversion Hx|].
rewrite total_cons. apply elem_of_cons in Hx as [->|Hx]; [lia|].
specialize (IH Hx). lia.
Qed.

Lemma cost_pos (v : json) : (1 ≤ cost v)%nat.
Proof. destruct v; cbn; lia. Qed.

Lemma join_lines_head (a : string) (l : list string) : ∃ t, join_lines (a :: l) = a +:+ t.
Proof.
destruct l as [|b l].
- exists EmptyString. cbn. rewrite append_nil_r. reflexivity.
- eexists. reflexivity.
Qed.

Lemma read_value_string (k : nat) (X : string) :
read_value (S k) (String dquote X) = tagged JStr (read_string X).
Proof. reflexivity. Qed.

Lemma read_value_open_array (k : nat) (R : string) (c : ascii) (r : string) :
skip_ws R = String c r → Ascii.eqb c "]" = false →
read_value (S k) (String "[" R) = tagged JArr (read_items k R).
Proof.
intros HR Hc.
transitivity (match skip_ws R with
              | String c' r' =>
                  if Ascii.eqb c' "]" then Some (JArr [], r')
                  else tagged JArr (read_items k R)
              | EmptyString => None
              end); [reflexivity|].
rewrite HR, Hc. reflexivity.
Qed.

Lemma read_value_open_object (k : nat) (R : string) (c : ascii) (r : string) :
skip_ws R = String c r → Ascii.eqb c "}" = false →
read_value (S k) (String "{" R) = tagged JObj (read_members k R).
Proof.
intros HR Hc.
transitivity (match skip_ws R with
              | String c' r' =>
                  if Ascii.eqb c' "}" then Some (JObj [], r')
                  else tagged JObj (read_members k R)
              | EmptyString => None
              end); [reflexivity|].
rewrite HR, Hc. reflexivity.
Qed.

(** Reading what was written gives the value back, with any fuel that
  covers the cost of the value. *)
Lemma read_written (n : nat) :
∀ v indent rest fuel,
  (cost v ≤ n)%nat → (cost v ≤ fuel)%nat → all_ws indent = true → ends_number rest →
  read_value fuel (write_value indent v +:+ rest) = Some (v, rest).
Proof.
induction n as [|n IH]; intros v indent rest fuel Hn Hfuel Hindent Hrest.
{ pose proof (cost_pos v). lia. }
destruct fuel as [|k]; [pose proof (cost_pos v); lia|].
assert (all_ws (indent +:+ "  ") = true) as Hinner by (apply all_ws_append; auto).
destruct v as [|b|z|s|items|props].
- reflexivity.
- destruct b; reflexivity.
- change (write_value indent (JNum z)) with (pretty z).
  destruct (pretty_Z_head z) as (c & r & Heq & Hc).
  rewrite Heq, append_cons, read_value_number by exact Hc.
  rewrite <- append_cons, <- Heq, read_number_pretty by exact Hrest. reflexivity.
- change (write_value indent (JStr s)) with (write_string s). unfold write_string. flatten.
  rewrite read_value_string, read_string_write_chars. reflexivity.
- destruct items as [|x xs]; [reflexivity|].
  cbn [cost] in Hn, Hfuel.
  rewrite write_value_array. set (inner := indent +:+ "  ") in *. flatten.
  destruct (join_lines_head (written inner x) (map (written inner) xs)) as (t & Ht).
  destruct (write_value_head inner x) as (c & r & Hhead & Hws & Hclose & _).
  rewrite (read_value_open_array k _ c (r +:+ t +:+ line_break +:+ indent +:+ String "]" rest)).
  + rewrite (read_items_written n IH (x :: xs) inner
               (line_break +:+ indent +:+ String "]" rest) rest k);
      [reflexivity|discriminate| |lia|exact Hinner| |reflexivity].
    * intros y Hy. pose proof (total_elem cost y _ Hy). lia.
    * rewrite (skip_ws_ws line_break) by reflexivity.
      rewrite skip_ws_ws by exact Hindent. apply skip_ws_head. reflexivity.
  + change (map (written inner) (x :: xs)) with (written inner x :: map (written inner) xs).
    rewrite Ht. unfold written. flatten.
    rewrite skip_ws_line by exact Hinner.
    rewrite Hhead, append_cons. apply skip_ws_head. exact Hws.
  + exact Hclose.
- destruct props as [|kv kvs]; [reflexivity|].
  cbn [cost] in Hn, Hfuel.
  rewrite write_value_object. set (inner := indent +:+ "  ") in *. flatten.
  destruct (join_lines_head (written_member inner kv) (map (written_member inner) kvs))
    as (t & Ht).
  rewrite (read_value_open_object k _ dquote
             (write_chars (fst kv) +:+ String dquote (String ":" (String " "
                (write_value inner (snd kv) +:+ t +:+ line_break +:+ indent
                 +:+ String "}" rest))))).
  + rewrite (read_members_written n IH (kv :: kvs) inner
               (line_break +:+ indent +:+ String "}" rest) rest k);
      [reflexivity|discriminate| |lia|exact Hinner| |reflexivity].
    * intros y Hy. pose proof (total_elem (λ kv, cost (snd kv)) y _ Hy) as Hlt.
      cbn beta in Hlt. lia.
    * rewrite (skip_ws_ws line_break) by reflexivity.
      rewrite skip_ws_ws by exact Hindent. apply skip_ws_head. reflexivity.
  + change (map (written_member inner) (kv :: kvs))
      with (written_member inner kv :: map (written_member inner) kvs).
    rewrite Ht. unfold written_member, write_string. flatten.
    rewrite skip_ws_line by exact Hinner.
    apply skip_ws_head. reflexivity.
  + reflexivity.
Qed.

(** *** Enough fuel *)

Lemma length_join_lines (inner : string) (items : list json) :
(∀ x, x ∈ items → (cost x ≤ String.length (write_value inner x))%nat) →
(2 ≤ String.length inner)%nat →
(total cost items ≤ String.length (join_lines (map (written inner) items)))%nat.
Proof.
intros Hitems Hinner. induction items as [|x xs IHl]; [cbn; lia|].
assert (S (cost x) ≤ String.length (written inner x))%nat as Hx.
{ unfold written. rewrite length_append. specialize (Hitems x ltac:(left)). lia. }
rewrite total_cons. destruct xs as [|y ys].
- cbn [map join_lines total fold_right]. lia.
- change (join_lines (map (written inner) (x :: y :: ys)))
    with (written inner x +:+ "," +:+ line_break +:+ join_lines (map (written inner) (y :: ys))).
  rewrite !length_append.
  assert (total cost (y :: ys)
          ≤ String.length (join_lines (map (written inner) (y :: ys))))%nat as Hrest.
  { apply IHl. intros z Hz. apply Hitems. right. exact Hz. }
  lia.
Qed.

Lemma length_join_members (inner : string) (props : list (string * json)) :
(∀ kv, kv ∈ props → (cost (snd kv) ≤ String.length (write_value inner (snd kv)))%nat) →
(2 ≤ String.length inner)%nat →
(total (λ kv, cost (snd kv)) props
 ≤ String.length (join_lines (map (written_member inner) props)))%nat.
Proof.
intros Hprops Hinner. induction props as [|kv kvs IHl]; [cbn; lia|].
assert (S (cost (snd kv)) ≤ String.length (written_member inner kv))%nat as Hx.
{ unfold written_member. rewrite !length_append. specialize (Hprops kv ltac:(left)). lia. }
rewrite total_cons. destruct kvs as [|kv' kvs'].
- cbn [map join_lines total fold_right]. lia.
- change (join_lines (map (written_member inner) (kv :: kv' :: kvs')))
    with (written_member inner kv +:+ "," +:+ line_break
          +:+ join_lines (map (written_member inner) (kv' :: kvs'))).
  rewrite !length_append.
  assert (total (λ kv, cost (snd kv)) (kv' :: kvs')
          ≤ String.length (join_lines (map (written_member inner) (kv' :: kvs'))))%nat as Hrest.
  { apply IHl. intros z Hz. apply Hprops. right. exact Hz. }
  lia.
Qed.

Lemma cost_le_length (n : nat) :
∀ v indent, (cost v ≤ n)%nat → (cost v ≤ String.length (write_value indent v))%nat.
Proof.
induction n as [|n IH]; intros v indent Hn; [pose proof (cost_pos v); lia|].
destruct v as [|b|z|s|items|props].
- cbn. lia.
- destruct b; cbn; lia.
- change (write_value indent (JNum z)) with (pretty z).
  destruct (pretty_Z_head z) as (c & r & -> & _). cbn. lia.
- cbn. lia.
- destruct items as [|x xs]; [cbn; lia|].
  rewrite write_value_array, !length_append. unfold line_break.
  cbn [cost String.length] in *.
  pose proof (length_join_lines (indent +:+ "  ") (x :: xs)) as Hlen.
  rewrite length_append in Hlen. cbn [String.length] in Hlen.
  assert (total cost (x :: xs)
          ≤ String.length (join_lines (map (written (indent +:+ "  ")) (x :: xs))))%nat.
  { apply Hlen; [|lia]. intros y Hy. apply IH.
    pose proof (total_elem cost y _ Hy). lia. }
  lia.
- destruct props as [|kv kvs]; [cbn; lia|].
  rewrite write_value_object, !length_append. unfold line_break.
  cbn [cost String.length] in *.
  pose proof (length_join_members (indent +:+ "  ") (kv :: kvs)) as Hlen.
  rewrite length_append in Hlen. cbn [String.length] in Hlen.
  assert (total (λ kv, cost (snd kv)) (kv :: kvs)
          ≤ String.length (join_lines (map (written_member (indent +:+ "  ")) (kv :: kvs))))%nat.
  { apply Hlen; [|lia]. intros y Hy. apply IH.
    pose proof (total_elem (λ kv, cost (snd kv)) y _ Hy) as Hlt. cbn beta in Hlt. lia. }
  lia.
Qed.

(** [JSON.parse(JSON.stringify(v, null, 2))] is [v]. *)
Theorem parse_stringify (v : json) : JSON_parse (JSON_stringify v) = Some v.
Proof.
unfold JSON_parse, JSON_stringify.
pose proof (cost_le_length (cost v) v "" ltac:(lia)) as Hlen.
pose proof (read_written (cost v) v "" ""
              (2 * String.length (write_value "" v) + 2)
              ltac:(lia) ltac:(lia) eq_refl I) as Hread.
rewrite append_nil_r in Hread. rewrite Hread. reflexivity.
Qed.

End ReferenceRoundTrip.

(** ** C4: round trip of the codec *)

Section Codec.
Context {DB : Type} `{Repository DB}.
Variable JSON_parse : string → option json.
Variable JSON_stringify : json → string.

(** The round trip on any platform whose [JSON.parse] reads back what its
    [JSON.stringify] wrote for the backup object. *)
Lemma roundtrip_on_platform (now : string) (w : World DB) :
  let folders := st_folders (app w) in
  let files := st_files (app w) in
  JSON_parse (JSON_stringify (backup_literal now folders files))
    = Some (backup_literal now folders files) →
  ∃ backup,
    JSONAdapter_deserialize JSON_parse (JSONAdapter_serialize JSON_stringify now folders files)
      = Ok backup
    ∧ as_backup backup = Some (mkBackupData (Some (JNum 1)) (Some (JStr now)) folders files)
    ∧ exportBackup JSON_stringify now w
      = (Ok (JSONAdapter_serialize JSON_stringify now folders files), w).
Proof.
  intros folders files Hrt. exists (backup_literal now folders files).
  split; [|split].
  - unfold JSONAdapter_deserialize, JSONAdapter_serialize, parse. rewrite Hrt.
    rewrite check_backup_literal. reflexivity.
  - apply as_backup_literal.
  - reflexivity.
Qed.

(** ** C5: the version field *)

(** C5 (as the code has it).  [deserialize] never looks at the version:
    a document whose version exceeds 1 is returned as parsed whenever its
    [folders] and [files] are truthy. *)
Theorem deserialize_ignores_version (data : string) (backup : json) (v : Z)
    (bfolders bfiles : jsval) :
  JSON_parse data = Some backup →
  get_prop "version" backup = Ok (Some (JNum v)) →
  1 < v →
  get_prop "folders" backup = Ok bfolders → truthy bfolders = true →
  get_prop "files" backup = Ok bfiles → truthy bfiles = true →
  JSONAdapter_deserialize JSON_parse data = Ok backup.
Proof.
  intros Hp _ _ Hf Htf Hd Htd.
  unfold JSONAdapter_deserialize, parse, check_backup.
  rewrite Hp, Hf, Htf, Hd, Htd. reflexivity.
Qed.

(** ** C6: the format check *)

Ltac settle :=
  repeat match goal with
         | |- _ ∧ _ => split
         | |- _ ↔ _ => split
         | |- _ → _ => intro
         | H : _ ∧ _ |- _ => destruct H
         | H : _ ∨ _ |- _ => destruct H
         | H : ∃ _, _ |- _ => destruct H
         end;
  try congruence; auto.

(** C6 (as the code has it).  Unparseable text fails with the parser's
    SyntaxError and the document [null] with a TypeError.  For every other
    document the error [Invalid backup format] is raised exactly when
    [folders] or [files] is falsy (absent, null, false, 0 or the empty
    string), and the document is returned exactly when both are truthy; in
    particular when both are arrays. *)
Theorem deserialize_format_check (data : string) (parsed : option json) :
  JSON_parse data = parsed →
  match parsed with
  | None => JSONAdapter_deserialize JSON_parse data = Throw SyntaxError
  | Some JNull => JSONAdapter_deserialize JSON_parse data = Throw TypeError
  | Some v =>
      ∃ bfolders bfiles,
        get_prop "folders" v = Ok bfolders ∧ get_prop "files" v = Ok bfiles
        ∧ (JSONAdapter_deserialize JSON_parse data = Throw (Error "Invalid backup format")
           ↔ truthy bfolders = false ∨ truthy bfiles = false)
        ∧ (JSONAdapter_deserialize JSON_parse data = Ok v
           ↔ truthy bfolders = true ∧ truthy bfiles = true)
        ∧ (is_array bfolders → is_array bfiles →
           JSONAdapter_deserialize JSON_parse data = Ok v)
  end.
Proof.
  intros Hp. rewrite JSONAdapter_deserialize_cases, Hp.
  destruct parsed as [v|]; [|reflexivity].
  destruct v as [|b|n|s|items|props]; try reflexivity.
  1-4: exists None, None; cbn; unfold is_array; settle.
  exists (own_prop "folders" props), (own_prop "files" props). cbn.
  destruct (truthy (own_prop "folders" props)) eqn:Ef;
    destruct (truthy (own_prop "files" props)) eqn:Ed; cbn.
  all: unfold is_array; settle.
  all: repeat match goal with
              | E : own_prop _ _ = Some _ |- _ => rewrite E in *; clear E
              end; discriminate.
Qed.

End Codec.

(** C4.  Decoding what was encoded gives the workspace back: for every list
    of folder records and of file records held by the application,
    [deserialize (serialize folders files)] succeeds, and the typed reading of
    its result has exactly these folders and files, in the same order, with
    version 1 and the export time as the only additions.  [exportBackup]
    produces that same text and leaves the application state and the call
    log as they were.  The text is written and read by the reference
    [JSON.stringify] and [JSON.parse]. *)
Theorem decode_encode_roundtrip {DB : Type} `{Repository DB} (now : string) (w : World DB) :
  let folders := st_folders (app w) in
  let files := st_files (app w) in
  ∃ backup,
    JSONAdapter_deserialize Reference.JSON_parse
      (JSONAdapter_serialize Reference.JSON_stringify now folders files) = Ok backup
    ∧ as_backup backup = Some (mkBackupData (Some (JNum 1)) (Some (JStr now)) folders files)
    ∧ get_prop "version" backup = Ok (Some (JNum 1))
    ∧ exportBackup Reference.JSON_stringify now w
      = (Ok (JSONAdapter_serialize Reference.JSON_stringify now folders files), w).
Proof.
  intros folders files.
  destruct (roundtrip_on_platform Reference.JSON_parse Reference.JSON_stringify now w)
    as (backup & Hdecode & Htyped & Hexport).
  { apply parse_stringify. }
  exists backup. split; [exact Hdecode|]. split; [exact Htyped|]. split; [|exact Hexport].
  unfold JSONAdapter_deserialize, JSONAdapter_serialize, parse in Hdecode.
  fold folders files in Hdecode.
  rewrite parse_stringify, check_backup_literal in Hdecode.
  inversion Hdecode. reflexivity.
Qed.

(** The document of the unsupported-version test is decoded. *)
Lemma version_999_is_decoded :
  JSONAdapter_deserialize Reference.JSON_parse Examples.version_999
  = Ok (JObj [("version", JNum 999); ("folders", JArr []); ("files", JArr [])]).
Proof. vm_compute. reflexivity. Qed.

(** A number and a string in place of the two sequences are accepted. *)
Lemma not_sequences_is_decoded :
  JSONAdapter_deserialize Reference.JSON_parse Examples.not_sequences
  = Ok (JObj [("version", JNum 1); ("folders", JNum 5); ("files", JStr "x")]).
Proof. vm_compute. reflexivity. Qed.

Lemma deserialize_ignores_version_example :
  JSONAdapter_deserialize Reference.JSON_parse Examples.version_999
  = Ok (JObj [("version", JNum 999); ("folders", JArr []); ("files", JArr [])]).
Proof.
  apply (deserialize_ignores_version Reference.JSON_parse Examples.version_999 _ 999
           (Some (JArr [])) (Some (JArr []))).
  - vm_compute. reflexivity.
  - reflexivity.
  - lia.
  - reflexivity.
  - reflexivity.
  - reflexivity.
  - reflexivity.
Defined.

Lemma deserialize_format_check_example :
  ∃ bfolders bfiles,
    bfolders = Some (JArr []) ∧ bfiles = Some (JArr [])
    ∧ JSONAdapter_deserialize Reference.JSON_parse Examples.version_999
      = Ok (JObj [("version", JNum 999); ("folders", JArr []); ("files", JArr [])]).
Proof.
  pose proof (deserialize_format_check Reference.JSON_parse Examples.version_999
                (Some (JObj [("version", JNum 999); ("folders", JArr []); ("files", JArr [])])))
    as Hcheck.
  destruct Hcheck as (bfolders & bfiles & Hf & Hd & _ & _ & Harr).
  - vm_compute. reflexivity.
  - exists bfolders, bfiles. cbn in Hf, Hd.
    assert (bfolders = Some (JArr [])) as -> by congruence.
    assert (bfiles = Some (JArr [])) as -> by congruence.
    split; [reflexivity|]. split; [reflexivity|].
    apply Harr; eexists; reflexivity.
Defined.

(** ** Runs: how the log grows *)

Section Runs.
Context {DB : Type} `{Repository DB}.

Lemma bind_inv {A B} (m : M DB A) (k : A → M DB B) w r w' :
  bind m k w = (r, w') →
  (∃ e, m w = (Throw e, w') ∧ r = Throw e)
  ∨ (∃ a w1, m w = (Ok a, w1) ∧ k a w1 = (r, w')).
Proof.
  unfold bind. destruct (m w) as [[a|e] w1]; intros Hk.
  - right. eauto.
  - left. inversion Hk; subst. eauto.
Qed.

Lemma bind_ok {A B} (m : M DB A) (k : A → M DB B) w a w1 :
  m w = (Ok a, w1) → bind m k w = k a w1.
Proof. unfold bind. intros ->. reflexivity. Qed.

Lemma bind_throw {A B} (m : M DB A) (k : A → M DB B) w e w1 :
  m w = (Throw e, w1) → bind m k w = (Throw e, w1).
Proof. unfold bind. intros ->. reflexivity. Qed.

Lemma for_of_app {A} (xs ys : list A) (body : A → M DB unit) w :
  for_of (xs ++ ys) body w = (for_of xs body ;;; for_of ys body) w.
Proof.
  revert w. induction xs as [|x xs IH]; intros w; [reflexivity|].
  simpl. unfold bind. destruct (body x w) as [[[]|e] w1]; [|reflexivity].
  rewrite IH. reflexivity.
Qed.

(** *** Phases *)

Lemma spans_nil lo hi : spans lo hi [].
Proof. split; constructor. Qed.

Lemma spans_one lo hi c : (lo ≤ phase c ≤ hi)%nat → spans lo hi [c].
Proof.
  intros Hc. split.
  - repeat constructor.
  - constructor; [exact Hc|constructor].
Qed.

Lemma spans_app lo mid hi l1 l2 :
  (lo ≤ mid ≤ hi)%nat → spans lo mid l1 → spans mid hi l2 → spans lo hi (l1 ++ l2).
Proof.
  intros Hm [S1 W1] [S2 W2]. unfold spans, in_order, within in *. split.
  - apply StronglySorted_app_2; [|assumption..].
    intros a b Ha Hb. rewrite Forall_forall in W1, W2.
    specialize (W1 a Ha). specialize (W2 b Hb). lia.
  - apply Forall_app. split; eapply Forall_impl; eauto; cbn; intros; lia.
Qed.

Lemma spans_weaken lo hi lo' hi' l :
  (lo' ≤ lo)%nat → (hi ≤ hi')%nat → spans lo hi l → spans lo' hi' l.
Proof.
  intros ? ? [S W]. split; [exact S|].
  eapply Forall_impl; [exact W|]. cbn. intros. lia.
Qed.

Lemma emits_silent {A} lo hi (m : M DB A) :
  (∀ w, ∃ r, m w = (r, w)) → emits (spans lo hi) m.
Proof.
  intros Hm w r w' Hrun. destruct (Hm w) as [r0 Hr0]. rewrite Hr0 in Hrun.
  inversion Hrun; subst. exists []. rewrite app_nil_r. auto using spans_nil.
Qed.

Lemma emits_ret {A} lo hi (a : A) : emits (spans lo hi) (ret (DB := DB) a).
Proof. apply emits_silent. intros w. eexists. reflexivity. Qed.

Lemma emits_read {A} lo hi (proj : AppState DB → A) : emits (spans lo hi) (read proj).
Proof. apply emits_silent. intros w. eexists. reflexivity. Qed.

Lemma emits_assign lo hi (upd : AppState DB → AppState DB) : emits (spans lo hi) (assign upd).
Proof.
  intros w r w' Hrun. inversion Hrun; subst. exists []. cbn.
  rewrite app_nil_r. auto using spans_nil.
Qed.

Lemma emits_await {A} lo hi c (f : AppState DB → outcome A * AppState DB) :
  (lo ≤ phase c ≤ hi)%nat → emits (spans lo hi) (await c f).
Proof.
  intros Hc w r w' Hrun. unfold await in Hrun.
  destruct (f (app w)) as [r0 s]. inversion Hrun; subst. cbn.
  exists [c]. auto using spans_one.
Qed.

Lemma emits_bind {A B} lo mid hi (m : M DB A) (k : A → M DB B) :
  (lo ≤ mid ≤ hi)%nat →
  emits (spans lo mid) m → (∀ a, emits (spans mid hi) (k a)) →
  emits (spans lo hi) (bind m k).
Proof.
  intros Hm Em Ek w r w' Hrun.
  destruct (bind_inv _ _ _ _ _ Hrun) as [(e & Hthrow & ->)|(a & w1 & Hok & Hk)].
  - destruct (Em _ _ _ Hthrow) as (l & Hl & Sl). exists l. split; [exact Hl|].
    eapply spans_weaken; [| |exact Sl]; lia.
  - destruct (Em _ _ _ Hok) as (l1 & Hl1 & S1).
    destruct (Ek a _ _ _ Hk) as (l2 & Hl2 & S2).
    exists (l1 ++ l2). rewrite Hl2, Hl1, app_assoc. split; [reflexivity|].
    eapply spans_app; eauto.
Qed.

Lemma emits_weaken {A} lo hi lo' hi' (m : M DB A) :
  (lo' ≤ lo)%nat → (hi ≤ hi')%nat → emits (spans lo hi) m → emits (spans lo' hi') m.
Proof.
  intros ? ? Em w r w' Hrun. destruct (Em _ _ _ Hrun) as (l & Hl & Sl).
  exists l. split; [exact Hl|]. eapply spans_weaken; eauto.
Qed.

Lemma emits_for_of {A} p (xs : list A) (body : A → M DB unit) :
  (∀ x, emits (spans p p) (body x)) → emits (spans p p) (for_of xs body).
Proof.
  intros Hbody. induction xs as [|x xs IH]; cbn.
  - apply emits_ret.
  - apply (emits_bind p p p); [lia|apply Hbody|]. intros _. exact IH.
Qed.

Lemma emits_for_of_acc {A S} p (xs : list A) (acc : S) (body : S → A → M DB S) :
  (∀ s x, emits (spans p p) (body s x)) → emits (spans p p) (for_of_acc xs acc body).
Proof.
  intros Hbody. revert acc. induction xs as [|x xs IH]; intros acc; cbn.
  - apply emits_ret.
  - apply (emits_bind p p p); [lia|apply Hbody|]. intros acc'. apply IH.
Qed.

Lemma emits_if_id p (i : option Z) (f : Z → M DB unit) :
  (∀ n, emits (spans p p) (f n)) → emits (spans p p) (if_id i f).
Proof.
  intros Hf. unfold if_id. destruct i as [n|]; [|apply emits_ret].
  destruct (truthy_id (Some n)); [apply Hf|apply emits_ret].
Qed.

Lemma emits_deleteFiles files : emits (spans 0 0) (deleteFiles files).
Proof.
  apply emits_for_of. intros file. apply emits_if_id. intros n.
  apply emits_await. cbn. lia.
Qed.

Lemma emits_deleteFolders folders : emits (spans 1 1) (deleteFolders folders).
Proof.
  apply emits_for_of. intros folder. apply emits_if_id. intros n.
  apply emits_await. cbn. lia.
Qed.

Lemma emits_clearExistingData : emits (spans 0 1) clearExistingData.
Proof.
  unfold clearExistingData.
  apply (emits_bind 0 0 1); [lia| |intros _].
  - apply (emits_bind 0 0 0); [lia|apply emits_read|]. intros files.
    apply emits_deleteFiles.
  - apply (emits_weaken 1 1); [lia..|].
    apply (emits_bind 1 1 1); [lia|apply emits_read|]. intros folders.
    apply emits_deleteFolders.
Qed.

Lemma emits_importFolders sortedFolders : emits (spans 2 2) (importFolders sortedFolders).
Proof.
  apply emits_for_of_acc. intros m folder. unfold importFolder.
  apply (emits_bind 2 2 2); [lia|apply emits_await; cbn; lia|]. intros newId.
  apply (emits_bind 2 2 2); [lia| |intros _; apply emits_ret].
  destruct (isOpen folder); [apply emits_ret|apply emits_await; cbn; lia].
Qed.

Lemma emits_importFiles files m : emits (spans 3 3) (importFiles files m).
Proof.
  apply emits_for_of. intros file. unfold importFile.
  apply (emits_bind 3 3 3); [lia|apply emits_await; cbn; lia|]. intros _.
  apply emits_ret.
Qed.

Lemma emits_refreshAndSelect : emits (spans 4 5) refreshAndSelect.
Proof.
  unfold refreshAndSelect.
  apply (emits_bind 4 4 5); [lia|apply emits_await; cbn; lia|]. intros _.
  apply (emits_bind 4 4 5); [lia|apply emits_assign|]. intros _.
  apply (emits_bind 4 4 5); [lia|apply emits_read|]. intros files.
  destruct files as [|first rest]; [apply emits_ret|].
  apply emits_await. cbn. lia.
Qed.

(** *** The calls of a completed loop *)

Lemma wipe_loop_ok {A} (proj : A → option Z) (c : Z → Call)
    (f : Z → AppState DB → outcome unit * AppState DB) (xs : list A) w w' :
  for_of xs (λ x, if_id (proj x) (λ i, await (c i) (f i))) w = (Ok tt, w') →
  calls w' = calls w ++ (c <$> deleted_ids proj xs).
Proof.
  revert w. induction xs as [|x xs IH]; intros w Hrun.
  - inversion Hrun; subst. cbn. rewrite app_nil_r. reflexivity.
  - simpl in Hrun.
    destruct (bind_inv _ _ _ _ _ Hrun) as [(e & _ & He)|([] & w1 & Hx & Hrest)];
      [discriminate|].
    apply IH in Hrest. rewrite Hrest. unfold deleted_ids. cbn.
    unfold if_id, truthy_id in Hx. unfold truthy_id.
    destruct (proj x) as [n|]; cbn.
    + destruct (negb (n =? 0)); cbn.
      * unfold await in Hx. destruct (f n (app w)) as [r0 s0].
        inversion Hx; subst. cbn. rewrite <- app_assoc. reflexivity.
      * inversion Hx; subst. reflexivity.
    + inversion Hx; subst. reflexivity.
Qed.

(** A loop of step 1 stops at the first call that fails. *)
Lemma wipe_loop_abort {A} (proj : A → option Z) (c : Z → Call)
    (f : Z → AppState DB → outcome unit * AppState DB)
    (pre : list A) (x : A) (post : list A) i e w w1 s2 :
  for_of pre (λ x, if_id (proj x) (λ i, await (c i) (f i))) w = (Ok tt, w1) →
  proj x = Some i → i ≠ 0 →
  f i (app w1) = (Throw e, s2) →
  for_of (pre ++ x :: post) (λ x, if_id (proj x) (λ i, await (c i) (f i))) w
  = (Throw e, mkWorld s2 (calls w1 ++ [c i])).
Proof.
  intros Hpre Hx Hi Hf. rewrite for_of_app. rewrite (bind_ok _ _ _ _ _ Hpre).
  simpl. apply bind_throw. unfold if_id. rewrite Hx. cbn.
  destruct (Z.eqb_spec i 0) as [->|_]; [contradiction|]. cbn.
  unfold await. rewrite Hf. reflexivity.
Qed.

Lemma deleteFiles_ok files w w' :
  deleteFiles files w = (Ok tt, w') →
  calls w' = calls w ++ (CallDeleteFile <$> deleted_ids file_id files).
Proof. apply wipe_loop_ok. Qed.

Lemma deleteFolders_ok folders w w' :
  deleteFolders folders w = (Ok tt, w') →
  calls w' = calls w ++ (CallDeleteFolder <$> deleted_ids folder_id folders).
Proof. apply wipe_loop_ok. Qed.

Lemma clearExistingData_ok w w1 :
  clearExistingData w = (Ok tt, w1) →
  ∃ w0, deleteFiles (st_files (app w)) w = (Ok tt, w0)
      ∧ deleteFolders (st_folders (app w0)) w0 = (Ok tt, w1)
      ∧ calls w1 = calls w ++ (CallDeleteFile <$> deleted_ids file_id (st_files (app w)))
                           ++ (CallDeleteFolder <$> deleted_ids folder_id (st_folders (app w0))).
Proof.
  intros Hrun. unfold clearExistingData in Hrun.
  destruct (bind_inv _ _ _ _ _ Hrun) as [(e & _ & He)|([] & w0 & Hfiles & Hfolders)];
    [discriminate|].
  change (deleteFiles (st_files (app w)) w = (Ok tt, w0)) in Hfiles.
  change (deleteFolders (st_folders (app w0)) w0 = (Ok tt, w1)) in Hfolders.
  exists w0. split; [exact Hfiles|]. split; [exact Hfolders|].
  rewrite (deleteFolders_ok _ _ _ Hfolders), (deleteFiles_ok _ _ _ Hfiles).
  rewrite <- app_assoc. reflexivity.
Qed.

Lemma importFiles_ok files m w w' :
  importFiles files m w = (Ok tt, w') →
  calls w' = calls w ++ (file_call m <$> files).
Proof.
  revert w. induction files as [|x xs IH]; intros w Hrun.
  - inversion Hrun; subst. cbn. rewrite app_nil_r. reflexivity.
  - unfold importFiles in Hrun. simpl in Hrun.
    destruct (bind_inv _ _ _ _ _ Hrun) as [(e & _ & He)|([] & w1 & Hx & Hrest)];
      [discriminate|].
    apply IH in Hrest. rewrite Hrest. cbn.
    unfold importFile, bind, await in Hx.
    destruct (createFile _ _ _ (app w)) as [[newId|e] s0]; [|discriminate].
    inversion Hx; subst. cbn. rewrite <- app_assoc. reflexivity.
Qed.

(** *** The steps of a run *)

Section Steps.
Variable JSON_parse : string → option json.
Variable sortFolders : list Folder → list Folder.

Lemma emits_after_folders data m : emits (spans 3 5) (after_folders data m).
Proof.
  apply (emits_bind 3 3 5); [lia|apply emits_importFiles|]. intros _.
  apply (emits_weaken 4 5); [lia..|]. apply emits_refreshAndSelect.
Qed.

Lemma emits_after_wipe data : emits (spans 2 5) (after_wipe sortFolders data).
Proof.
  apply (emits_bind 2 2 5); [lia|apply emits_importFolders|]. intros m.
  apply (emits_weaken 3 5); [lia..|]. apply emits_after_folders.
Qed.

Lemma emits_replay data : emits (spans 0 5) (replay sortFolders data).
Proof.
  apply (emits_bind 0 1 5); [lia|apply emits_clearExistingData|]. intros _.
  apply (emits_weaken 2 5); [lia..|]. apply emits_after_wipe.
Qed.

(** A run of [importBackup] either stops before its first call, or is a
    run of the four steps on the typed reading of the document. *)
Lemma importBackup_inv jsonString w r w' :
  importBackup JSON_parse sortFolders jsonString w = (r, w') →
  (w' = w ∧ ∃ e, r = Throw e)
  ∨ (∃ v data, JSON_parse jsonString = Some v ∧ as_backup v = Some data
               ∧ replay sortFolders data w = (r, w')).
Proof.
  unfold importBackup, parse, lift. intros Hrun.
  unfold bind at 1 in Hrun.
  destruct (JSON_parse jsonString) as [v|]; [|inversion Hrun; eauto].
  unfold bind at 1 in Hrun.
  destruct (check_backup _ v); [|inversion Hrun; eauto].
  destruct (as_backup v) as [data|] eqn:Hdata; [|inversion Hrun; eauto].
  right. eauto.
Qed.

Lemma importBackup_typed jsonString v data w :
  JSON_parse jsonString = Some v → as_backup v = Some data →
  importBackup JSON_parse sortFolders jsonString w = replay sortFolders data w.
Proof.
  intros Hp Hdata. unfold importBackup, parse, lift. rewrite Hp. unfold bind at 1.
  unfold bind at 1. rewrite (check_backup_typed _ _ _ Hdata), Hdata. reflexivity.
Qed.

Lemma emits_importBackup jsonString :
  emits (spans 0 5) (importBackup JSON_parse sortFolders jsonString).
Proof.
  intros w r w' Hrun.
  destruct (importBackup_inv _ _ _ _ Hrun) as [[-> _]|(v & data & _ & _ & Hreplay)].
  - exists []. rewrite app_nil_r. auto using spans_nil.
  - exact (emits_replay data _ _ _ Hreplay).
Qed.

End Steps.

End Runs.

(** ** [importBackup] over any repository *)

Section Importing.
Context {DB : Type} `{Repository DB}.
Variable JSON_parse : string → option json.
Variable sortFolders : list Folder → list Folder.

Lemma within_no_later lo hi p l :
  (hi < p)%nat → within lo hi l → ¬ Exists (λ c, (p ≤ phase c)%nat) l.
Proof.
  intros Hp Hw Hex. apply Exists_exists in Hex as (c & Hc & Hge).
  unfold within in Hw. rewrite Forall_forall in Hw. specialize (Hw c Hc). lia.
Qed.

(** ** C9: the order of the calls *)

(** C9.  In every run of [importBackup], failed or not, the calls appear
    in the order of the steps: every [deleteFile] before any
    [deleteFolder], every deletion before any [createFolder] or
    [toggleFolderOpen], every one of these before any [createFile].
    Moreover, when the log holds a call of the folder replay or later,
    both loops of the wipe have run to their end, and the log starts with
    one [deleteFile] per cached file and one [deleteFolder] per cached
    folder; when it holds a [createFile] or a later call, the folder replay
    has run to its end. *)
Theorem importBackup_call_order (jsonString : string) (w : World DB)
    (r : outcome unit) (w' : World DB) :
  importBackup JSON_parse sortFolders jsonString w = (r, w') →
  ∃ l, calls w' = calls w ++ l
    ∧ in_order l
    ∧ (Exists (λ c, (2 ≤ phase c)%nat) l →
       ∃ w0 w1 l',
         deleteFiles (st_files (app w)) w = (Ok tt, w0)
         ∧ deleteFolders (st_folders (app w0)) w0 = (Ok tt, w1)
         ∧ l = (CallDeleteFile <$> deleted_ids file_id (st_files (app w)))
               ++ (CallDeleteFolder <$> deleted_ids folder_id (st_folders (app w0)))
               ++ l'
         ∧ within 2 5 l')
    ∧ (Exists (λ c, (3 ≤ phase c)%nat) l →
       ∃ data w1 folderIdMap w2 l'',
         clearExistingData w = (Ok tt, w1)
         ∧ importFolders (sortFolders (folders data)) w1 = (Ok folderIdMap, w2)
         ∧ calls w' = calls w2 ++ l''
         ∧ within 3 5 l'').
Proof.
  intros Hrun.
  destruct (emits_importBackup JSON_parse sortFolders jsonString _ _ _ Hrun)
    as (l & Hl & [Hord _]).
  exists l. split; [exact Hl|]. split; [exact Hord|].
  destruct (importBackup_inv _ _ _ _ _ _ Hrun) as [[-> _]|(v & data & _ & _ & Hreplay)].
  { assert (l = []) as -> by (apply (app_inv_head (calls w)); rewrite app_nil_r; symmetry; exact Hl).
    split; intros Hex; inversion Hex. }
  unfold replay in Hreplay.
  destruct (bind_inv _ _ _ _ _ Hreplay) as [(e & Hclear & ->)|([] & w1 & Hclear & Hrest)].
  { destruct (emits_clearExistingData _ _ _ Hclear) as (l1 & Hl1 & [_ Hw1]).
    assert (l = l1) as -> by (apply (app_inv_head (calls w)); congruence).
    split; intros Hex; exfalso; refine (within_no_later 0 1 _ _ _ Hw1 Hex); lia. }
  destruct (clearExistingData_ok _ _ Hclear) as (w0 & Hfiles & Hfolders & Hcalls1).
  destruct (emits_after_wipe sortFolders data _ _ _ Hrest) as (l2 & Hl2 & [_ Hw2]).
  assert (l = (CallDeleteFile <$> deleted_ids file_id (st_files (app w)))
              ++ (CallDeleteFolder <$> deleted_ids folder_id (st_folders (app w0)))
              ++ l2) as Hsplit.
  { apply (app_inv_head (calls w)). rewrite <- Hl, Hl2, Hcalls1.
    rewrite <- !app_assoc. reflexivity. }
  split.
  { intros _. exists w0, w1, l2. auto. }
  intros Hex. unfold after_wipe in Hrest.
  destruct (bind_inv _ _ _ _ _ Hrest) as [(e & Hfold & ->)|(m & w2 & Hfold & Hfin)].
  { exfalso. destruct (emits_importFolders _ _ _ _ Hfold) as (l3 & Hl3 & [_ Hw3]).
    assert (l2 = l3) as -> by (apply (app_inv_head (calls w1)); congruence).
    rewrite Hsplit in Hex. rewrite !Exists_app in Hex.
    destruct Hex as [Hex|[Hex|Hex]].
    - apply Exists_exists in Hex as (c & Hc & Hge).
      apply list_elem_of_fmap in Hc as (i & -> & _). cbn in Hge. lia.
    - apply Exists_exists in Hex as (c & Hc & Hge).
      apply list_elem_of_fmap in Hc as (i & -> & _). cbn in Hge. lia.
    - refine (within_no_later 2 2 _ _ _ Hw3 Hex); lia. }
  destruct (emits_after_folders data m _ _ _ Hfin) as (l3 & Hl3 & [_ Hw3]).
  exists data, w1, m, w2, l3. auto.
Qed.

(** ** C7: a deletion that fails *)

(** C7 (as the code has it).  The wipe has no error handling of its own:
    the first [deleteFile] or [deleteFolder] call that fails ends
    [importBackup] with that error.  The log then ends with the failing
    call: the items after it are not deleted, and nothing is created. *)
Theorem wipe_failure_aborts (jsonString : string) (v : json) (data : BackupData)
    (w : World DB) (e : exn) :
  JSON_parse jsonString = Some v →
  as_backup v = Some data →
  (∀ pre x post i w1 s2,
     st_files (app w) = pre ++ x :: post →
     deleteFiles pre w = (Ok tt, w1) →
     file_id x = Some i → i ≠ 0 →
     deleteFile i (app w1) = (Throw e, s2) →
     importBackup JSON_parse sortFolders jsonString w
     = (Throw e,
        mkWorld s2 (calls w ++ (CallDeleteFile <$> deleted_ids file_id pre)
                            ++ [CallDeleteFile i])))
  ∧ (∀ w0 pre x post i w1 s2,
       deleteFiles (st_files (app w)) w = (Ok tt, w0) →
       st_folders (app w0) = pre ++ x :: post →
       deleteFolders pre w0 = (Ok tt, w1) →
       folder_id x = Some i → i ≠ 0 →
       deleteFolder i (app w1) = (Throw e, s2) →
       importBackup JSON_parse sortFolders jsonString w
       = (Throw e,
          mkWorld s2 (calls w ++ (CallDeleteFile <$> deleted_ids file_id (st_files (app w)))
                              ++ (CallDeleteFolder <$> deleted_ids folder_id pre)
                              ++ [CallDeleteFolder i]))).
Proof.
  intros Hp Hdata. split.
  - intros pre x post i w1 s2 Hfiles Hpre Hx Hi Hfail.
    rewrite (importBackup_typed _ _ _ _ _ _ Hp Hdata).
    unfold replay. apply bind_throw. unfold clearExistingData. apply bind_throw.
    change (deleteFiles (st_files (app w)) w
            = (Throw e, mkWorld s2 (calls w ++ (CallDeleteFile <$> deleted_ids file_id pre)
                                            ++ [CallDeleteFile i]))).
    rewrite Hfiles. unfold deleteFiles.
    rewrite (wipe_loop_abort file_id CallDeleteFile deleteFile pre x post i e w w1 s2
               Hpre Hx Hi Hfail).
    rewrite (deleteFiles_ok _ _ _ Hpre), <- app_assoc. reflexivity.
  - intros w0 pre x post i w1 s2 Hfiles Hfolders Hpre Hx Hi Hfail.
    rewrite (importBackup_typed _ _ _ _ _ _ Hp Hdata).
    unfold replay. apply bind_throw. unfold clearExistingData.
    rewrite (bind_ok _ _ w tt w0) by exact Hfiles.
    change (deleteFolders (st_folders (app w0)) w0
            = (Throw e,
               mkWorld s2 (calls w ++ (CallDeleteFile <$> deleted_ids file_id (st_files (app w)))
                                   ++ (CallDeleteFolder <$> deleted_ids folder_id pre)
                                   ++ [CallDeleteFolder i]))).
    rewrite Hfolders. unfold deleteFolders.
    rewrite (wipe_loop_abort folder_id CallDeleteFolder deleteFolder pre x post i e w0 w1 s2
               Hpre Hx Hi Hfail).
    rewrite (deleteFolders_ok _ _ _ Hpre), (deleteFiles_ok _ _ _ Hfiles), <- !app_assoc.
    reflexivity.
Qed.

(** ** C10: the last step *)

(** C10.  Once the file replay has completed, [importBackup] itself calls
    [refreshData]; when that succeeds it sets [activeFileId] to null, the
    buffer to the empty string and [dirty] to false, and then calls
    [selectFile] on the id of the first file of the refreshed list exactly
    when that list is not empty: with an empty list the run ends after
    the refresh, with nothing selected. *)
Theorem importBackup_refresh_and_select (jsonString : string) (v : json)
    (data : BackupData) (w w1 w2 w3 : World DB) (folderIdMap : gmap Z Z)
    (s4 : AppState DB) :
  JSON_parse jsonString = Some v →
  as_backup v = Some data →
  clearExistingData w = (Ok tt, w1) →
  importFolders (sortFolders (folders data)) w1 = (Ok folderIdMap, w2) →
  importFiles (files data) folderIdMap w2 = (Ok tt, w3) →
  refreshData (app w3) = (Ok tt, s4) →
  let cleared := reset_editor s4 in
  activeFileId cleared = None ∧ buffer cleared = "" ∧ dirty cleared = false
  ∧ st_files cleared = st_files s4
  ∧ importBackup JSON_parse sortFolders jsonString w
    = match st_files s4 with
      | [] => (Ok tt, mkWorld cleared (calls w3 ++ [CallRefreshData]))
      | first :: _ =>
          let '(r, s5) := selectFile (file_id first) cleared in
          (r, mkWorld s5 (calls w3 ++ [CallRefreshData; CallSelectFile (file_id first)]))
      end.
Proof.
  intros Hp Hdata Hclear Hfolders Hfiles Hrefresh cleared.
  repeat (split; [reflexivity|]).
  rewrite (importBackup_typed _ _ _ _ _ _ Hp Hdata).
  unfold replay. rewrite (bind_ok _ _ _ _ _ Hclear).
  unfold after_wipe. rewrite (bind_ok _ _ _ _ _ Hfolders).
  unfold after_folders. rewrite (bind_ok _ _ _ _ _ Hfiles).
  unfold refreshAndSelect, bind, await, assign, read. rewrite Hrefresh. cbn.
  destruct (st_files s4) as [|first rest]; [reflexivity|].
  fold cleared. cbn [app calls].
  destruct (selectFile (file_id first) cleared) as [r s5].
  rewrite <- app_assoc. reflexivity.
Qed.

(** ** The remap table and the file replay *)

Lemma importFolder_ok m f w m1 w1 :
  importFolder m f w = (Ok m1, w1) →
  ∃ newId l,
    m1 = set_entry (folder_id f) newId m
    ∧ calls w1 = calls w ++ CallCreateFolder (name f) (remap m (parentId f)) :: l
    ∧ filter (λ c, is_createFolder c) l = [].
Proof.
  unfold importFolder, bind, await, ret. intros Hrun.
  destruct (createFolder _ _ (app w)) as [[newId|e] s0]; [|inversion Hrun].
  destruct (isOpen f); simpl in Hrun.
  - inversion Hrun; subst. exists newId, []. cbn. auto.
  - destruct (toggleFolderOpen newId s0) as [[[]|e] s1]; [|inversion Hrun].
    inversion Hrun; subst. exists newId, [CallToggleFolderOpen newId].
    split; [reflexivity|]. split; [|reflexivity].
    cbn [calls]. rewrite <- app_assoc. reflexivity.
Qed.

(** Every key of the final table is the id of a replayed folder. *)
Lemma importFolders_keys l m0 w m w' :
  for_of_acc l m0 importFolder w = (Ok m, w') →
  ∀ k, is_Some (m !! k) →
       is_Some (m0 !! k) ∨ ∃ f, f ∈ l ∧ folder_id f = Some k.
Proof.
  revert m0 w. induction l as [|x l IH]; intros m0 w Hrun k Hk.
  - inversion Hrun; subst. auto.
  - simpl in Hrun.
    destruct (bind_inv _ _ _ _ _ Hrun) as [(e & _ & He)|(m1 & w1 & Hx & Hrest)];
      [discriminate|].
    destruct (importFolder_ok _ _ _ _ _ Hx) as (newId & _ & -> & _).
    destruct (IH _ _ Hrest k Hk) as [Hin|(f & Hf & Hid)].
    + unfold set_entry in Hin. destruct (folder_id x) as [kx|] eqn:Ex; [|auto].
      destruct (decide (kx = k)) as [->|Hne].
      * right. exists x. split; [left|exact Ex].
      * rewrite lookup_insert_ne in Hin by exact Hne. auto.
    + right. exists f. split; [right; exact Hf|exact Hid].
Qed.

(** The calls of the file replay, completed or not: the first [k] files
    of the backup, in its order. *)
Lemma importFiles_run files m w r w' :
  importFiles files m w = (r, w') →
  ∃ k, calls w' = calls w ++ (file_call m <$> take k files)
     ∧ (r = Ok tt → k = length files).
Proof.
  revert w. induction files as [|x xs IH]; intros w Hrun.
  - inversion Hrun; subst. exists 0%nat. cbn. rewrite app_nil_r. auto.
  - unfold importFiles in Hrun. simpl in Hrun.
    destruct (bind_inv _ _ _ _ _ Hrun) as [(e & Hx & ->)|([] & w1 & Hx & Hrest)].
    + unfold importFile, bind, await in Hx.
      destruct (createFile _ _ _ (app w)) as [[newId|e'] s0]; [discriminate|].
      inversion Hx; subst. exists 1%nat. cbn. split; [reflexivity|discriminate].
    + apply IH in Hrest as (k & Hk & Hlen).
      unfold importFile, bind, await in Hx.
      destruct (createFile _ _ _ (app w)) as [[newId|e'] s0]; [|discriminate].
      inversion Hx; subst. exists (S k). cbn. cbn in Hk. rewrite Hk, <- app_assoc.
      split; [reflexivity|]. intros Hr. rewrite (Hlen Hr). reflexivity.
Qed.

Lemma filter_outside (P : Call → bool) lo hi l :
  within lo hi l →
  (∀ c, (lo ≤ phase c ≤ hi)%nat → P c = false) →
  filter (λ c, P c) l = [].
Proof.
  intros Hw HP. induction Hw as [|c l Hc _ IH]; [reflexivity|].
  rewrite filter_cons. destruct (decide (P c)) as [Hyes|_]; [|exact IH].
  rewrite (HP c Hc) in Hyes. contradiction.
Qed.

Lemma filter_file_calls m (fs : list File) :
  filter (λ c, is_createFile c) (file_call m <$> fs) = file_call m <$> fs.
Proof.
  induction fs as [|f fs IH]; [reflexivity|].
  rewrite fmap_cons, filter_cons_True by exact I. rewrite IH. reflexivity.
Qed.

Lemma not_createFile lo hi c :
  (hi < 3 ∨ 3 < lo)%nat → (lo ≤ phase c ≤ hi)%nat → is_createFile c = false.
Proof. destruct c; cbn; intros; try reflexivity; lia. Qed.

(** ** C8: the file replay *)

(** C8.  In every run of [importBackup] on a well-formed backup, either
    the run failed before the file replay and made no [createFile] call,
    or the folder replay completed with a table [folderIdMap] and the
    [createFile] calls of the run are, in the order of [backup.files] and
    without gaps, the calls
    [createFile(folderIdMap[folderId] ?? null, title, content)] for the
    first [k] files (null staying null); when the run succeeds, for all of
    them. *)
Theorem importBackup_file_order (jsonString : string) (v : json) (data : BackupData)
    (w : World DB) (r : outcome unit) (w' : World DB) :
  JSON_parse jsonString = Some v →
  as_backup v = Some data →
  importBackup JSON_parse sortFolders jsonString w = (r, w') →
  ∃ l, calls w' = calls w ++ l
    ∧ ((∃ w1 folderIdMap w2 k,
          clearExistingData w = (Ok tt, w1)
          ∧ importFolders (sortFolders (folders data)) w1 = (Ok folderIdMap, w2)
          ∧ filter (λ c, is_createFile c) l = file_call folderIdMap <$> take k (files data)
          ∧ (r = Ok tt → k = length (files data)))
       ∨ (filter (λ c, is_createFile c) l = [] ∧ ∃ e, r = Throw e)).
Proof.
  intros Hp Hdata Hrun.
  rewrite (importBackup_typed _ _ _ _ _ _ Hp Hdata) in Hrun. unfold replay in Hrun.
  destruct (bind_inv _ _ _ _ _ Hrun) as [(e & Hclear & ->)|([] & w1 & Hclear & Hrest)].
  { destruct (emits_clearExistingData _ _ _ Hclear) as (l1 & Hl1 & [_ Hw1]).
    exists l1. split; [exact Hl1|]. right. split; [|eauto].
    apply (filter_outside _ 0 1); [exact Hw1|]. intros c. apply not_createFile. lia. }
  destruct (emits_clearExistingData _ _ _ Hclear) as (l1 & Hl1 & [_ Hw1]).
  assert (filter (λ c, is_createFile c) l1 = []) as Hf1.
  { apply (filter_outside _ 0 1); [exact Hw1|]. intros c. apply not_createFile. lia. }
  unfold after_wipe in Hrest.
  destruct (bind_inv _ _ _ _ _ Hrest) as [(e & Hfold & ->)|(m & w2 & Hfold & Hfin)].
  { destruct (emits_importFolders _ _ _ _ Hfold) as (l2 & Hl2 & [_ Hw2]).
    exists (l1 ++ l2). rewrite Hl2, Hl1, app_assoc. split; [reflexivity|].
    right. split; [|eauto]. rewrite filter_app, Hf1.
    apply (filter_outside _ 2 2); [exact Hw2|]. intros c. apply not_createFile. lia. }
  destruct (emits_importFolders _ _ _ _ Hfold) as (l2 & Hl2 & [_ Hw2]).
  assert (filter (λ c, is_createFile c) l2 = []) as Hf2.
  { apply (filter_outside _ 2 2); [exact Hw2|]. intros c. apply not_createFile. lia. }
  unfold after_folders in Hfin.
  destruct (bind_inv _ _ _ _ _ Hfin) as [(e & Hfiles & ->)|([] & w3 & Hfiles & Hlast)].
  { destruct (importFiles_run _ _ _ _ _ Hfiles) as (k & Hk & Hlen).
    exists (l1 ++ l2 ++ (file_call m <$> take k (files data))).
    rewrite Hk, Hl2, Hl1, <- !app_assoc. split; [reflexivity|].
    left. exists w1, m, w2, k. split; [exact Hclear|]. split; [exact Hfold|].
    split; [|discriminate].
    rewrite !filter_app, Hf1, Hf2. apply filter_file_calls. }
  destruct (importFiles_run _ _ _ _ _ Hfiles) as (k & Hk & Hlen).
  destruct (emits_refreshAndSelect _ _ _ Hlast) as (l4 & Hl4 & [_ Hw4]).
  exists (l1 ++ l2 ++ (file_call m <$> take k (files data)) ++ l4).
  rewrite Hl4, Hk, Hl2, Hl1, <- !app_assoc. split; [reflexivity|].
  left. exists w1, m, w2, k. split; [exact Hclear|]. split; [exact Hfold|].
  split; [|intros _; apply Hlen; reflexivity].
  rewrite !filter_app, Hf1, Hf2, filter_file_calls.
  rewrite (filter_outside _ 4 5 l4 Hw4); [apply app_nil_r|].
  intros c. apply not_createFile. lia.
Qed.

(** The log of a run that completes. *)
Lemma completed_run data w w' :
  replay sortFolders data w = (Ok tt, w') →
  ∃ w0 w1 folderIdMap w2 l2 l4,
    deleteFiles (st_files (app w)) w = (Ok tt, w0)
    ∧ deleteFolders (st_folders (app w0)) w0 = (Ok tt, w1)
    ∧ importFolders (sortFolders (folders data)) w1 = (Ok folderIdMap, w2)
    ∧ calls w' = calls w
                 ++ (CallDeleteFile <$> deleted_ids file_id (st_files (app w)))
                 ++ (CallDeleteFolder <$> deleted_ids folder_id (st_folders (app w0)))
                 ++ l2 ++ (file_call folderIdMap <$> files data) ++ l4.
Proof.
  intros Hrun. unfold replay in Hrun.
  destruct (bind_inv _ _ _ _ _ Hrun) as [(e & _ & He)|([] & w1 & Hclear & Hrest)];
    [discriminate|].
  destruct (clearExistingData_ok _ _ Hclear) as (w0 & Hfiles & Hfolders & Hcalls1).
  unfold after_wipe in Hrest.
  destruct (bind_inv _ _ _ _ _ Hrest) as [(e & _ & He)|(m & w2 & Hfold & Hfin)];
    [discriminate|].
  destruct (emits_importFolders _ _ _ _ Hfold) as (l2 & Hl2 & _).
  unfold after_folders in Hfin.
  destruct (bind_inv _ _ _ _ _ Hfin) as [(e & _ & He)|([] & w3 & Hcreate & Hlast)];
    [discriminate|].
  destruct (emits_refreshAndSelect _ _ _ Hlast) as (l4 & Hl4 & _).
  exists w0, w1, m, w2, l2, l4. split; [exact Hfiles|]. split; [exact Hfolders|].
  split; [exact Hfold|].
  rewrite Hl4, (importFiles_ok _ _ _ _ Hcreate), Hl2, Hcalls1, <- !app_assoc. reflexivity.
Qed.

(** ** C1: a folder reference that does not resolve *)

(** C1 (as the code has it).  [importBackup] does not check the folder
    references of the files.  When a file of the backup names a folder id
    that no folder of the backup has, a run that completes has wiped the
    repository as usual (its log starts with one [deleteFile] call per
    cached file) and has created that file unfiled:
    [createFile(null, title, content)]. *)
Theorem dangling_reference_is_unfiled (jsonString : string) (v : json)
    (data : BackupData) (w w' : World DB) (f : File) (k : Z) :
  JSON_parse jsonString = Some v →
  as_backup v = Some data →
  f ∈ files data →
  folderId f = Some k →
  (∀ g, g ∈ folders data → folder_id g ≠ Some k) →
  (∀ g, g ∈ sortFolders (folders data) → g ∈ folders data) →
  importBackup JSON_parse sortFolders jsonString w = (Ok tt, w') →
  ∃ l, calls w' = calls w ++ l
    ∧ CallCreateFile None (title f) (content f) ∈ l
    ∧ (CallDeleteFile <$> deleted_ids file_id (st_files (app w))) `prefix_of` l.
Proof.
  intros Hp Hdata Hf Hk Hnone Hsort Hrun.
  rewrite (importBackup_typed _ _ _ _ _ _ Hp Hdata) in Hrun.
  destruct (completed_run _ _ _ Hrun) as (w0 & w1 & m & w2 & l2 & l4 & _ & _ & Hfold & Hl).
  eexists. split; [exact Hl|]. split; [|eexists; reflexivity].
  rewrite !elem_of_app. right. right. right. left.
  assert (m !! k = None) as Hm.
  { destruct (m !! k) as [n'|] eqn:Hm; [exfalso|reflexivity].
    destruct (importFolders_keys _ _ _ _ _ Hfold k) as [Hempty|(g & Hg & Hid)].
    - rewrite Hm. eauto.
    - rewrite lookup_empty in Hempty. destruct Hempty as [? ?]. discriminate.
    - exact (Hnone g (Hsort g Hg) Hid). }
  apply list_elem_of_fmap. exists f. split; [|exact Hf].
  unfold file_call, remap. rewrite Hk, Hm. reflexivity.
Qed.

(** ** C2: cycles in the folder list *)

Section NoRepositoryFailure.
Hypothesis createFolder_succeeds :
  ∀ n p (s : AppState DB), ∃ i s', createFolder n p s = (Ok i, s').
Hypothesis toggleFolderOpen_succeeds :
  ∀ i (s : AppState DB), ∃ s', toggleFolderOpen i s = (Ok tt, s').

Lemma importFolder_total m f w :
  ∃ newId w1 l,
    importFolder m f w = (Ok (set_entry (folder_id f) newId m), w1)
    ∧ calls w1 = calls w ++ CallCreateFolder (name f) (remap m (parentId f)) :: l
    ∧ filter (λ c, is_createFolder c) l = [].
Proof.
  destruct (createFolder_succeeds (name f) (remap m (parentId f)) (app w))
    as (newId & s0 & Hcreate).
  unfold importFolder, bind, await, ret. rewrite Hcreate.
  destruct (isOpen f); simpl.
  - exists newId. eexists. exists []. split; [reflexivity|]. cbn. auto.
  - destruct (toggleFolderOpen_succeeds newId s0) as (s1 & Htoggle). rewrite Htoggle.
    exists newId. eexists. exists [CallToggleFolderOpen newId].
    split; [reflexivity|]. cbn [calls]. rewrite <- app_assoc. auto.
Qed.

Lemma importFolders_total l m0 w :
  ∃ m w' cs,
    for_of_acc l m0 importFolder w = (Ok m, w')
    ∧ calls w' = calls w ++ cs
    ∧ length (filter (λ c, is_createFolder c) cs) = length l
    ∧ ∀ pre f post p,
        l = pre ++ f :: post → parentId f = Some p → m0 !! p = None →
        (∀ g, g ∈ pre → folder_id g ≠ Some p) →
        CallCreateFolder (name f) None ∈ cs.
Proof.
  revert m0 w. induction l as [|x l IH]; intros m0 w.
  - exists m0, w, []. split; [reflexivity|]. rewrite app_nil_r.
    split; [reflexivity|]. split; [reflexivity|].
    intros [|? ?] ? ? ? Habs; discriminate.
  - destruct (importFolder_total m0 x w) as (newId & w1 & l0 & Hx & Hl0 & Hf0).
    destruct (IH (set_entry (folder_id x) newId m0) w1) as (m & w' & cs & Hrun & Hcs & Hlen & Hroot).
    exists m, w', (CallCreateFolder (name x) (remap m0 (parentId x)) :: l0 ++ cs).
    split; [simpl; rewrite (bind_ok _ _ _ _ _ Hx); exact Hrun|].
    split; [rewrite Hcs, Hl0, <- app_assoc; reflexivity|].
    split.
    { rewrite filter_cons_True by exact I. rewrite filter_app, Hf0. cbn.
      rewrite Hlen. reflexivity. }
    intros pre f post p Hsplit Hparent Hm0 Hpre.
    destruct pre as [|g pre]; cbn in Hsplit; inversion Hsplit; subst.
    + unfold remap. rewrite Hparent, Hm0. left.
    + right. apply elem_of_app. right.
      apply (Hroot pre f post p eq_refl Hparent).
      * unfold set_entry. destruct (folder_id g) as [kg|] eqn:Eg; [|exact Hm0].
        rewrite lookup_insert_ne; [exact Hm0|].
        intros ->. apply (Hpre g); [left|exact Eg].
      * intros g' Hg'. apply Hpre. right. exact Hg'.
Qed.

(** C2 (as the code has it).  The folder replay is a loop over the
    finite list [sortedFolders] and has no cycle check.  When no
    repository call fails it always completes: it makes exactly one
    [createFolder] call per folder of the list, and a folder whose parent
    id is the id of no folder replayed before it (as the first folder of
    a cycle to be replayed) is created with parent null. *)
Theorem folder_replay_completes (sortedFolders : list Folder) (w : World DB) :
  ∃ folderIdMap w' l,
    importFolders sortedFolders w = (Ok folderIdMap, w')
    ∧ calls w' = calls w ++ l
    ∧ length (filter (λ c, is_createFolder c) l) = length sortedFolders
    ∧ ∀ pre f post p,
        sortedFolders = pre ++ f :: post → parentId f = Some p →
        (∀ g, g ∈ pre → folder_id g ≠ Some p) →
        CallCreateFolder (name f) None ∈ l.
Proof.
  destruct (importFolders_total sortedFolders ∅ w) as (m & w' & cs & Hrun & Hcs & Hlen & Hroot).
  exists m, w', cs. split; [exact Hrun|]. split; [exact Hcs|]. split; [exact Hlen|].
  intros pre f post p Hsplit Hparent Hpre.
  exact (Hroot pre f post p Hsplit Hparent (lookup_empty p) Hpre).
Qed.

End NoRepositoryFailure.

End Importing.

(** ** Runs on the in-memory repository *)

(** The dangling reference of the specification's test: the import
    succeeds, the three folders and two files of the repository are gone
    and the file has been created unfiled. *)
Lemma dangling_reference_is_imported :
  fst (Memory.run_importBackup Examples.dangling Examples.loaded) = Ok tt
  ∧ Memory.stored_folders (db (app (snd (Memory.run_importBackup Examples.dangling Examples.loaded))))
    = []
  ∧ Memory.stored_files (db (app (snd (Memory.run_importBackup Examples.dangling Examples.loaded))))
    = [mkFile (Some 3) None "orphan" "text" "2025-12-08T09:00:00.000Z" "2025-12-08T09:00:00.000Z"]
  ∧ Memory.stored_folders (db (app Examples.loaded)) = Examples.workspace_folders
  ∧ Memory.stored_files (db (app Examples.loaded)) = Examples.workspace_files.
Proof. vm_compute. repeat split. Qed.

(** Two folders that are each other's parent: the import succeeds, [A] is
    created as a root and [B] below it. *)
Lemma cycle_is_imported :
  fst (Memory.run_importBackup Examples.cycle Examples.loaded) = Ok tt
  ∧ Memory.stored_folders (db (app (snd (Memory.run_importBackup Examples.cycle Examples.loaded))))
    = [mkFolder (Some 4) "A" None true; mkFolder (Some 5) "B" (Some 4) true].
Proof. vm_compute. repeat split. Qed.

(** The backend refuses to delete file 1: the import stops there, file 2
    and the three folders are neither deleted nor is their deletion
    attempted, and the error of the call is what the caller gets. *)
Lemma refused_deletion_aborts :
  fst (Memory.run_importBackup Examples.empty_backup Examples.locked)
  = Throw (Error "delete failed")
  ∧ calls (snd (Memory.run_importBackup Examples.empty_backup Examples.locked))
    = [CallDeleteFile 1]
  ∧ Memory.stored_files (db (app (snd (Memory.run_importBackup Examples.empty_backup Examples.locked))))
    = Examples.workspace_files
  ∧ Memory.stored_folders (db (app (snd (Memory.run_importBackup Examples.empty_backup Examples.locked))))
    = Examples.workspace_folders.
Proof. vm_compute. repeat split. Qed.

Lemma importBackup_call_order_example :
  ∃ l, calls (snd Examples.restored) = calls Examples.loaded ++ l ∧ in_order l.
Proof.
  destruct (importBackup_call_order Reference.JSON_parse Memory.sortFolders
              Examples.backup_text Examples.loaded
              (fst Examples.restored) (snd Examples.restored))
    as (l & Hl & Hord & _).
  - unfold Examples.restored, Memory.run_importBackup. apply surjective_pairing.
  - exists l. split; [exact Hl|exact Hord].
Defined.

Lemma wipe_failure_aborts_example :
  importBackup Reference.JSON_parse Memory.sortFolders Examples.empty_backup Examples.locked
  = (Throw (Error "delete failed"),
     mkWorld (app Examples.locked) (calls Examples.locked ++ [] ++ [CallDeleteFile 1])).
Proof.
  refine (proj1 (wipe_failure_aborts Reference.JSON_parse Memory.sortFolders
                   Examples.empty_backup
                   (JObj [("version", JNum 1); ("exportedAt", JStr ""); ("folders", JArr []);
                          ("files", JArr [])])
                   (mkBackupData (Some (JNum 1)) (Some (JStr "")) [] [])
                   Examples.locked (Error "delete failed") _ _)
            [] Examples.readme [Examples.todo] 1 Examples.locked (app Examples.locked)
            _ _ _ _ _).
  - vm_compute. reflexivity.
  - reflexivity.
  - reflexivity.
  - reflexivity.
  - reflexivity.
  - lia.
  - reflexivity.
Defined.

Lemma importBackup_refresh_and_select_example :
  fst Examples.restored = Ok tt
  ∧ calls (snd Examples.restored)
    = calls Examples.files_replayed ++ [CallRefreshData; CallSelectFile (Some 3)].
Proof.
  destruct (importBackup_refresh_and_select Reference.JSON_parse Memory.sortFolders
              Examples.backup_text
              (backup_literal Examples.exported_at Examples.workspace_folders
                 Examples.workspace_files)
              (mkBackupData (Some (JNum 1)) (Some (JStr Examples.exported_at))
                 Examples.workspace_folders Examples.workspace_files)
              Examples.loaded Examples.wiped (snd Examples.folders_replayed)
              Examples.files_replayed Examples.remap_table
              (snd (refreshData (app Examples.files_replayed))))
    as (_ & _ & _ & _ & Hrun).
  - vm_compute. reflexivity.
  - apply as_backup_literal.
  - vm_compute. reflexivity.
  - vm_compute. reflexivity.
  - vm_compute. reflexivity.
  - vm_compute. reflexivity.
  - unfold Examples.restored, Memory.run_importBackup. rewrite Hrun.
    vm_compute. split; reflexivity.
Defined.

Lemma importBackup_file_order_example :
  ∃ l, calls (snd Examples.restored) = calls Examples.loaded ++ l
     ∧ filter (λ c, is_createFile c) l
       = [CallCreateFile (Some 6) "readme" "# Markdown content here";
          CallCreateFile None "todo" "- [ ] write"].
Proof.
  destruct (importBackup_file_order Reference.JSON_parse Memory.sortFolders
              Examples.backup_text
              (backup_literal Examples.exported_at Examples.workspace_folders
                 Examples.workspace_files)
              (mkBackupData (Some (JNum 1)) (Some (JStr Examples.exported_at))
                 Examples.workspace_folders Examples.workspace_files)
              Examples.loaded (fst Examples.restored) (snd Examples.restored))
    as (l & Hl & Hcases).
  - vm_compute. reflexivity.
  - apply as_backup_literal.
  - unfold Examples.restored, Memory.run_importBackup. apply surjective_pairing.
  - exists l. split; [exact Hl|].
    apply (app_inv_head (calls Examples.loaded)) in Hl as <-.
    vm_compute. reflexivity.
Defined.

Lemma dangling_reference_is_unfiled_example :
  ∃ l, calls (snd (Memory.run_importBackup Examples.dangling Examples.loaded))
       = calls Examples.loaded ++ l
     ∧ CallCreateFile None "orphan" "text" ∈ l
     ∧ [CallDeleteFile 1; CallDeleteFile 2] `prefix_of` l.
Proof.
  apply (dangling_reference_is_unfiled Reference.JSON_parse Memory.sortFolders
           Examples.dangling
           (backup_literal Examples.exported_at [] [Examples.orphan])
           (mkBackupData (Some (JNum 1)) (Some (JStr Examples.exported_at)) [] [Examples.orphan])
           Examples.loaded
           (snd (Memory.run_importBackup Examples.dangling Examples.loaded))
           Examples.orphan 99).
  - vm_compute. reflexivity.
  - apply as_backup_literal.
  - left.
  - reflexivity.
  - intros g Hg. inversion Hg.
  - intros g Hg. exact Hg.
  - vm_compute. reflexivity.
Defined.

Lemma folder_replay_completes_example :
  ∃ folderIdMap w' l,
    importFolders [Examples.folder_a; Examples.folder_b] Examples.wiped = (Ok folderIdMap, w')
    ∧ calls w' = calls Examples.wiped ++ l
    ∧ length (filter (λ c, is_createFolder c) l) = 2%nat
    ∧ CallCreateFolder "A" None ∈ l.
Proof.
  destruct (folder_replay_completes (DB := Memory.Store)
              ltac:(intros n p s; eexists; eexists; reflexivity)
              ltac:(intros i s; eexists; reflexivity)
              [Examples.folder_a; Examples.folder_b] Examples.wiped)
    as (m & w' & l & Hrun & Hl & Hlen & Hroot).
  exists m, w', l. split; [exact Hrun|]. split; [exact Hl|]. split; [exact Hlen|].
  apply (Hroot [] Examples.folder_a [Examples.folder_b] 2).
  - reflexivity.
  - reflexivity.
  - intros g Hg. inversion Hg.
Defined.

(** ** The order of the folder replay on forests *)

Section TopologicalSort.
Import Memory.

Lemma partition_ready (released : list Z) (pending : list Folder) :
filter (λ f, is_ready released f) pending
++ filter (λ f, negb (is_ready released f)) pending ≡ₚ pending.
Proof.
induction pending as [|f pending IH]; [reflexivity|].
destruct (is_ready released f) eqn:Hready.
- rewrite filter_cons_True by (rewrite Hready; exact I).
  rewrite filter_cons_False by (rewrite Hready; intros []).
  cbn [app]. constructor. exact IH.
- rewrite filter_cons_False by (rewrite Hready; intros []).
  rewrite filter_cons_True by (rewrite Hready; exact I).
  rewrite <- Permutation_middle. constructor. exact IH.
Qed.

Lemma rounds_Permutation (fuel : nat) :
∀ released pending, rounds fuel released pending ≡ₚ pending.
Proof.
induction fuel as [|n IH]; intros released pending; [reflexivity|].
cbn [rounds].
destruct (filter (λ f, is_ready released f) pending) as [|f now] eqn:Hnow; [reflexivity|].
rewrite IH, <- Hnow. apply partition_ready.
Qed.

Lemma ordered_app (a b : list Folder) :
∀ seen,
  (∀ f p, f ∈ a → parentId f = Some p → p ∈ seen) →
  ordered (seen ++ omap folder_id a) b →
  ordered seen (a ++ b).
Proof.
induction a as [|f a IH]; intros seen Ha Hb.
- cbn in Hb. rewrite app_nil_r in Hb. exact Hb.
- cbn [app ordered]. split; [intros p Hp; apply (Ha f); [left|exact Hp]|].
  apply IH.
  + intros g p Hg Hp. apply elem_of_app. left. apply (Ha g); [right; exact Hg|exact Hp].
  + rewrite <- app_assoc. rewrite <- omap_app. exact Hb.
Qed.

Lemma ordered_parents_first (l : list Folder) :
∀ seen pre f post p,
  ordered seen l → l = pre ++ f :: post → parentId f = Some p →
  p ∈ seen ∨ ∃ g, g ∈ pre ∧ folder_id g = Some p.
Proof.
induction l as [|f0 l IH]; intros seen pre f post p Hord Hsplit Hp.
- destruct pre; discriminate.
- destruct Hord as [Hf0 Hl]. destruct pre as [|g pre]; inversion Hsplit; subst.
  + left. apply Hf0. exact Hp.
  + destruct (IH _ pre f post p Hl eq_refl Hp) as [Hseen|(h & Hh & Hid)].
    * apply elem_of_app in Hseen as [Hseen|Hseen]; [left; exact Hseen|].
      right. exists g. split; [left|].
      cbn in Hseen. destruct (folder_id g) as [i|]; cbn in Hseen.
      -- apply list_elem_of_singleton in Hseen as ->. reflexivity.
      -- inversion Hseen.
    * right. exists h. split; [right; exact Hh|exact Hid].
Qed.


Lemma tc_parent_of_in (l : list Folder) (x y : Folder) : tc (parent_of l) x y → y ∈ l.
Proof. induction 1 as [x y (_ & Hy & _)|x y z _ _ IH]; [exact Hy|exact IH]. Qed.

Lemma tc_parent_of_mono (l l' : list Folder) (x y : Folder) :
(∀ f, f ∈ l → f ∈ l') → tc (parent_of l) x y → tc (parent_of l') x y.
Proof.
intros Hsub. induction 1 as [x y (Hx & Hy & Hp)|x y z (Hx & Hy & Hp) _ IH].
- apply tc_once. split; [auto|split; [auto|exact Hp]].
- eapply tc_l; [|exact IH]. split; [auto|split; [auto|exact Hp]].
Qed.

(** Among folders without a cycle whose parents are released or still
  pending, one is ready. *)
Lemma exists_ready (released : list Z) (pending : list Folder) :
pending ≠ [] →
(∀ f p, f ∈ pending → parentId f = Some p →
        p ∈ released ∨ ∃ g, g ∈ pending ∧ folder_id g = Some p) →
(∀ f, ¬ tc (parent_of pending) f f) →
∃ f, f ∈ pending ∧ is_ready released f = true.
Proof.
intros Hne Hclosed Hacyclic.
assert (∀ y, sn (parent_of pending) y → y ∈ pending →
             ∃ f, f ∈ pending ∧ is_ready released f = true) as Hclimb.
{ induction 1 as [y _ IH]. intros Hy. unfold is_ready.
  destruct (parentId y) as [p|] eqn:Hp.
  - destruct (decide (p ∈ released)) as [Hin|Hout].
    + exists y. split; [exact Hy|]. rewrite Hp. apply bool_decide_eq_true_2. exact Hin.
    + destruct (Hclosed y p Hy Hp) as [Hin|(g & Hg & Hid)]; [contradiction|].
      apply (IH g); [|exact Hg].
      split; [exact Hy|]. split; [exact Hg|]. rewrite Hp. split; [eauto|congruence].
  - exists y. split; [exact Hy|]. rewrite Hp. reflexivity. }
destruct pending as [|x pending']; [contradiction|].
apply (Hclimb x); [|left].
apply tc_finite_sn.
- intros f Hf. exact (Hacyclic f Hf).
- exists (x :: pending'). intros z Hz. exact (tc_parent_of_in _ _ _ Hz).
Qed.

Lemma rounds_ordered (fuel : nat) :
∀ released pending,
  (length pending ≤ fuel)%nat →
  (∀ f p, f ∈ pending → parentId f = Some p →
          p ∈ released ∨ ∃ g, g ∈ pending ∧ folder_id g = Some p) →
  (∀ f, ¬ tc (parent_of pending) f f) →
  ordered released (rounds fuel released pending).
Proof.
induction fuel as [|n IH]; intros released pending Hlen Hclosed Hacyclic.
{ destruct pending; [exact I|cbn in Hlen; lia]. }
cbn [rounds].
destruct (filter (λ f, is_ready released f) pending) as [|f now] eqn:Hnow.
{ destruct pending as [|x pending']; [exact I|]. exfalso.
  destruct (exists_ready released (x :: pending') ltac:(discriminate) Hclosed Hacyclic)
    as (g & Hg & Hready).
  assert (g ∈ filter (λ f, is_ready released f) (x :: pending')) as Hin.
  { apply list_elem_of_filter. split; [rewrite Hready; exact I|exact Hg]. }
  rewrite Hnow in Hin. inversion Hin. }
rewrite <- Hnow.
assert (∀ g, g ∈ filter (λ f, is_ready released f) pending ↔
             g ∈ pending ∧ is_ready released g = true) as Hnow_in.
{ intros g. rewrite list_elem_of_filter. split.
  - intros [H1 H2]. split; [exact H2|apply Is_true_true; exact H1].
  - intros [H1 H2]. split; [apply Is_true_true; exact H2|exact H1]. }
assert (∀ g, g ∈ filter (λ f, negb (is_ready released f)) pending ↔
             g ∈ pending ∧ is_ready released g = false) as Hlater_in.
{ intros g. rewrite list_elem_of_filter. split.
  - intros [H1 H2]. split; [exact H2|apply negb_true_iff, Is_true_true; exact H1].
  - intros [H1 H2]. split; [apply Is_true_true, negb_true_iff; exact H2|exact H1]. }
apply ordered_app.
- intros g p [_ Hready]%Hnow_in Hp. unfold is_ready in Hready. rewrite Hp in Hready.
  apply bool_decide_eq_true in Hready. exact Hready.
- apply IH.
  + assert (f ∈ pending ∧ is_ready released f = true) as [Hf Hready].
    { apply Hnow_in. rewrite Hnow. left. }
    assert (length (filter (λ f, negb (is_ready released f)) pending) < length pending)%nat.
    { apply (length_filter_lt _ _ f Hf). cbn beta. rewrite Hready. intros []. }
    lia.
  + intros g p [Hg _]%Hlater_in Hp.
    destruct (Hclosed g p Hg Hp) as [Hin|(h & Hh & Hid)].
    * left. apply elem_of_app. left. exact Hin.
    * destruct (is_ready released h) eqn:Hready.
      -- left. apply elem_of_app. right. apply list_elem_of_omap.
         exists h. split; [apply Hnow_in; auto|exact Hid].
      -- right. exists h. split; [apply Hlater_in; auto|exact Hid].
  + intros g Hcycle. apply (Hacyclic g).
    eapply tc_parent_of_mono; [|exact Hcycle].
    intros h [Hh _]%Hlater_in. exact Hh.
Qed.

(** The rounds put the folders of a forest in an order in which parents
  come first. *)
Lemma sortFolders_parents_first (l : list Folder) :
forest l → parents_first (sortFolders l).
Proof.
intros (_ & Hclosed & Hacyclic) pre f post p Hsplit Hp.
assert (ordered [] (sortFolders l)) as Hord.
{ apply rounds_ordered; [lia| |exact Hacyclic].
  intros g q Hg Hq. right. exact (Hclosed g q Hg Hq). }
destruct (ordered_parents_first _ [] pre f post p Hord Hsplit Hp) as [Hin|Hpre];
  [inversion Hin|exact Hpre].
Qed.

Lemma sortFolders_Permutation (l : list Folder) : sortFolders l ≡ₚ l.
Proof. apply rounds_Permutation. Qed.

(** A rank that decreases from child to parent rules out cycles. *)
Lemma acyclic_by_rank (rank : Folder → Z) (l : list Folder) :
(∀ child parent, parent_of l child parent → rank parent < rank child) →
∀ f, ¬ tc (parent_of l) f f.
Proof.
intros Hrank.
assert (∀ x y, tc (parent_of l) x y → rank y < rank x) as Hdown.
{ induction 1 as [x y Hxy|x y z Hxy _ IH]; [exact (Hrank x y Hxy)|].
  specialize (Hrank x y Hxy). lia. }
intros f Hf. specialize (Hdown f f Hf). lia.
Qed.

End TopologicalSort.

(** ** C3: the folder hierarchy, on the in-memory repository *)

Section Hierarchy.
Variable JSON_parse : string → option json.
Variable sortFolders : list Folder → list Folder.

Implicit Types (w : World Memory.Store) (l : list Folder) (m : gmap Z Z).

Lemma toggle_other id l :
  (∀ g, g ∈ l → folder_id g ≠ Some id) → Memory.toggle id <$> l = l.
Proof.
  induction l as [|g l IH]; intros Hne; [reflexivity|].
  rewrite fmap_cons, IH by (intros h Hh; apply Hne; right; exact Hh).
  unfold Memory.toggle, Memory.has_id.
  rewrite bool_decide_eq_false_2 by (apply Hne; left). reflexivity.
Qed.

Lemma folder_by_id_here (stored : list Folder) g rest n :
  (∀ h i, h ∈ stored → folder_id h = Some i → i < n) →
  folder_id g = Some n →
  Memory.folder_by_id n ((stored ++ [g]) ++ rest) = Some g.
Proof.
  intros Hfresh Hg. unfold Memory.folder_by_id.
  rewrite !filter_app.
  assert (filter (λ f, Memory.has_id folder_id n f) stored = []) as ->.
  { induction stored as [|h stored IH]; [reflexivity|].
    rewrite filter_cons_False.
    - apply IH. intros h' i Hh'. apply Hfresh. right. exact Hh'.
    - unfold Memory.has_id. intros Hh%Is_true_true%bool_decide_eq_true.
      specialize (Hfresh h n ltac:(left) Hh). lia. }
  rewrite filter_cons_True; [reflexivity|].
  unfold Memory.has_id. apply Is_true_true, bool_decide_eq_true. exact Hg.
Qed.

(** One turn of the loop of step 2 on the in-memory repository. *)
Lemma memory_importFolder m f w :
  Memory.fresh (db (app w)) →
  let newId := Memory.nextFolderId (db (app w)) in
  ∃ w1,
    importFolder m f w = (Ok (set_entry (folder_id f) newId m), w1)
    ∧ Memory.stored_folders (db (app w1))
      = Memory.stored_folders (db (app w))
        ++ [mkFolder (Some newId) (name f) (remap m (parentId f)) (isOpen f)]
    ∧ Memory.nextFolderId (db (app w1)) = newId + 1.
Proof.
  intros Hfresh newId. unfold importFolder, bind, await, ret. cbn.
  destruct (isOpen f) eqn:Hopen; cbn.
  - eexists. split; [reflexivity|]. cbn. auto.
  - eexists. split; [reflexivity|]. cbn. split; [|reflexivity].
    rewrite fmap_app, toggle_other.
    + cbn. unfold Memory.toggle, Memory.has_id. cbn.
      rewrite bool_decide_eq_true_2 by reflexivity. reflexivity.
    + intros g Hg Hid. specialize (Hfresh g _ Hg Hid). fold newId in Hid. lia.
Qed.

Lemma remap_lookup m k : remap m (Some k) = m !! k.
Proof. unfold remap. destruct (m !! k); reflexivity. Qed.

(** The loop of step 2 on the in-memory repository, started with a table
    [m0] that already has the parents the list does not bring itself. *)
Lemma memory_importFolders l : ∀ m0 w,
  Memory.fresh (db (app w)) →
  NoDup (folder_id <$> l) →
  (∀ f, f ∈ l → is_Some (folder_id f)) →
  (∀ f i, f ∈ l → folder_id f = Some i → m0 !! i = None) →
  (∀ pre f post p, l = pre ++ f :: post → parentId f = Some p →
     is_Some (m0 !! p) ∨ ∃ g, g ∈ pre ∧ folder_id g = Some p) →
  (∀ i n, m0 !! i = Some n → n < Memory.nextFolderId (db (app w))) →
  (∀ i j n, m0 !! i = Some n → m0 !! j = Some n → i = j) →
  ∃ m w' created,
    for_of_acc l m0 importFolder w = (Ok m, w')
    ∧ Memory.stored_folders (db (app w')) = Memory.stored_folders (db (app w)) ++ created
    ∧ Memory.fresh (db (app w'))
    ∧ (∀ i n, m0 !! i = Some n → m !! i = Some n)
    ∧ (∀ i j n, m !! i = Some n → m !! j = Some n → i = j)
    ∧ ∀ f, f ∈ l →
        ∃ i newId g,
          folder_id f = Some i ∧ m !! i = Some newId
          ∧ Memory.folder_by_id newId (Memory.stored_folders (db (app w'))) = Some g
          ∧ name g = name f ∧ isOpen g = isOpen f
          ∧ parentId g = remap m (parentId f)
          ∧ (∀ p, parentId f = Some p → is_Some (m !! p)).
Proof.
  induction l as [|x l IH]; intros m0 w Hfresh Hnd Hids Hnew Hpar Hval Hinj.
  { exists m0, w, []. rewrite app_nil_r. repeat split; auto.
    intros f Hf. inversion Hf. }
  destruct (memory_importFolder m0 x w Hfresh) as (w1 & Hx & Hst1 & Hn1).
  set (n0 := Memory.nextFolderId (db (app w))) in *.
  destruct (Hids x ltac:(left)) as [ix Hix].
  rewrite Hix in Hx. cbn [set_entry] in Hx.
  rewrite fmap_cons in Hnd. apply NoDup_cons in Hnd as [Hnotin Hnd].
  assert (m0 !! ix = None) as Hm0ix by (apply (Hnew x); [left|exact Hix]).
  assert (∀ f i, f ∈ l → folder_id f = Some i → i ≠ ix) as Hother.
  { intros f i Hf Hi ->. apply Hnotin. rewrite Hix, <- Hi.
    apply list_elem_of_fmap_2. exact Hf. }
  destruct (IH (<[ix := n0]> m0) w1) as (m & w' & created & Hrun & Hst & Hfresh' & Hsub & Hinj' & Hall).
  - intros g i Hg Hi. rewrite Hn1. rewrite Hst1 in Hg.
    apply elem_of_app in Hg as [Hg|Hg].
    + specialize (Hfresh g i Hg Hi). fold n0 in Hfresh. lia.
    + apply list_elem_of_singleton in Hg as ->. cbn in Hi. inversion Hi. lia.
  - exact Hnd.
  - intros f Hf. apply Hids. right. exact Hf.
  - intros f i Hf Hi. rewrite lookup_insert_ne by (intros ->; exact (Hother f i Hf Hi eq_refl)).
    apply (Hnew f); [right; exact Hf|exact Hi].
  - intros pre f post p Hsplit Hparent.
    destruct (Hpar (x :: pre) f post p) as [Hsome|(g & Hg & Hid)].
    + rewrite Hsplit. reflexivity.
    + exact Hparent.
    + left. rewrite lookup_insert_is_Some. destruct (decide (ix = p)); auto.
    + apply elem_of_cons in Hg as [->|Hg].
      * left. rewrite Hix in Hid. inversion Hid; subst. rewrite lookup_insert_eq. eauto.
      * right. eauto.
  - intros i n Hin. rewrite Hn1. rewrite lookup_insert in Hin.
    destruct (decide (ix = i)) as [Hei|Hne].
    + inversion Hin. lia.
    + specialize (Hval i n Hin). fold n0 in Hval. lia.
  - intros i j n Hi Hj. rewrite lookup_insert in Hi, Hj.
    destruct (decide (ix = i)) as [Hei|Hnei]; destruct (decide (ix = j)) as [Hej|Hnej].
    + congruence.
    + inversion Hi; subst. specialize (Hval j _ Hj). lia.
    + inversion Hj; subst. specialize (Hval i _ Hi). lia.
    + eauto.
  - assert (∀ i n, m0 !! i = Some n → m !! i = Some n) as Hsub0.
    { intros i n Hin. apply Hsub. rewrite lookup_insert_ne; [exact Hin|].
      intros ->. rewrite Hm0ix in Hin. discriminate. }
    exists m, w', (mkFolder (Some n0) (name x) (remap m0 (parentId x)) (isOpen x) :: created).
    split; [simpl; rewrite (bind_ok _ _ _ _ _ Hx); exact Hrun|].
    split; [rewrite Hst, Hst1, <- app_assoc; reflexivity|].
    split; [exact Hfresh'|]. split; [exact Hsub0|]. split; [exact Hinj'|].
    intros f Hf. apply elem_of_cons in Hf as [->|Hf]; [|exact (Hall f Hf)].
    exists ix, n0, (mkFolder (Some n0) (name x) (remap m0 (parentId x)) (isOpen x)).
    split; [exact Hix|].
    split; [apply Hsub, lookup_insert_eq|].
    split; [rewrite Hst, Hst1; apply folder_by_id_here; [exact Hfresh|reflexivity]|].
    split; [reflexivity|]. split; [reflexivity|].
    assert (∀ p, parentId x = Some p → ∃ n, m0 !! p = Some n) as Hparent0.
    { intros p Hp. destruct (Hpar [] x l p eq_refl Hp) as [[n Hn]|(g & Hg & _)]; [eauto|].
      inversion Hg. }
    split.
    + cbn. destruct (parentId x) as [p|]; [|reflexivity].
      destruct (Hparent0 p eq_refl) as [n Hn].
      rewrite !remap_lookup, Hn, (Hsub0 p n Hn). reflexivity.
    + intros p Hp. destruct (Hparent0 p Hp) as [n Hn]. rewrite (Hsub0 p n Hn). eauto.
Qed.

(** A loop whose turns all succeed and keep [P]. *)
Lemma for_of_invariant {A} (P : World Memory.Store → Prop) (xs : list A)
    (body : A → M Memory.Store unit) :
  (∀ x w, P w → ∃ w', body x w = (Ok tt, w') ∧ P w') →
  ∀ w, P w → ∃ w', for_of xs body w = (Ok tt, w') ∧ P w'.
Proof.
  intros Hbody. induction xs as [|x xs IH]; intros w Hw.
  - exists w. split; [reflexivity|exact Hw].
  - destruct (Hbody x w Hw) as (w1 & Hx & Hw1).
    destruct (IH w1 Hw1) as (w' & Hrest & Hw').
    exists w'. split; [|exact Hw']. simpl. rewrite (bind_ok _ _ _ _ _ Hx). exact Hrest.
Qed.

(** The wipe on a backend that refuses nothing: it succeeds, creates no
    id and leaves no folder that was not there. *)
Lemma memory_clearExistingData w :
  Memory.refused (db (app w)) = [] →
  ∃ w1, clearExistingData w = (Ok tt, w1)
      ∧ (∀ g, g ∈ Memory.stored_folders (db (app w1)) → g ∈ Memory.stored_folders (db (app w)))
      ∧ Memory.nextFolderId (db (app w1)) = Memory.nextFolderId (db (app w)).
Proof.
  intros Hrefused.
  destruct (for_of_invariant
              (λ w', Memory.refused (db (app w')) = []
                     ∧ Memory.stored_folders (db (app w')) = Memory.stored_folders (db (app w))
                     ∧ Memory.nextFolderId (db (app w')) = Memory.nextFolderId (db (app w)))
              (st_files (app w))
              (λ file, if_id (file_id file) (λ i, await (CallDeleteFile i) (deleteFile i))))
    with (w := w) as (w0 & Hfiles & Hr0 & Hf0 & Hn0).
  { intros x u (Hr & Hf & Hn). unfold if_id.
    destruct (file_id x) as [i|]; [|exists u; auto].
    destruct (truthy_id (Some i)); [|exists u; auto].
    unfold await. cbn. unfold Memory.deleteFile. rewrite Hr. cbn.
    eexists. split; [reflexivity|]. cbn. auto. }
  { auto. }
  destruct (for_of_invariant
              (λ w', (∀ g, g ∈ Memory.stored_folders (db (app w'))
                           → g ∈ Memory.stored_folders (db (app w)))
                     ∧ Memory.nextFolderId (db (app w')) = Memory.nextFolderId (db (app w)))
              (st_folders (app w0))
              (λ folder, if_id (folder_id folder)
                           (λ i, await (CallDeleteFolder i) (deleteFolder i))))
    with (w := w0) as (w1 & Hfolders & Hsub & Hn1).
  { intros x u (Hsub & Hn). unfold if_id.
    destruct (folder_id x) as [i|]; [|exists u; auto].
    destruct (truthy_id (Some i)); [|exists u; auto].
    unfold await. cbn. eexists. split; [reflexivity|]. cbn. split; [|exact Hn].
    intros g Hg. apply list_elem_of_filter in Hg as [_ Hg]. apply Hsub. exact Hg. }
  { rewrite Hf0. auto. }
  exists w1. split; [|auto].
  unfold clearExistingData.
  rewrite (bind_ok _ _ w tt w0) by exact Hfiles. exact Hfolders.
Qed.

Lemma memory_importFiles files m w :
  ∃ w', importFiles files m w = (Ok tt, w')
      ∧ Memory.stored_folders (db (app w')) = Memory.stored_folders (db (app w)).
Proof.
  apply (for_of_invariant
           (λ w', Memory.stored_folders (db (app w')) = Memory.stored_folders (db (app w))));
    [|reflexivity].
  intros x u Hu. unfold importFile, bind, await, ret. cbn.
  eexists. split; [reflexivity|]. cbn. exact Hu.
Qed.

Lemma memory_refreshAndSelect w :
  ∃ w', refreshAndSelect w = (Ok tt, w')
      ∧ Memory.stored_folders (db (app w')) = Memory.stored_folders (db (app w)).
Proof.
  unfold refreshAndSelect, bind, await, assign, read. cbn.
  destruct (Memory.stored_files (db (app w))) as [|first rest]; cbn.
  - eexists. split; reflexivity.
  - eexists. split; reflexivity.
Qed.

(** The hierarchy is preserved by any order of replay in which parents
    come first. *)
Lemma parents_first_preserves_hierarchy (jsonString : string) (v : json) (data : BackupData) w :
  JSON_parse jsonString = Some v →
  as_backup v = Some data →
  sortFolders (folders data) ≡ₚ folders data →
  parents_first (sortFolders (folders data)) →
  distinct_ids (folders data) →
  Memory.fresh (db (app w)) →
  Memory.refused (db (app w)) = [] →
  ∃ w' (folderIdMap : gmap Z Z),
    importBackup JSON_parse sortFolders jsonString w = (Ok tt, w')
    ∧ (∀ i j n, folderIdMap !! i = Some n → folderIdMap !! j = Some n → i = j)
    ∧ ∀ child, child ∈ folders data →
        ∃ i newId g,
          folder_id child = Some i ∧ folderIdMap !! i = Some newId
          ∧ Memory.folder_by_id newId (Memory.stored_folders (db (app w'))) = Some g
          ∧ name g = name child
          ∧ match parentId child with
            | None => parentId g = None
            | Some p =>
                ∃ parent newParentId g',
                  parent ∈ folders data ∧ folder_id parent = Some p
                  ∧ folderIdMap !! p = Some newParentId
                  ∧ parentId g = Some newParentId
                  ∧ Memory.folder_by_id newParentId (Memory.stored_folders (db (app w')))
                    = Some g'
                  ∧ name g' = name parent
            end.
Proof.
  intros Hp Hdata Hperm Hfirst [Hnd Hids] Hfresh Hrefused.
  set (sorted := sortFolders (folders data)) in *.
  destruct (memory_clearExistingData w Hrefused) as (w1 & Hclear & Hsub1 & Hn1).
  destruct (memory_importFolders sorted ∅ w1) as (m & w2 & created & Hfold & Hst2 & _ & _ & Hinj & Hall).
  - intros g i Hg Hi. rewrite Hn1. exact (Hfresh g i (Hsub1 g Hg) Hi).
  - rewrite Hperm. exact Hnd.
  - intros f Hf. apply Hids. rewrite <- Hperm. exact Hf.
  - intros f i _ _. apply lookup_empty.
  - intros pre f post p Hsplit Hparent. right. exact (Hfirst pre f post p Hsplit Hparent).
  - intros i n Hin. rewrite lookup_empty in Hin. discriminate.
  - intros i j n Hin. rewrite lookup_empty in Hin. discriminate.
  - destruct (memory_importFiles (files data) m w2) as (w3 & Hfiles & Hst3).
    destruct (memory_refreshAndSelect w3) as (w' & Hlast & Hst').
    exists w', m. split; [|split; [exact Hinj|]].
    { rewrite (importBackup_typed _ _ _ _ _ _ Hp Hdata). unfold replay.
      rewrite (bind_ok _ _ _ _ _ Hclear). unfold after_wipe.
      fold sorted. unfold importFolders. rewrite (bind_ok _ _ _ _ _ Hfold).
      unfold after_folders. rewrite (bind_ok _ _ _ _ _ Hfiles). exact Hlast. }
    rewrite Hst', Hst3.
    intros child Hchild. rewrite <- Hperm in Hchild.
    destruct (Hall child Hchild) as (i & newId & g & Hi & Hm & Hg & Hname & _ & Hparent & Hsome).
    exists i, newId, g. repeat (split; [assumption|]).
    destruct (parentId child) as [p|] eqn:Hpc; [|exact Hparent].
    destruct (list_elem_of_split _ _ Hchild) as (pre & post & Hsplit).
    destruct (Hfirst pre child post p Hsplit Hpc) as (parent & Hin & Hpid).
    assert (parent ∈ sorted) as Hparent_in.
    { rewrite Hsplit. apply elem_of_app. left. exact Hin. }
    destruct (Hall parent Hparent_in) as (i' & newP & g' & Hi' & Hm' & Hg' & Hname' & _).
    assert (i' = p) as -> by congruence.
    exists parent, newP, g'. split; [rewrite <- Hperm; exact Hparent_in|].
    split; [exact Hpid|]. split; [exact Hm'|].
    split; [rewrite Hparent, remap_lookup; exact Hm'|].
    split; [exact Hg'|exact Hname'].
Qed.

End Hierarchy.

(** C3.  For every backup whose folders form a forest, on the in-memory
    repository (with a backend that refuses no deletion) and with the
    folders replayed in the parents-first order of the specification,
    [importBackup] completes and the folders it has created mirror those of
    the backup: the remap table sends the ids of the backup one-to-one to ids
    of the repository; the folder created for a backup folder has its name; a
    folder without parent gets no parent; and the parent of the folder
    created for a child is the folder created for the child's parent, so that
    it has the name of the folder the child's [parentId] pointed to. *)
Theorem hierarchy_preserved (JSON_parse : string → option json) (jsonString : string)
    (v : json) (data : BackupData) (w : World Memory.Store) :
  JSON_parse jsonString = Some v →
  as_backup v = Some data →
  forest (folders data) →
  Memory.fresh (db (app w)) →
  Memory.refused (db (app w)) = [] →
  ∃ w' (folderIdMap : gmap Z Z),
    importBackup JSON_parse Memory.sortFolders jsonString w = (Ok tt, w')
    ∧ (∀ i j n, folderIdMap !! i = Some n → folderIdMap !! j = Some n → i = j)
    ∧ ∀ child, child ∈ folders data →
        ∃ i newId g,
          folder_id child = Some i ∧ folderIdMap !! i = Some newId
          ∧ Memory.folder_by_id newId (Memory.stored_folders (db (app w'))) = Some g
          ∧ name g = name child
          ∧ match parentId child with
            | None => parentId g = None
            | Some p =>
                ∃ parent newParentId g',
                  parent ∈ folders data ∧ folder_id parent = Some p
                  ∧ folderIdMap !! p = Some newParentId
                  ∧ parentId g = Some newParentId
                  ∧ Memory.folder_by_id newParentId (Memory.stored_folders (db (app w')))
                    = Some g'
                  ∧ name g' = name parent
            end.
Proof.
  intros Hp Hdata Hforest Hfresh Hrefused.
  apply (parents_first_preserves_hierarchy JSON_parse Memory.sortFolders jsonString v data w
           Hp Hdata).
  - apply sortFolders_Permutation.
  - apply sortFolders_parents_first. exact Hforest.
  - destruct Hforest as [Hdistinct _]. exact Hdistinct.
  - exact Hfresh.
  - exact Hrefused.
Qed.


Lemma hierarchy_preserved_example :
  ∃ w' (folderIdMap : gmap Z Z) newId g newParentId g',
    importBackup Reference.JSON_parse Memory.sortFolders Examples.backup_text Examples.loaded
    = (Ok tt, w')
    ∧ folderIdMap !! 3 = Some newId
    ∧ Memory.folder_by_id newId (Memory.stored_folders (db (app w'))) = Some g
    ∧ name g = "drafts"
    ∧ parentId g = Some newParentId
    ∧ Memory.folder_by_id newParentId (Memory.stored_folders (db (app w'))) = Some g'
    ∧ name g' = "notes".
Proof.
  assert (Reference.JSON_parse Examples.backup_text
          = Some (backup_literal Examples.exported_at Examples.workspace_folders
                    Examples.workspace_files)) as Hparse
    by (vm_compute; reflexivity).
  assert (∀ f, f ∈ Examples.workspace_folders →
               f = Examples.drafts ∨ f = Examples.notes ∨ f = Examples.docs) as Hcases.
  { intros f Hf. unfold Examples.workspace_folders in Hf.
    repeat (apply elem_of_cons in Hf as [->|Hf]); auto. inversion Hf. }
  assert (forest Examples.workspace_folders) as Hforest.
  { split; [split|split].
    - apply (bool_decide_unpack _). vm_compute. exact I.
    - intros f Hf. destruct (Hcases f Hf) as [ -> | [ -> | -> ] ]; eexists; reflexivity.
    - intros f p Hf Hp. destruct (Hcases f Hf) as [ -> | [ -> | -> ] ]; inversion Hp; subst.
      + exists Examples.notes. split; [right; left|reflexivity].
      + exists Examples.docs. split; [right; right; left|reflexivity].
    - apply (acyclic_by_rank (λ f, default 0 (folder_id f))).
      intros child parent (Hc & Hparent & _ & Heq).
      destruct (Hcases child Hc) as [ -> | [ -> | -> ] ];
        destruct (Hcases parent Hparent) as [ -> | [ -> | -> ] ];
        try discriminate; cbn; lia. }
  assert (Memory.fresh (db (app Examples.loaded))) as Hfresh.
  { intros g i Hg Hi. change (i < 4).
    destruct (Hcases g Hg) as [ -> | [ -> | -> ] ]; inversion Hi; lia. }
  destruct (hierarchy_preserved Reference.JSON_parse Examples.backup_text _ _ Examples.loaded
              Hparse (as_backup_literal _ _ _) Hforest Hfresh eq_refl)
    as (w' & m & Hrun & _ & Hall).
  destruct (Hall Examples.drafts ltac:(left))
    as (i & newId & g & Hi & Hm & Hg & Hname & parent & newP & g' & Hin & Hpid & Hmp & Hpg & Hg' & Hname').
  inversion Hi; subst i.
  assert (name parent = "notes") as Hparent_name.
  { destruct (Hcases parent Hin) as [ -> | [ -> | -> ] ]; [discriminate|reflexivity|discriminate]. }
  exists w', m, newId, g, newP, g'.
  split; [exact Hrun|]. split; [exact Hm|]. split; [exact Hg|]. split; [exact Hname|].
  split; [exact Hpg|]. split; [exact Hg'|]. rewrite Hname'. exact Hparent_name.
Defined.

(** * Properties of the replay, the adapters and the toolbar *)

(** ** The replay of [importBackup] *)

Section Replay.
Context {DB : Type} `{Repository DB}.
Variable JSON_parse : string → option json.
Variable sortFolders : list Folder → list Folder.

(** X1.  [importBackup] rejects a text exactly as [JSONAdapter.deserialize]
    does: when the text does not parse, or is [null], or its [folders] or
    [files] is falsy, [importBackup] throws the same error, has called no
    function of the repository and has left every variable of the
    application as it was. *)
Theorem importBackup_rejects_untouched (jsonString : string) (e : exn) (w : World DB) :
  JSONAdapter_deserialize JSON_parse jsonString = Throw e →
  importBackup JSON_parse sortFolders jsonString w = (Throw e, w).
Proof.
  unfold JSONAdapter_deserialize, importBackup, bind, lift.
  destruct (parse JSON_parse jsonString) as [backup|e0]; [|congruence].
  destruct (check_backup "Invalid backup format" backup) as [[]|e0]; [discriminate|].
  congruence.
Qed.

Lemma importFolder_log m f w m1 w1 :
  importFolder m f w = (Ok m1, w1) →
  ∃ newId,
    m1 = set_entry (folder_id f) newId m
    ∧ calls w1 = calls w ++ CallCreateFolder (name f) (remap m (parentId f))
                   :: (if isOpen f then [] else [CallToggleFolderOpen newId]).
Proof.
  unfold importFolder, bind, await, ret. intros Hrun.
  destruct (createFolder _ _ (app w)) as [[newId|e] s0]; [|inversion Hrun].
  destruct (isOpen f); simpl in Hrun.
  - inversion Hrun; subst. exists newId. cbn. auto.
  - destruct (toggleFolderOpen newId s0) as [[[]|e] s1]; [|inversion Hrun].
    inversion Hrun; subst. exists newId.
    split; [reflexivity|]. cbn [calls]. rewrite <- app_assoc. reflexivity.
Qed.

Lemma importFolders_log l : ∀ m0 w m w',
  for_of_acc l m0 importFolder w = (Ok m, w') →
  ∃ cs, calls w' = calls w ++ cs
    ∧ omap created_name cs = name <$> l
    ∧ length (omap toggled cs) = length (filter (λ f, isOpen f = false) l)
    ∧ ∀ k, is_Some (m !! k) ↔ is_Some (m0 !! k) ∨ ∃ f, f ∈ l ∧ folder_id f = Some k.
Proof.
  induction l as [|x l IH]; intros m0 w m w' Hrun.
  - inversion Hrun; subst. exists []. rewrite app_nil_r. repeat split; auto.
    intros [?|(f & Hf & _)]; [done|inversion Hf].
  - simpl in Hrun.
    destruct (bind_inv _ _ _ _ _ Hrun) as [(e & _ & He)|(m1 & w1 & Hx & Hrest)];
      [discriminate|].
    destruct (importFolder_log _ _ _ _ _ Hx) as (newId & -> & Hc1).
    destruct (IH _ _ _ _ Hrest) as (cs & Hcs & Hnames & Htoggles & Hkeys).
    exists (CallCreateFolder (name x) (remap m0 (parentId x))
              :: (if isOpen x then [] else [CallToggleFolderOpen newId]) ++ cs).
    split; [rewrite Hcs, Hc1, <- app_assoc; reflexivity|].
    split; [|split].
    + destruct (isOpen x); cbn; rewrite Hnames; reflexivity.
    + rewrite filter_cons. destruct (isOpen x) eqn:Eo.
      * rewrite decide_False by discriminate. cbn. exact Htoggles.
      * rewrite decide_True by reflexivity. cbn. rewrite Htoggles. reflexivity.
    + intros k. rewrite Hkeys. unfold set_entry.
      destruct (folder_id x) as [kx|] eqn:Ex.
      * destruct (decide (kx = k)) as [->|Hne].
        -- rewrite lookup_insert_eq. split; [|eauto].
           intros _. right. exists x. split; [left|exact Ex].
        -- rewrite lookup_insert_ne by exact Hne. split.
           ++ intros [Hm|(f & Hf & Hid)]; [auto|]. right. exists f. split; [right|]; auto.
           ++ intros [Hm|(f & Hf & Hid)]; [auto|].
              apply elem_of_cons in Hf as [->|Hf]; [congruence|]. right. eauto.
      * split.
        -- intros [Hm|(f & Hf & Hid)]; [auto|]. right. exists f. split; [right|]; auto.
        -- intros [Hm|(f & Hf & Hid)]; [auto|].
           apply elem_of_cons in Hf as [->|Hf]; [congruence|]. right. eauto.
Qed.


(** X3.  In an import that completes, the [createFile] calls are those of
    the files of the backup, in order, and a file is created inside a
    folder (not with null) exactly when its [folderId] is the id of one of
    the replayed folders: [folderIdMap] has a key for these ids and for no
    other. *)
Theorem file_keeps_folder_iff_replayed (jsonString : string) (v : json)
    (data : BackupData) (w w' : World DB) :
  JSON_parse jsonString = Some v →
  as_backup v = Some data →
  importBackup JSON_parse sortFolders jsonString w = (Ok tt, w') →
  ∃ folderIdMap l,
    calls w' = calls w ++ l
    ∧ filter (λ c, is_createFile c) l = file_call folderIdMap <$> files data
    ∧ ∀ f, (∃ newFolderId,
              file_call folderIdMap f = CallCreateFile (Some newFolderId) (title f) (content f))
           ↔ (∃ k g, folderId f = Some k ∧ g ∈ sortFolders (folders data)
                     ∧ folder_id g = Some k).
Proof.
  intros Hp Hdata Hrun.
  rewrite (importBackup_typed _ _ _ _ _ _ Hp Hdata) in Hrun. unfold replay in Hrun.
  destruct (bind_inv _ _ _ _ _ Hrun) as [(e & _ & He)|([] & w1 & Hclear & Hrest)];
    [discriminate|].
  destruct (emits_clearExistingData _ _ _ Hclear) as (l1 & Hl1 & [_ Hw1]).
  unfold after_wipe in Hrest.
  destruct (bind_inv _ _ _ _ _ Hrest) as [(e & _ & He)|(m & w2 & Hfold & Hfin)];
    [discriminate|].
  destruct (emits_importFolders _ _ _ _ Hfold) as (l2 & Hl2 & [_ Hw2]).
  unfold after_folders in Hfin.
  destruct (bind_inv _ _ _ _ _ Hfin) as [(e & _ & He)|([] & w3 & Hfiles & Hlast)];
    [discriminate|].
  destruct (emits_refreshAndSelect _ _ _ Hlast) as (l4 & Hl4 & [_ Hw4]).
  exists m, (l1 ++ l2 ++ (file_call m <$> files data) ++ l4).
  split; [|split].
  - rewrite Hl4, (importFiles_ok _ _ _ _ Hfiles), Hl2, Hl1, <- !app_assoc. reflexivity.
  - rewrite !filter_app, filter_file_calls.
    rewrite (filter_outside _ 0 1 l1 Hw1), (filter_outside _ 2 2 l2 Hw2),
      (filter_outside _ 4 5 l4 Hw4).
    + cbn. apply app_nil_r.
    + intros c. apply not_createFile. lia.
    + intros c. apply not_createFile. lia.
    + intros c. apply not_createFile. lia.
  - intros f. unfold file_call.
    destruct (importFolders_log _ _ _ _ _ Hfold) as (_ & _ & _ & _ & Hkeys).
    split.
    + intros (n & Hn). injection Hn as Hn.
      unfold remap in Hn. destruct (folderId f) as [k|]; [|discriminate].
      destruct (m !! k) as [n'|] eqn:Hm; [|discriminate].
      destruct (proj1 (Hkeys k)) as [Hempty|(g & Hg & Hid)].
      * rewrite Hm. eauto.
      * rewrite lookup_empty in Hempty. destruct Hempty as [? ?]. discriminate.
      * exists k, g. auto.
    + intros (k & g & Hk & Hg & Hid).
      destruct (proj2 (Hkeys k)) as [n Hn]; [right; eauto|].
      exists n. unfold remap. rewrite Hk, Hn. reflexivity.
Qed.
End Replay.

(** ** The adapters and the cloud functions *)

Section CloudFacts.
Context {DB : Type} `{Repository DB} {N : Type} `{Network N}.
Variable JSON_parse : string → option json.
Variable JSON_stringify : json → string.
Variable JSON_stringify_compact : json → string.
Variable sortFolders : list Folder → list Folder.
Variable clock : nat → string.
Variable btoa : string → outcome string.
Variable ToString_other : json → string.

Lemma with_world_id (c : Cloud DB N) : with_world c (world c) = c.
Proof. destruct c; reflexivity. Qed.

Lemma with_object_id (c : Cloud DB N) r a :
  objects c !! r = Some a → with_object c r a = c.
Proof. intros Hr. unfold with_object. rewrite (insert_id _ _ _ Hr). destruct c; reflexivity. Qed.

Lemma deref_ok (c : Cloud DB N) r a : objects c !! r = Some a → deref r c = (Ok a, c).
Proof. intros Hr. unfold deref. rewrite Hr. reflexivity. Qed.

Lemma adapterToUse_default (adapter : option ref) (c : Cloud DB N) :
  adapterToUse adapter c = (Ok (default (currentAdapter c) adapter), c).
Proof. destruct adapter; reflexivity. Qed.

Lemma exportBackupWithAdapter_run (adapter : option ref) (c : Cloud DB N) (a : Adapter) :
  objects c !! default (currentAdapter c) adapter = Some a →
  exportBackupWithAdapter JSON_stringify clock adapter c
  = (Ok (JSON_stringify (backup_literal (clock (ticks c))
                           (st_folders (app (world c))) (st_files (app (world c))))),
     tick c).
Proof.
  intros Ha. unfold exportBackupWithAdapter, and_then. rewrite adapterToUse_default.
  unfold in_app, read. rewrite !with_world_id.
  unfold serialize, and_then. rewrite (deref_ok _ _ _ Ha).
  destruct a; reflexivity.
Qed.

(** X4.  The export does not depend on the adapter.  Whichever adapter
    is passed, and with the current adapter when none is,
    [exportBackupWithAdapter] returns the text [exportBackup] returns at
    the same reading of the clock; it reads the clock once and changes
    nothing else. *)
Theorem exportBackupWithAdapter_same_text (adapter : option ref) (c : Cloud DB N)
    (a : Adapter) :
  objects c !! default (currentAdapter c) adapter = Some a →
  let text := JSON_stringify (backup_literal (clock (ticks c))
                                (st_folders (app (world c))) (st_files (app (world c)))) in
  exportBackupWithAdapter JSON_stringify clock adapter c = (Ok text, tick c)
  ∧ exportBackup JSON_stringify (clock (ticks c)) (world c) = (Ok text, world c).
Proof.
  intros Ha text. split; [|reflexivity].
  unfold exportBackupWithAdapter, and_then.
  assert (adapterToUse adapter c = (Ok (default (currentAdapter c) adapter), c)) as ->
    by (destruct adapter; reflexivity).
  unfold in_app, read. rewrite !with_world_id.
  unfold serialize, and_then. rewrite (deref_ok _ _ _ Ha).
  destruct a; reflexivity.
Qed.

Lemma adapter_deserialize_check (a : Adapter) (data : string) :
  adapter_deserialize JSON_parse a data =
  match parse JSON_parse data with
  | Throw e => Throw e
  | Ok backup =>
      match check_backup (format_message a) backup with
      | Throw e => Throw e
      | Ok _ => Ok backup
      end
  end.
Proof. destruct a; reflexivity. Qed.

Lemma check_backup_message (msg msg' : string) (backup : json) :
  check_backup msg' backup =
  match check_backup msg backup with
  | Ok u => Ok u
  | Throw (Error _) => Throw (Error msg')
  | Throw e => Throw e
  end.
Proof.
  unfold check_backup.
  destruct (get_prop "folders" backup) as [bfolders|e] eqn:Ef.
  - destruct (truthy bfolders); cbn; [|reflexivity].
    destruct (get_prop "files" backup) as [bfiles|e] eqn:Ed.
    + destruct (truthy bfiles); reflexivity.
    + destruct backup; cbn in Ed; inversion Ed; reflexivity.
  - destruct backup; cbn in Ef; inversion Ef; reflexivity.
Qed.

(** X5.  The three [deserialize] methods accept the same texts and return
    the same document; a text one of them rejects is rejected by each of
    them, with the same SyntaxError or TypeError, or with the error of the
    format check, which differs in its message only. *)
Theorem adapters_differ_in_message_only (a b : Adapter) (data : string) :
  adapter_deserialize JSON_parse b data =
  match adapter_deserialize JSON_parse a data with
  | Ok backup => Ok backup
  | Throw (Error _) => Throw (Error (format_message b))
  | Throw e => Throw e
  end.
Proof.
  rewrite !adapter_deserialize_check. unfold parse.
  destruct (JSON_parse data) as [backup|]; [|reflexivity].
  rewrite (check_backup_message (format_message a) (format_message b)).
  destruct (check_backup (format_message a) backup) as [[]|[]]; reflexivity.
Qed.


(** X7.  The JSON adapter has no remote side: [uploadToCloud] and
    [downloadFromCloud] throw [JSON File does not support cloud uploads]
    (resp. [downloads]) before anything is serialized, sent or imported. *)
Theorem json_adapter_has_no_cloud (adapter : ref) (id : string) (c : Cloud DB N) :
  objects c !! adapter = Some JSONAdapter →
  uploadToCloud JSON_parse JSON_stringify JSON_stringify_compact clock btoa ToString_other
    adapter c
  = (Throw (Error "JSON File does not support cloud uploads"), c)
  ∧ downloadFromCloud JSON_parse sortFolders adapter id c
    = (Throw (Error "JSON File does not support cloud downloads"), c).
Proof.
  intros Ha. unfold uploadToCloud, downloadFromCloud, and_then.
  rewrite (deref_ok _ _ _ Ha). split; reflexivity.
Qed.

Variable message_text : exn → string.
Variable object_url : nat → string.

(** ** [GoogleDriveAdapter] *)

Lemma after_calls_cons {S K} (call : K → St S unit) (k : K) (ks : list K) (s : S) :
  after_calls call (k :: ks) s = after_calls call ks (snd (call k s)).
Proof. reflexivity. Qed.

Lemma GoogleDrive_call_new (k : GoogleDriveCall) (c : Cloud DB N) :
  GoogleDrive_call JSON_parse JSON_stringify_compact clock ToString_other k
    (GoogleDrive_new, c)
  = (Throw (Error "Implement Google OAuth flow"), (GoogleDrive_new, c)).
Proof. destruct k; reflexivity. Qed.

(** X8.  A [GoogleDriveAdapter] never reaches the network.  Whatever
    calls of [authenticate], [uploadToRemote] and [downloadFromRemote] are
    made on a new adapter, its fields stay as the constructor left them
    ([accessToken] null), no request is sent, the clock is not read, and
    every further call throws [Implement Google OAuth flow]. *)
Theorem GoogleDriveAdapter_never_sends (ks : list GoogleDriveCall) (c : Cloud DB N) :
  let call := GoogleDrive_call JSON_parse JSON_stringify_compact clock ToString_other in
  after_calls call ks (GoogleDrive_new, c) = (GoogleDrive_new, c)
  ∧ ∀ k, call k (after_calls call ks (GoogleDrive_new, c))
         = (Throw (Error "Implement Google OAuth flow"), (GoogleDrive_new, c)).
Proof.
  intros call.
  assert (after_calls call ks (GoogleDrive_new, c) = (GoogleDrive_new, c)) as Hsame.
  { induction ks as [|k ks IH]; [reflexivity|].
    rewrite after_calls_cons. unfold call at 2.
    rewrite GoogleDrive_call_new. exact IH. }
  split; [exact Hsame|].
  intros k. rewrite Hsame. apply GoogleDrive_call_new.
Qed.

Lemma GoogleDrive_upload_fails (data : string) (t : GoogleDriveFields) (c : Cloud DB N) :
  truthy_string (accessToken t) = false →
  GoogleDriveAdapter_uploadToRemote JSON_parse JSON_stringify_compact clock ToString_other
    data (t, c)
  = (Throw (Error "Implement Google OAuth flow"), (t, c)).
Proof.
  intros Htoken.
  unfold GoogleDriveAdapter_uploadToRemote, ensure_accessToken, and_then, this, get.
  cbn [fst snd]. rewrite Htoken. reflexivity.
Qed.

Lemma GoogleDrive_download_fails (id : string) (t : GoogleDriveFields) (c : Cloud DB N) :
  truthy_string (accessToken t) = false →
  GoogleDriveAdapter_downloadFromRemote id (t, c)
  = (Throw (Error "Implement Google OAuth flow"), (t, c)).
Proof.
  intros Htoken.
  unfold GoogleDriveAdapter_downloadFromRemote, ensure_accessToken, and_then, this, get.
  cbn [fst snd]. rewrite Htoken. reflexivity.
Qed.

(** X9.  With a Google Drive adapter that has no access token,
    [uploadToCloud] throws [Implement Google OAuth flow] after the backup
    was serialized (one reading of the clock, nothing sent), and
    [downloadFromCloud] throws it with nothing changed: the workspace is
    not touched. *)
Theorem google_drive_cloud_always_rejects (adapter : ref) (id : string)
    (c : Cloud DB N) (t : GoogleDriveFields) :
  objects c !! adapter = Some (GoogleDriveAdapter t) →
  truthy_string (accessToken t) = false →
  uploadToCloud JSON_parse JSON_stringify JSON_stringify_compact clock btoa ToString_other
    adapter c
  = (Throw (Error "Implement Google OAuth flow"), tick c)
  ∧ downloadFromCloud JSON_parse sortFolders adapter id c
    = (Throw (Error "Implement Google OAuth flow"), c).
Proof.
  intros Ha Htoken. split.
  - unfold uploadToCloud, and_then. rewrite (deref_ok _ _ _ Ha). cbn [has_uploadToRemote negb].
    rewrite (exportBackupWithAdapter_run (Some adapter) c _ Ha).
    unfold uploadToRemote, and_then.
    assert (objects (tick c) !! adapter = Some (GoogleDriveAdapter t)) as Ha' by exact Ha.
    rewrite (deref_ok _ _ _ Ha').
    unfold invoke. rewrite (GoogleDrive_upload_fails _ _ _ Htoken).
    rewrite (with_object_id _ _ _ Ha'). reflexivity.
  - unfold downloadFromCloud, and_then. rewrite (deref_ok _ _ _ Ha).
    cbn [has_downloadFromRemote negb].
    unfold downloadFromRemote, and_then. rewrite (deref_ok _ _ _ Ha).
    unfold invoke. rewrite (GoogleDrive_download_fails _ _ _ Htoken).
    rewrite (with_object_id _ _ _ Ha). reflexivity.
Qed.

(** ** [GitHubAdapter] *)

Lemma unconfigured_without_repository (t : GitHubFields) :
  owner t = "" ∨ repo t = "" → unconfigured t = true.
Proof.
  unfold unconfigured. intros [-> | ->]; cbn; rewrite ?orb_true_r; reflexivity.
Qed.

Lemma GitHub_unconfigured_upload (data : string) (t : GitHubFields) (c : Cloud DB N) :
  unconfigured t = true →
  GitHubAdapter_uploadToRemote JSON_parse JSON_stringify_compact clock btoa data (t, c)
  = (Throw (Error "GitHub credentials not configured"), (t, c)).
Proof.
  intros Hu. unfold GitHubAdapter_uploadToRemote, and_then, this, get. cbn [fst].
  rewrite Hu. reflexivity.
Qed.

Lemma GitHub_unconfigured_download (filePath : string) (t : GitHubFields)
    (c : Cloud DB N) :
  unconfigured t = true →
  GitHubAdapter_downloadFromRemote filePath (t, c)
  = (Throw (Error "GitHub credentials not configured"), (t, c)).
Proof.
  intros Hu. unfold GitHubAdapter_downloadFromRemote, and_then, this, get. cbn [fst].
  rewrite Hu. reflexivity.
Qed.

(** [authenticate]: the token is assigned first, then one request is
    sent; the fields and the log are the same however it ends. *)
Lemma GitHub_authenticate_run (tok : string) (t : GitHubFields) (c : Cloud DB N) :
  let t' := mkGitHub (Some tok) (owner t) (repo t) in
  ∃ r n,
    GitHubAdapter_authenticate tok (t, c) = (r, (t', sent c (user_request t') n))
    ∧ n = snd (fetch (user_request t') (net c))
    ∧ (∀ response, fst (fetch (user_request t') (net c)) = Ok response →
                   resp_ok response = false → r = Throw (Error "Invalid GitHub token")).
Proof.
  intros t'. unfold GitHubAdapter_authenticate, and_then, assign_this, modify, this, get,
    outside, await_fetch. cbn [fst snd].
  fold t'. destruct (fetch (user_request t') (net c)) as [[response|e] n] eqn:Hf.
  - destruct (resp_ok response) eqn:Hok; cbn.
    + exists (Ok tt), n. split; [reflexivity|]. split; [reflexivity|].
      intros response' Heq. inversion Heq; subst. congruence.
    + exists (Throw (Error "Invalid GitHub token")), n. auto.
  - exists (Throw e), n. split; [reflexivity|]. split; [reflexivity|]. discriminate.
Qed.

Lemma GitHub_history (ks : list GitHubCall) : ∀ (t : GitHubFields) (c : Cloud DB N),
  owner t = "" ∨ repo t = "" →
  ∃ t' c',
    after_calls (GitHub_call JSON_parse JSON_stringify_compact clock btoa) ks (t, c)
    = (t', c')
    ∧ owner t' = owner t ∧ repo t' = repo t
    ∧ requests c' = requests c
                    ++ ((λ tok, user_request (mkGitHub (Some tok) (owner t) (repo t)))
                          <$> tokens ks).
Proof.
  induction ks as [|k ks IH]; intros t c Hrepo.
  - exists t, c. cbn. rewrite app_nil_r. auto.
  - rewrite after_calls_cons.
    destruct k as [tok|data|filePath]; cbn [GitHub_call].
    + destruct (GitHub_authenticate_run tok t c) as (r & n & -> & _ & _). cbn [snd].
      destruct (IH (mkGitHub (Some tok) (owner t) (repo t))
                  (sent c (user_request (mkGitHub (Some tok) (owner t) (repo t))) n)
                  Hrepo) as (t' & c' & -> & Ho & Hr & Hreq).
      exists t', c'. split; [reflexivity|]. split; [exact Ho|]. split; [exact Hr|].
      rewrite Hreq. cbn. rewrite <- app_assoc. reflexivity.
    + unfold discard, and_then.
      rewrite (GitHub_unconfigured_upload data t c (unconfigured_without_repository t Hrepo)).
      cbn [snd]. apply IH. exact Hrepo.
    + unfold discard, and_then.
      rewrite (GitHub_unconfigured_download filePath t c
                 (unconfigured_without_repository t Hrepo)).
      cbn [snd]. apply IH. exact Hrepo.
Qed.

(** X10.  [owner] and [repo] are fixed by the constructor.  On a
    [GitHubAdapter] built without an owner or without a repository (as
    [new GitHubAdapter()] in the toolbar), after any calls of its methods,
    [uploadToRemote] and [downloadFromRemote] throw
    [GitHub credentials not configured] and send nothing, also after
    [authenticate]; the requests sent are the one request of each
    [authenticate] call. *)
Theorem GitHubAdapter_without_repository (ks : list GitHubCall)
    (owner' repo' : option string) (c : Cloud DB N) :
  or_empty owner' = "" ∨ or_empty repo' = "" →
  let s := after_calls (GitHub_call JSON_parse JSON_stringify_compact clock btoa) ks
             (GitHub_new owner' repo', c) in
  (∀ data,
     GitHubAdapter_uploadToRemote JSON_parse JSON_stringify_compact clock btoa data s
     = (Throw (Error "GitHub credentials not configured"), s))
  ∧ (∀ filePath,
       GitHubAdapter_downloadFromRemote filePath s
       = (Throw (Error "GitHub credentials not configured"), s))
  ∧ requests (snd s)
    = requests c
      ++ ((λ tok, user_request (mkGitHub (Some tok) (or_empty owner') (or_empty repo')))
            <$> tokens ks).
Proof.
  intros Hrepo s.
  destruct (GitHub_history ks (GitHub_new owner' repo') c Hrepo)
    as (t' & c' & Hs & Ho & Hr & Hreq).
  subst s. rewrite Hs. cbn [snd].
  assert (unconfigured t' = true) as Hu.
  { apply unconfigured_without_repository. rewrite Ho, Hr. exact Hrepo. }
  split; [|split].
  - intros data. apply GitHub_unconfigured_upload. exact Hu.
  - intros filePath. apply GitHub_unconfigured_download. exact Hu.
  - exact Hreq.
Qed.

(** The run of [uploadToRemote] on a configured adapter, up to the answer
    to its first request. *)
Lemma GitHub_upload_starts (data : string) (t : GitHubFields) (c : Cloud DB N) :
  unconfigured t = false →
  ∃ r c' rest,
    GitHubAdapter_uploadToRemote JSON_parse JSON_stringify_compact clock btoa data (t, c)
    = (r, (t, c'))
    ∧ requests c' = requests c
                    ++ existing_request t (backup_path (clock (ticks c))) :: rest.
Proof.
  intros Hu. unfold GitHubAdapter_uploadToRemote, and_then, this, get. cbn [fst].
  rewrite Hu. unfold outside, toISOString, await_fetch, of_outcome, response_json.
  cbn [fst snd tick net requests sent ticks].
  set (path := backup_path (clock (ticks c))).
  destruct (fetch (existing_request t path) (net c)) as [[existing|e] n1];
    [|eexists _, _, []; split; reflexivity].
  destruct (existing_sha JSON_parse existing) as [sha|e];
    [|eexists _, _, []; split; reflexivity].
  destruct (btoa data) as [content|e]; [|eexists _, _, []; split; reflexivity].
  cbn [fst snd tick net requests sent ticks].
  match goal with |- context [fetch ?q n1] => set (put := q) end.
  destruct (fetch put n1) as [[response|e] n2].
  - destruct (read_json JSON_parse response) as [v|e];
      eexists _, _, [put]; (split; [reflexivity|]);
      cbn [snd requests sent tick]; rewrite <- app_assoc; reflexivity.
  - eexists _, _, [put]. split; [reflexivity|].
    cbn [snd requests sent tick]. rewrite <- app_assoc. reflexivity.
Qed.

(** X11.  [authenticate(token)] stores the token before it verifies it,
    and keeps it when the verification fails.  On an adapter with an owner
    and a repository, whatever [authenticate] returned (an answer that is
    not ok makes it throw [Invalid GitHub token]), a following
    [uploadToRemote] passes the credentials check and sends its first
    request with that token. *)
Theorem GitHubAdapter_keeps_rejected_token (tok data : string) (t : GitHubFields)
    (c : Cloud DB N) :
  tok ≠ "" → owner t ≠ "" → repo t ≠ "" →
  let t' := mkGitHub (Some tok) (owner t) (repo t) in
  ∃ r c1 r2 c2 rest,
    GitHubAdapter_authenticate tok (t, c) = (r, (t', c1))
    ∧ (∀ response, fst (fetch (user_request t') (net c)) = Ok response →
                   resp_ok response = false → r = Throw (Error "Invalid GitHub token"))
    ∧ GitHubAdapter_uploadToRemote JSON_parse JSON_stringify_compact clock btoa data (t', c1)
      = (r2, (t', c2))
    ∧ requests c2 = requests c
                    ++ user_request t'
                    :: existing_request t' (backup_path (clock (ticks c))) :: rest.
Proof.
  intros Htok Howner Hrepo t'.
  destruct (GitHub_authenticate_run tok t c) as (r & n & Hauth & _ & Hrejected).
  fold t' in Hauth, Hrejected.
  assert (unconfigured t' = false) as Hu.
  { unfold unconfigured, t'. cbn.
    apply String.eqb_neq in Htok, Howner, Hrepo. rewrite Htok, Howner, Hrepo. reflexivity. }
  destruct (GitHub_upload_starts data t' (sent c (user_request t') n) Hu)
    as (r2 & c2 & rest & Hup & Hreq).
  exists r, (sent c (user_request t') n), r2, c2, rest.
  split; [exact Hauth|]. split; [exact Hrejected|]. split; [exact Hup|].
  rewrite Hreq. cbn [requests sent ticks]. rewrite <- app_assoc. reflexivity.
Qed.

(** The run of [uploadToRemote] on a configured adapter when both
    requests are answered: the [ok] of the second answer is not read. *)
Lemma GitHub_upload_run (data : string) (t : GitHubFields)
    (c : Cloud DB N) (existing : Response) (n1 : N) (sha : jsval) (content : string)
    (response : Response) (n2 : N) (result : json) :
  unconfigured t = false →
  let filePath := backup_path (clock (ticks c)) in
  let put := put_request t filePath
               (put_body JSON_stringify_compact (clock (S (ticks c))) content sha) in
  fetch (existing_request t filePath) (net c) = (Ok existing, n1) →
  existing_sha JSON_parse existing = Ok sha →
  btoa data = Ok content →
  fetch put n1 = (Ok response, n2) →
  read_json JSON_parse response = Ok result →
  GitHubAdapter_uploadToRemote JSON_parse JSON_stringify_compact clock btoa data (t, c)
  = (Ok (mkUploadResult (Some (JStr filePath)) (Some (blob_url t filePath))),
     (t, mkCloud (world c) (currentAdapter c) (objects c) n2
           (requests c ++ [existing_request t filePath; put])
           (S (S (ticks c))) (ui c))).
Proof.
  intros Hu filePath put Hget Hsha Hbtoa Hput Hjson.
  unfold GitHubAdapter_uploadToRemote, and_then, this, get. cbn [fst].
  rewrite Hu. unfold outside, toISOString, await_fetch, of_outcome, response_json.
  cbn [fst snd tick net requests sent ticks].
  fold filePath. rewrite Hget, Hsha, Hbtoa.
  cbn [fst snd tick net requests sent ticks].
  fold put. rewrite Hput, Hjson. unfold sent, tick.
  cbn [fst snd net requests ticks world currentAdapter objects ui].
  rewrite <- app_assoc. reflexivity.
Qed.

(** X12.  [uploadToCloud] with a configured [GitHubAdapter] serializes
    the workspace, then sends two requests to the same URL: a [GET], and a
    [PUT] whose body holds [btoa] of the serialized workspace and the [sha]
    of the [GET]'s answer when that answer was ok.  When both get an answer
    and the body of the [PUT]'s answer is JSON, it returns the path
    [backups/backup-<date>.json] and its URL: the [ok] of the [PUT]'s
    answer is not looked at.  The clock is read three times; the workspace
    and the adapter are as before. *)
Theorem uploadToCloud_ignores_put_status (adapter : ref) (t : GitHubFields)
    (c : Cloud DB N) (existing : Response) (n1 : N) (sha : jsval) (content : string)
    (response : Response) (n2 : N) (result : json) :
  objects c !! adapter = Some (GitHubAdapter t) →
  unconfigured t = false →
  let text := JSON_stringify (backup_literal (clock (ticks c))
                                (st_folders (app (world c))) (st_files (app (world c)))) in
  let filePath := backup_path (clock (S (ticks c))) in
  let put := put_request t filePath
               (put_body JSON_stringify_compact (clock (S (S (ticks c)))) content sha) in
  fetch (existing_request t filePath) (net c) = (Ok existing, n1) →
  existing_sha JSON_parse existing = Ok sha →
  btoa text = Ok content →
  fetch put n1 = (Ok response, n2) →
  read_json JSON_parse response = Ok result →
  uploadToCloud JSON_parse JSON_stringify JSON_stringify_compact clock btoa ToString_other
    adapter c
  = (Ok (mkUploadResult (Some (JStr filePath)) (Some (blob_url t filePath))),
     mkCloud (world c) (currentAdapter c) (objects c) n2
       (requests c ++ [existing_request t filePath; put])
       (S (S (S (ticks c)))) (ui c)).
Proof.
  intros Ha Hu text filePath put Hget Hsha Hbtoa Hput Hjson.
  unfold uploadToCloud, and_then. rewrite (deref_ok _ _ _ Ha). cbn [has_uploadToRemote negb].
  rewrite (exportBackupWithAdapter_run (Some adapter) c _ Ha). fold text.
  unfold uploadToRemote, and_then.
  assert (objects (tick c) !! adapter = Some (GitHubAdapter t)) as Ha' by exact Ha.
  rewrite (deref_ok _ _ _ Ha'). unfold invoke.
  rewrite (GitHub_upload_run text t (tick c) existing n1 sha content response n2 result
             Hu Hget Hsha Hbtoa Hput Hjson).
  cbn [tick world currentAdapter objects net requests ticks ui].
  apply f_equal. apply with_object_id. exact Ha.
Qed.

(** X13.  When [btoa] rejects the data (a character outside Latin-1),
    [uploadToRemote] of a configured [GitHubAdapter] throws that error after
    the [GET] was sent and answered: the [PUT] is never sent, so nothing is
    written. *)
Theorem GitHubAdapter_upload_stops_at_btoa (data : string) (t : GitHubFields)
    (c : Cloud DB N) (existing : Response) (n1 : N) (sha : jsval) (e : exn) :
  unconfigured t = false →
  let filePath := backup_path (clock (ticks c)) in
  fetch (existing_request t filePath) (net c) = (Ok existing, n1) →
  existing_sha JSON_parse existing = Ok sha →
  btoa data = Throw e →
  GitHubAdapter_uploadToRemote JSON_parse JSON_stringify_compact clock btoa data (t, c)
  = (Throw e,
     (t, mkCloud (world c) (currentAdapter c) (objects c) n1
           (requests c ++ [existing_request t filePath])
           (S (S (ticks c))) (ui c))).
Proof.
  intros Hu filePath Hget Hsha Hbtoa.
  unfold GitHubAdapter_uploadToRemote, and_then, this, get. cbn [fst].
  rewrite Hu. unfold outside, toISOString, await_fetch, of_outcome.
  cbn [fst snd tick net requests sent ticks].
  fold filePath. rewrite Hget, Hsha, Hbtoa. unfold sent, tick.
  cbn [fst snd net requests ticks world currentAdapter objects ui].
  reflexivity.
Qed.

(** ** [downloadFromCloud] *)

(** A download changes neither the application nor the class of the
    adapter. *)
Lemma downloadFromRemote_keeps (adapter : ref) (id : string) (c : Cloud DB N)
    (a : Adapter) (r : outcome string) (c1 : Cloud DB N) :
  objects c !! adapter = Some a →
  downloadFromRemote adapter id c = (r, c1) →
  world c1 = world c
  ∧ ∃ a', objects c1 !! adapter = Some a' ∧ format_message a' = format_message a.
Proof.
  intros Ha. unfold downloadFromRemote, and_then. rewrite (deref_ok _ _ _ Ha).
  destruct a as [|t|t].
  - intros Hrun. inversion Hrun; subst. eauto.
  - unfold invoke, GoogleDriveAdapter_downloadFromRemote, ensure_accessToken,
      GoogleDriveAdapter_authenticate, requestGoogleAuth, and_then, this, get, raise,
      outside, await_fetch, response_text, of_outcome, pure.
    cbn [fst snd].
    destruct (truthy_string (accessToken t)); cbn [negb fst snd].
    + match goal with |- context [fetch ?q (net c)] => destruct (fetch q (net c)) as [[response|e] n] end;
        intros Hrun; inversion Hrun; subst; cbn;
        (split; [reflexivity|]); eexists; (split; [apply lookup_insert_eq|reflexivity]).
    + intros Hrun; inversion Hrun; subst; cbn.
      split; [reflexivity|]. eexists. split; [apply lookup_insert_eq|reflexivity].
  - unfold invoke, GitHubAdapter_downloadFromRemote, and_then, this, get, raise,
      outside, await_fetch, response_text, of_outcome.
    cbn [fst snd].
    destruct (unconfigured t); cbn [fst snd].
    + intros Hrun; inversion Hrun; subst; cbn.
      split; [reflexivity|]. eexists. split; [apply lookup_insert_eq|reflexivity].
    + destruct (fetch (raw_request t id) (net c)) as [[response|e] n];
        intros Hrun; inversion Hrun; subst; cbn;
        (split; [reflexivity|]); eexists; (split; [apply lookup_insert_eq|reflexivity]).
Qed.

(** X14.  [downloadFromCloud] does not touch the workspace when what it
    downloaded is not a backup: the error of the adapter's [deserialize] is
    thrown, and the application state and its call log are as before the
    call.  (The download itself does not check [response.ok], so the text
    may be the error document of the server.) *)
Theorem downloadFromCloud_rejects_before_wipe (adapter : ref) (id : string)
    (c : Cloud DB N) (a : Adapter) (data : string) (c1 : Cloud DB N) (e : exn) :
  objects c !! adapter = Some a →
  downloadFromRemote adapter id c = (Ok data, c1) →
  adapter_deserialize JSON_parse a data = Throw e →
  downloadFromCloud JSON_parse sortFolders adapter id c = (Throw e, c1)
  ∧ world c1 = world c.
Proof.
  intros Ha Hdown Hbad.
  destruct (downloadFromRemote_keeps _ _ _ _ _ _ Ha Hdown) as (Hworld & a' & Ha' & Hclass).
  split; [|exact Hworld].
  unfold downloadFromCloud, and_then. rewrite (deref_ok _ _ _ Ha).
  assert (has_downloadFromRemote a = true) as ->.
  { destruct a; [|reflexivity|reflexivity].
    unfold downloadFromRemote, and_then in Hdown. rewrite (deref_ok _ _ _ Ha) in Hdown.
    discriminate. }
  cbn [negb]. rewrite Hdown.
  unfold importBackupWithAdapter, and_then. cbn [adapterToUse pure].
  unfold deserialize, and_then, of_outcome. rewrite (deref_ok _ _ _ Ha').
  rewrite adapter_deserialize_check, Hclass, <- adapter_deserialize_check, Hbad.
  reflexivity.
Qed.

(** ** The handlers of the toolbar *)

Lemma reader_onload_run (content : string) (c : Cloud DB N) (r : outcome unit)
    (w' : World DB) :
  importBackup JSON_parse sortFolders content (world c) = (r, w') →
  r ≠ Throw ShapeError →
  reader_onload JSON_parse sortFolders message_text content c
  = (Ok tt,
     mkCloud w' (currentAdapter c) (objects c) (net c) (requests c) (ticks c)
       (ui c ++ [UiAlert (import_report message_text r)])).
Proof.
  intros Hrun Hshape.
  unfold reader_onload, try_catch, in_app, alert, ui_event, modify, shown, and_then.
  rewrite Hrun. unfold with_world.
  destruct r as [[]|e]; cbn [import_report world currentAdapter objects net requests ticks ui].
  - reflexivity.
  - destruct e; cbn [world currentAdapter objects net requests ticks ui];
      try reflexivity.
    exfalso. apply Hshape. reflexivity.
Qed.

(** X15.  [handleImportFile] reports every outcome of the import and
    never throws: for the first picked file it starts the read, resets the
    input, and the [onload] handler shows one alert,
    [Backup imported successfully!] when [importBackup] completed and
    [Failed to import backup: ] followed by the message of the error
    otherwise; the application is left as [importBackup] left it.  Without
    a picked file nothing happens.  (An import that stops with [ShapeError]
    is outside the documents this development follows.) *)
Theorem handleImportFile_reports (content : string) (rest : list PickedFile)
    (c : Cloud DB N) (r : outcome unit) (w' : World DB) :
  importBackup JSON_parse sortFolders content (world c) = (r, w') →
  r ≠ Throw ShapeError →
  handleImportFile JSON_parse sortFolders message_text (Some (Some content :: rest)) c
  = (Ok tt,
     mkCloud w' (currentAdapter c) (objects c) (net c) (requests c) (ticks c)
       (ui c ++ [UiReadAsText (Some content); UiSetValue "";
                 UiAlert (import_report message_text r)]))
  ∧ handleImportFile JSON_parse sortFolders message_text None c = (Ok tt, c)
  ∧ handleImportFile JSON_parse sortFolders message_text (Some []) c = (Ok tt, c).
Proof.
  intros Hrun Hshape. split; [|split; reflexivity].
  unfold handleImportFile. cbn [first_file head].
  unfold ui_event, modify, and_then.
  rewrite (reader_onload_run content _ r w'); [|exact Hrun|exact Hshape].
  unfold shown. cbn [world currentAdapter objects net requests ticks ui].
  rewrite <- !app_assoc. reflexivity.
Qed.

(** X16.  With the adapters the toolbar constructs
    ([new JSONAdapter()], [new GoogleDriveAdapter()], [new GitHubAdapter()]),
    [handleExportWithAdapter] can only export to a file: for [json-file]
    it offers the serialized workspace for download; for [google-drive]
    it throws [Implement Google OAuth flow] and for [github]
    [GitHub credentials not configured]; for any other selection it does
    nothing.  It never shows an alert, sends no request and leaves the
    workspace as it was. *)
Theorem toolbar_exports_only_to_file (selectedAdapter : string) (r1 r2 r3 : ref)
    (c : Cloud DB N) :
  objects c !! r1 = Some JSONAdapter →
  objects c !! r2 = Some new_GoogleDriveAdapter →
  objects c !! r3 = Some (new_GitHubAdapter None None) →
  let text := JSON_stringify (backup_literal (clock (ticks c))
                                (st_folders (app (world c))) (st_files (app (world c)))) in
  let url := object_url (length (ui c)) in
  ∃ res c' events,
    handleExportWithAdapter JSON_parse JSON_stringify JSON_stringify_compact clock btoa
      ToString_other object_url selectedAdapter [r1; r2; r3] c = (res, c')
    ∧ world c' = world c ∧ objects c' = objects c ∧ requests c' = requests c
    ∧ ui c' = ui c ++ events
    ∧ (∀ m, UiAlert m ∉ events)
    ∧ (selectedAdapter = "json-file" →
       res = Ok tt
       ∧ events = [UiCreateObjectURL (mkBlob text "application/json");
                   UiClick url (dated "sveltemark-backup-" (clock (S (ticks c))));
                   UiRevokeObjectURL url])
    ∧ (selectedAdapter = "google-drive" →
       res = Throw (Error "Implement Google OAuth flow") ∧ events = [])
    ∧ (selectedAdapter = "github" →
       res = Throw (Error "GitHub credentials not configured") ∧ events = [])
    ∧ (selectedAdapter ≠ "json-file" → selectedAdapter ≠ "google-drive" →
       selectedAdapter ≠ "github" → res = Ok tt ∧ c' = c).
Proof.
  intros H1 H2 H3 text url.
  unfold handleExportWithAdapter, and_then. cbn [find_adapter]. unfold and_then.
  rewrite (deref_ok _ _ _ H1). cbn [adapter_id].
  destruct (String.eqb_spec "json-file" selectedAdapter) as [<-|Hjson].
  { cbn [pure]. rewrite (deref_ok _ _ _ H1). cbn [adapter_id String.eqb Ascii.eqb Bool.eqb].
    rewrite (exportBackupWithAdapter_run (Some r1) c _ H1). fold text.
    eexists _, _, [_; _; _]. split; [reflexivity|].
    cbn. rewrite <- !app_assoc. fold url.
    repeat split; try discriminate; try congruence.
    intros m Hm. repeat (apply elem_of_cons in Hm as [Hm|Hm]; [discriminate|]).
    inversion Hm. }
  rewrite (deref_ok _ _ _ H2). cbn [adapter_id new_GoogleDriveAdapter].
  destruct (String.eqb_spec "google-drive" selectedAdapter) as [<-|Hdrive].
  { cbn [pure]. rewrite (deref_ok _ _ _ H2).
    cbn [adapter_id new_GoogleDriveAdapter String.eqb Ascii.eqb Bool.eqb has_uploadToRemote].
    unfold uploadToCloud, and_then. rewrite (deref_ok _ _ _ H2).
    cbn [has_uploadToRemote new_GoogleDriveAdapter negb].
    rewrite (exportBackupWithAdapter_run (Some r2) c _ H2).
    unfold uploadToRemote, and_then.
    assert (objects (tick c) !! r2 = Some new_GoogleDriveAdapter) as H2' by exact H2.
    rewrite (deref_ok _ _ _ H2'). cbn [new_GoogleDriveAdapter]. unfold invoke.
    rewrite GoogleDrive_upload_fails by reflexivity.
    rewrite (with_object_id (tick c) r2 (GoogleDriveAdapter GoogleDrive_new) H2').
    eexists _, _, []. split; [reflexivity|]. cbn. rewrite app_nil_r.
    repeat split; try discriminate; try congruence.
    intros m Hm. inversion Hm. }
  rewrite (deref_ok _ _ _ H3). cbn [adapter_id new_GitHubAdapter].
  destruct (String.eqb_spec "github" selectedAdapter) as [<-|Hgithub].
  { cbn [pure]. rewrite (deref_ok _ _ _ H3).
    cbn [adapter_id new_GitHubAdapter String.eqb Ascii.eqb Bool.eqb has_uploadToRemote].
    unfold uploadToCloud, and_then. rewrite (deref_ok _ _ _ H3).
    cbn [has_uploadToRemote new_GitHubAdapter negb].
    rewrite (exportBackupWithAdapter_run (Some r3) c _ H3).
    unfold uploadToRemote, and_then.
    assert (objects (tick c) !! r3 = Some (new_GitHubAdapter None None)) as H3' by exact H3.
    rewrite (deref_ok _ _ _ H3'). cbn [new_GitHubAdapter]. unfold invoke.
    rewrite GitHub_unconfigured_upload by reflexivity.
    rewrite (with_object_id (tick c) r3 (GitHubAdapter (GitHub_new None None)) H3').
    eexists _, _, []. split; [reflexivity|]. cbn. rewrite app_nil_r.
    repeat split; try discriminate; try congruence.
    intros m Hm. inversion Hm. }
  cbn [pure]. eexists _, _, []. split; [reflexivity|]. rewrite app_nil_r.
  repeat split; try congruence.
  intros m Hm. inversion Hm.
Qed.

End CloudFacts.

(** ** The name of a backup file *)

Lemma before_append (sep : ascii) (date rest : string) :
  sep ∉ list_ascii_of_string date →
  before sep (date +:+ String sep rest) = date.
Proof.
  induction date as [|ch date IH]; intros Hsep.
  - change ("" +:+ String sep rest) with (String sep rest). cbn [before].
    rewrite Ascii.eqb_refl. reflexivity.
  - change (String ch date +:+ String sep rest) with (String ch (date +:+ String sep rest)).
    cbn [before]. cbn [list_ascii_of_string] in Hsep.
    apply not_elem_of_cons in Hsep as [Hne Hrest].
    destruct (Ascii.eqb_spec ch sep) as [->|_]; [contradiction|].
    rewrite (IH Hrest). reflexivity.
Qed.

(** X17.  The name of a backup file depends on the day only: for a timestamp
    [<date>T<time>] whose date holds no [T], the name is the prefix, the
    date and [.json], whatever the time. *)
Theorem dated_by_day (prefix date time time' : string) :
  "T"%char ∉ list_ascii_of_string date →
  dated prefix (date +:+ "T" +:+ time) = prefix +:+ date +:+ ".json"
  ∧ dated prefix (date +:+ "T" +:+ time) = dated prefix (date +:+ "T" +:+ time').
Proof.
  intros Hdate. unfold dated.
  change ("T" +:+ time) with (String "T" time).
  change ("T" +:+ time') with (String "T" time').
  rewrite !(before_append _ _ _ Hdate). split; reflexivity.
Qed.

(** ** Export, then import *)

Section Reliable.
Context {DB : Type} `{Repository DB} {N : Type} `{Network N}.
Variable sortFolders : list Folder → list Folder.
Variable clock : nat → string.
Variable message_text : exn → string.
Variable object_url : nat → string.

(** No function of the repository rejects. *)
Hypothesis deleteFile_succeeds :
  ∀ i (s : AppState DB), ∃ s', deleteFile i s = (Ok tt, s').
Hypothesis deleteFolder_succeeds :
  ∀ i (s : AppState DB), ∃ s', deleteFolder i s = (Ok tt, s').
Hypothesis createFolder_succeeds :
  ∀ n p (s : AppState DB), ∃ i s', createFolder n p s = (Ok i, s').
Hypothesis toggleFolderOpen_succeeds :
  ∀ i (s : AppState DB), ∃ s', toggleFolderOpen i s = (Ok tt, s').
Hypothesis createFile_succeeds :
  ∀ d t b (s : AppState DB), ∃ i s', createFile d t b s = (Ok i, s').
Hypothesis refreshData_succeeds :
  ∀ (s : AppState DB), ∃ s', refreshData s = (Ok tt, s').
Hypothesis selectFile_succeeds :
  ∀ i (s : AppState DB), ∃ s', selectFile i s = (Ok tt, s').

Lemma for_of_completes {A} (xs : list A) (body : A → M DB unit) :
  (∀ x w, ∃ w', body x w = (Ok tt, w')) →
  ∀ w, ∃ w', for_of xs body w = (Ok tt, w').
Proof.
  intros Hbody. induction xs as [|x xs IH]; intros w.
  - exists w. reflexivity.
  - destruct (Hbody x w) as (w1 & Hx). destruct (IH w1) as (w' & Hrest).
    exists w'. cbn [for_of]. unfold bind. rewrite Hx. exact Hrest.
Qed.

Lemma await_completes (c : Call) (f : AppState DB → outcome unit * AppState DB) :
  (∀ s, ∃ s', f s = (Ok tt, s')) → ∀ w, ∃ w', await c f w = (Ok tt, w').
Proof.
  intros Hf w. destruct (Hf (app w)) as (s' & Hs). unfold await. rewrite Hs. eauto.
Qed.

Lemma clearExistingData_completes (w : World DB) :
  ∃ w', clearExistingData w = (Ok tt, w').
Proof.
  unfold clearExistingData, bind, read.
  destruct (for_of_completes (st_files (app w))
              (λ file, if_id (file_id file) (λ i, await (CallDeleteFile i) (deleteFile i))))
    with (w := w) as (w1 & H1).
  { intros x w0. unfold if_id. destruct (file_id x) as [i|]; [|eexists; reflexivity].
    destruct (truthy_id (Some i)); [|eexists; reflexivity].
    apply await_completes. apply deleteFile_succeeds. }
  unfold deleteFiles. rewrite H1.
  destruct (for_of_completes (st_folders (app w1))
              (λ folder, if_id (folder_id folder)
                           (λ i, await (CallDeleteFolder i) (deleteFolder i))))
    with (w := w1) as (w2 & H2).
  { intros x w0. unfold if_id. destruct (folder_id x) as [i|]; [|eexists; reflexivity].
    destruct (truthy_id (Some i)); [|eexists; reflexivity].
    apply await_completes. apply deleteFolder_succeeds. }
  unfold deleteFolders. rewrite H2. eauto.
Qed.

Lemma importFiles_completes (files : list File) (m : gmap Z Z) (w : World DB) :
  ∃ w', importFiles files m w = (Ok tt, w').
Proof.
  unfold importFiles. apply for_of_completes. intros x w0.
  unfold importFile, bind, await.
  destruct (createFile_succeeds (remap m (folderId x)) (title x) (content x) (app w0))
    as (i & s' & Hs). rewrite Hs. eauto.
Qed.

Lemma refreshAndSelect_completes (w : World DB) :
  ∃ w', refreshAndSelect w = (Ok tt, w').
Proof.
  unfold refreshAndSelect, bind.
  destruct (await_completes CallRefreshData refreshData refreshData_succeeds w)
    as (w1 & ->).
  unfold assign, read. cbn [app calls].
  destruct (st_files (reset_editor (app w1))) as [|first rest]; [eexists; reflexivity|].
  apply await_completes. apply selectFile_succeeds.
Qed.

Lemma replay_completes (data : BackupData) (w : World DB) :
  ∃ w', replay sortFolders data w = (Ok tt, w').
Proof.
  unfold replay, bind. destruct (clearExistingData_completes w) as (w1 & ->).
  unfold after_wipe, bind.
  destruct (importFolders_total createFolder_succeeds toggleFolderOpen_succeeds
              (sortFolders (folders data)) ∅ w1) as (m & w2 & _ & Hfolders & _).
  unfold importFolders. rewrite Hfolders.
  unfold after_folders, bind.
  destruct (importFiles_completes (files data) m w2) as (w3 & ->).
  apply refreshAndSelect_completes.
Qed.

(** X18.  What [handleExport] offers for download, [handleImportFile]
    imports: over a repository whose functions never reject, the export
    handler leaves the workspace as it was and hands the browser a blob
    whose text, picked in the file input, is imported to the end, with the
    alert [Backup imported successfully!].  The text is written and read by
    the reference writer and reader. *)
Theorem exported_file_imports (c : Cloud DB N) :
  ∃ text c1 c2,
    handleExport Reference.JSON_stringify clock object_url c = (Ok tt, c1)
    ∧ world c1 = world c
    ∧ ui c1 = ui c ++ [UiCreateObjectURL (mkBlob text "application/json");
                       UiClick (object_url (length (ui c)))
                         (dated "sveltemark-backup-" (clock (S (ticks c))));
                       UiRevokeObjectURL (object_url (length (ui c)));
                       UiCloseMenus]
    ∧ handleImportFile Reference.JSON_parse sortFolders message_text
        (Some [Some text]) c1 = (Ok tt, c2)
    ∧ last (ui c2) = Some (UiAlert "Backup imported successfully!").
Proof.
  set (folders := st_folders (app (world c))).
  set (files := st_files (app (world c))).
  set (text := Reference.JSON_stringify (backup_literal (clock (ticks c)) folders files)).
  set (data := mkBackupData (Some (JNum 1)) (Some (JStr (clock (ticks c)))) folders files).
  assert (handleExport Reference.JSON_stringify clock object_url c
          = (Ok tt,
             mkCloud (world c) (currentAdapter c) (objects c) (net c) (requests c)
               (S (S (ticks c)))
               (ui c ++ [UiCreateObjectURL (mkBlob text "application/json");
                         UiClick (object_url (length (ui c)))
                           (dated "sveltemark-backup-" (clock (S (ticks c))));
                         UiRevokeObjectURL (object_url (length (ui c)));
                         UiCloseMenus]))) as Hexport.
  { unfold handleExport, save_as_file, createObjectURL, toISOString, in_app, exportBackup,
      ui_event, modify, shown, tick, with_world, get, pure, bind, read, ret, and_then.
    cbn [world currentAdapter objects net requests ticks ui].
    fold folders files text. rewrite <- !app_assoc. reflexivity. }
  destruct (replay_completes data (world c)) as (w' & Hreplay).
  eexists text, _, _. split; [exact Hexport|]. split; [reflexivity|].
  split; [reflexivity|].
  assert (importBackup Reference.JSON_parse sortFolders text (world c) = (Ok tt, w'))
    as Himport.
  { rewrite (importBackup_typed Reference.JSON_parse sortFolders text
               (backup_literal (clock (ticks c)) folders files) data).
    - exact Hreplay.
    - apply parse_stringify.
    - apply as_backup_literal. }
  split.
  - unfold handleImportFile. cbn [first_file head].
    unfold ui_event, modify, and_then.
    rewrite (reader_onload_run Reference.JSON_parse sortFolders message_text text _
               (Ok tt) w'); [reflexivity|exact Himport|discriminate].
  - cbn [ui import_report]. apply last_snoc.
Qed.

End Reliable.

(** ** Any adapter reads what any adapter wrote *)

(** X19.  What one adapter writes, every adapter reads: the text
    [exportBackupWithAdapter] returns with an adapter of any class is
    accepted by [deserialize] of an adapter of any class, and its typed
    reading has the folders and files of the workspace, version 1 and the time
    of the export.  The text is written and read by the reference writer and
    reader. *)
Theorem any_adapter_reads_any_export {DB : Type} `{Repository DB} {N : Type} `{Network N}
    (clock : nat → string) (writer reader : ref) (a b : Adapter) (c : Cloud DB N) :
  objects c !! writer = Some a →
  objects c !! reader = Some b →
  ∃ text backup,
    exportBackupWithAdapter Reference.JSON_stringify clock (Some writer) c = (Ok text, tick c)
    ∧ deserialize Reference.JSON_parse reader text (tick c) = (Ok backup, tick c)
    ∧ as_backup backup
      = Some (mkBackupData (Some (JNum 1)) (Some (JStr (clock (ticks c))))
                (st_folders (app (world c))) (st_files (app (world c)))).
Proof.
  intros Ha Hb.
  exists (Reference.JSON_stringify
            (backup_literal (clock (ticks c)) (st_folders (app (world c)))
               (st_files (app (world c))))),
         (backup_literal (clock (ticks c)) (st_folders (app (world c)))
            (st_files (app (world c)))).
  split; [|split].
  - apply (exportBackupWithAdapter_run Reference.JSON_stringify clock (Some writer) c a Ha).
  - unfold deserialize, and_then, of_outcome.
    assert (objects (tick c) !! reader = Some b) as Hb' by exact Hb.
    rewrite (deref_ok _ _ _ Hb'), adapter_deserialize_check.
    unfold parse. rewrite parse_stringify, check_backup_literal. reflexivity.
  - apply as_backup_literal.
Qed.

(** ** The properties on concrete runs *)

Lemma importBackup_rejects_untouched_example :
  importBackup Reference.JSON_parse Memory.sortFolders Remote.no_files Examples.loaded
  = (Throw (Error "Invalid backup format"), Examples.loaded).
Proof.
  apply (importBackup_rejects_untouched Reference.JSON_parse Memory.sortFolders
           Remote.no_files (Error "Invalid backup format") Examples.loaded).
  vm_compute. reflexivity.
Defined.


Lemma file_keeps_folder_iff_replayed_example :
  ∃ folderIdMap l,
    calls (snd Examples.restored) = calls Examples.loaded ++ l
    ∧ filter (λ c, is_createFile c) l = file_call folderIdMap <$> Examples.workspace_files
    ∧ ∀ f, (∃ newFolderId,
              file_call folderIdMap f = CallCreateFile (Some newFolderId) (title f) (content f))
           ↔ (∃ k g, folderId f = Some k
                     ∧ g ∈ Memory.sortFolders Examples.workspace_folders
                     ∧ folder_id g = Some k).
Proof.
  apply (file_keeps_folder_iff_replayed Reference.JSON_parse Memory.sortFolders
           Examples.backup_text
           (backup_literal Examples.exported_at Examples.workspace_folders
              Examples.workspace_files)
           (mkBackupData (Some (JNum 1)) (Some (JStr Examples.exported_at))
              Examples.workspace_folders Examples.workspace_files)
           Examples.loaded (snd Examples.restored)).
  - vm_compute. reflexivity.
  - apply as_backup_literal.
  - vm_compute. reflexivity.
Defined.

Lemma exportBackupWithAdapter_same_text_example :
  exportBackupWithAdapter Reference.JSON_stringify Remote.clock (Some 2%nat) (Remote.online [])
  = (Ok Examples.backup_text, tick (Remote.online []))
  ∧ exportBackup Reference.JSON_stringify Examples.exported_at Examples.loaded
    = (Ok Examples.backup_text, Examples.loaded).
Proof.
  apply (exportBackupWithAdapter_same_text Reference.JSON_stringify Remote.clock
           (Some 2%nat) (Remote.online []) (new_GitHubAdapter None None)).
  reflexivity.
Defined.

Lemma any_adapter_reads_any_export_example :
  ∃ text backup,
    exportBackupWithAdapter Reference.JSON_stringify Remote.clock (Some 1%nat)
      (Remote.online []) = (Ok text, tick (Remote.online []))
    ∧ deserialize Reference.JSON_parse 3%nat text (tick (Remote.online []))
      = (Ok backup, tick (Remote.online []))
    ∧ as_backup backup
      = Some (mkBackupData (Some (JNum 1)) (Some (JStr Examples.exported_at))
                Examples.workspace_folders Examples.workspace_files).
Proof.
  apply (any_adapter_reads_any_export Remote.clock 1%nat 3%nat new_GoogleDriveAdapter
           (GitHubAdapter Remote.octo) (Remote.online [])).
  - reflexivity.
  - reflexivity.
Defined.


Lemma json_adapter_has_no_cloud_example :
  uploadToCloud Reference.JSON_parse Reference.JSON_stringify Reference.JSON_stringify
    Remote.clock Remote.btoa Remote.ToString_other 0%nat (Remote.online [])
  = (Throw (Error "JSON File does not support cloud uploads"), Remote.online [])
  ∧ downloadFromCloud Reference.JSON_parse Memory.sortFolders 0%nat "backup.json"
      (Remote.online [])
    = (Throw (Error "JSON File does not support cloud downloads"), Remote.online []).
Proof.
  apply (json_adapter_has_no_cloud Reference.JSON_parse Reference.JSON_stringify
           Reference.JSON_stringify Memory.sortFolders Remote.clock Remote.btoa
           Remote.ToString_other 0%nat "backup.json" (Remote.online [])).
  reflexivity.
Defined.

Lemma google_drive_cloud_always_rejects_example :
  uploadToCloud Reference.JSON_parse Reference.JSON_stringify Reference.JSON_stringify
    Remote.clock Remote.btoa Remote.ToString_other 1%nat (Remote.online [])
  = (Throw (Error "Implement Google OAuth flow"), tick (Remote.online []))
  ∧ downloadFromCloud Reference.JSON_parse Memory.sortFolders 1%nat "file-1"
      (Remote.online [])
    = (Throw (Error "Implement Google OAuth flow"), Remote.online []).
Proof.
  apply (google_drive_cloud_always_rejects Reference.JSON_parse Reference.JSON_stringify
           Reference.JSON_stringify Memory.sortFolders Remote.clock Remote.btoa
           Remote.ToString_other 1%nat "file-1" (Remote.online []) GoogleDrive_new).
  - reflexivity.
  - reflexivity.
Defined.

Lemma GitHubAdapter_without_repository_example :
  let s := after_calls
             (GitHub_call Reference.JSON_parse Reference.JSON_stringify Remote.clock
                Remote.btoa)
             [GH_authenticate "t0k3n"; GH_uploadToRemote "{}"]
             (GitHub_new (Some "octo") None, Remote.online [Ok (mkResponse true (Ok "{}"))]) in
  GitHubAdapter_uploadToRemote Reference.JSON_parse Reference.JSON_stringify Remote.clock
    Remote.btoa "{}" s
  = (Throw (Error "GitHub credentials not configured"), s)
  ∧ requests (snd s) = [user_request (mkGitHub (Some "t0k3n") "octo" "")].
Proof.
  destruct (GitHubAdapter_without_repository Reference.JSON_parse Reference.JSON_stringify
              Remote.clock Remote.btoa
              [GH_authenticate "t0k3n"; GH_uploadToRemote "{}"]
              (Some "octo") None (Remote.online [Ok (mkResponse true (Ok "{}"))]))
    as (Hup & _ & Hreq).
  - right. reflexivity.
  - split; [apply Hup|exact Hreq].
Defined.

Lemma GitHubAdapter_keeps_rejected_token_example :
  ∃ r c1 r2 c2 rest,
    GitHubAdapter_authenticate "expired" (GitHub_new (Some "octo") (Some "notes"),
                                          Remote.online [Ok Remote.refused])
    = (r, (mkGitHub (Some "expired") "octo" "notes", c1))
    ∧ (∀ response,
         fst (fetch (user_request (mkGitHub (Some "expired") "octo" "notes"))
                [Ok Remote.refused]) = Ok response →
         resp_ok response = false → r = Throw (Error "Invalid GitHub token"))
    ∧ GitHubAdapter_uploadToRemote Reference.JSON_parse Reference.JSON_stringify Remote.clock
        Remote.btoa "{}" (mkGitHub (Some "expired") "octo" "notes", c1)
      = (r2, (mkGitHub (Some "expired") "octo" "notes", c2))
    ∧ requests c2
      = [] ++ user_request (mkGitHub (Some "expired") "octo" "notes")
        :: existing_request (mkGitHub (Some "expired") "octo" "notes")
             (backup_path Examples.exported_at) :: rest.
Proof.
  apply (GitHubAdapter_keeps_rejected_token Reference.JSON_parse Reference.JSON_stringify
           Remote.clock Remote.btoa "expired" "{}" (GitHub_new (Some "octo") (Some "notes"))
           (Remote.online [Ok Remote.refused])).
  - discriminate.
  - discriminate.
  - discriminate.
Defined.

Lemma uploadToCloud_ignores_put_status_example :
  fst (uploadToCloud Reference.JSON_parse Reference.JSON_stringify Reference.JSON_stringify
         Remote.clock Remote.btoa Remote.ToString_other 3%nat
         (Remote.online [Ok Remote.not_found; Ok Remote.refused]))
  = Ok (mkUploadResult (Some (JStr "backups/backup-2025-12-07.json"))
          (Some "https://github.com/octo/notes/blob/main/backups/backup-2025-12-07.json")).
Proof.
  rewrite (uploadToCloud_ignores_put_status Reference.JSON_parse Reference.JSON_stringify
             Reference.JSON_stringify Remote.clock Remote.btoa Remote.ToString_other
             3%nat Remote.octo (Remote.online [Ok Remote.not_found; Ok Remote.refused])
             Remote.not_found [Ok Remote.refused] None Examples.backup_text Remote.refused []
             (JObj [("message", JStr "Bad credentials")])).
  - vm_compute. reflexivity.
  - reflexivity.
  - reflexivity.
  - reflexivity.
  - reflexivity.
  - reflexivity.
  - reflexivity.
  - vm_compute. reflexivity.
Defined.

Lemma GitHubAdapter_upload_stops_at_btoa_example :
  GitHubAdapter_uploadToRemote Reference.JSON_parse Reference.JSON_stringify Remote.clock
    Remote.ascii_only "Budget: 10 €"
    (Remote.octo, Remote.online [Ok Remote.not_found; Ok Remote.refused])
  = (Throw (Error "InvalidCharacterError"),
     (Remote.octo,
      mkCloud Examples.loaded 0%nat Remote.adapters [Ok Remote.refused]
        [existing_request Remote.octo "backups/backup-2025-12-07.json"] 2%nat [])).
Proof.
  apply (GitHubAdapter_upload_stops_at_btoa Reference.JSON_parse Reference.JSON_stringify
           Remote.clock Remote.ascii_only "Budget: 10 €" Remote.octo
           (Remote.online [Ok Remote.not_found; Ok Remote.refused])
           Remote.not_found [Ok Remote.refused] None (Error "InvalidCharacterError")).
  - reflexivity.
  - reflexivity.
  - reflexivity.
  - vm_compute. reflexivity.
Defined.

Lemma downloadFromCloud_rejects_before_wipe_example :
  downloadFromCloud Reference.JSON_parse Memory.sortFolders 3%nat "backups/none.json"
    (Remote.online [Ok Remote.not_found])
  = (Throw (Error "Invalid GitHub backup format"),
     snd (downloadFromRemote 3%nat "backups/none.json" (Remote.online [Ok Remote.not_found])))
  ∧ world (snd (downloadFromRemote 3%nat "backups/none.json"
                  (Remote.online [Ok Remote.not_found])))
    = Examples.loaded.
Proof.
  apply (downloadFromCloud_rejects_before_wipe Reference.JSON_parse Memory.sortFolders
           3%nat "backups/none.json" (Remote.online [Ok Remote.not_found])
           (GitHubAdapter Remote.octo)
           (Examples.quoted "{'message': 'Not Found'}")).
  - reflexivity.
  - vm_compute. reflexivity.
  - vm_compute. reflexivity.
Defined.

Lemma handleImportFile_reports_example :
  handleImportFile Reference.JSON_parse Memory.sortFolders Remote.message_text
    (Some [Some Remote.no_files]) (Remote.online [])
  = (Ok tt,
     mkCloud Examples.loaded 0%nat Remote.adapters [] [] 0%nat
       [UiReadAsText (Some Remote.no_files); UiSetValue "";
        UiAlert "Failed to import backup: Invalid backup format"]).
Proof.
  apply (proj1 (handleImportFile_reports Reference.JSON_parse Memory.sortFolders
                  Remote.message_text Remote.no_files [] (Remote.online [])
                  (Throw (Error "Invalid backup format")) Examples.loaded
                  ltac:(vm_compute; reflexivity) ltac:(discriminate))).
Defined.

Lemma exported_file_imports_example :
  ∃ text c1 c2,
    handleExport Reference.JSON_stringify Remote.clock Remote.object_url Remote.ledger
    = (Ok tt, c1)
    ∧ world c1 = world Remote.ledger
    ∧ ui c1 = [] ++ [UiCreateObjectURL (mkBlob text "application/json");
                     UiClick (Remote.object_url 0) (dated "sveltemark-backup-" (Remote.clock 1));
                     UiRevokeObjectURL (Remote.object_url 0);
                     UiCloseMenus]
    ∧ handleImportFile Reference.JSON_parse Memory.sortFolders Remote.message_text
        (Some [Some text]) c1 = (Ok tt, c2)
    ∧ last (ui c2) = Some (UiAlert "Backup imported successfully!").
Proof.
  apply (exported_file_imports (DB := Z) Memory.sortFolders Remote.clock Remote.message_text
           Remote.object_url
           ltac:(intros i s; eexists; reflexivity)
           ltac:(intros i s; eexists; reflexivity)
           ltac:(intros n p s; eexists; eexists; reflexivity)
           ltac:(intros i s; eexists; reflexivity)
           ltac:(intros d t b s; eexists; eexists; reflexivity)
           ltac:(intros s; eexists; reflexivity)
           ltac:(intros i s; eexists; reflexivity)
           Remote.ledger).
Defined.

Lemma toolbar_exports_only_to_file_example :
  ∃ res c' events,
    handleExportWithAdapter Reference.JSON_parse Reference.JSON_stringify
      Reference.JSON_stringify Remote.clock Remote.btoa Remote.ToString_other
      Remote.object_url "github" [0%nat; 1%nat; 2%nat] (Remote.online []) = (res, c')
    ∧ res = Throw (Error "GitHub credentials not configured")
    ∧ ui c' = [] ++ events
    ∧ events = [].
Proof.
  destruct (toolbar_exports_only_to_file Reference.JSON_parse Reference.JSON_stringify
              Reference.JSON_stringify Remote.clock Remote.btoa Remote.ToString_other
              Remote.object_url "github" 0%nat 1%nat 2%nat (Remote.online [])
              eq_refl eq_refl eq_refl)
    as (res & c' & events & Hrun & _ & _ & _ & Hui & _ & _ & _ & Hgithub & _).
  exists res, c', events. destruct (Hgithub eq_refl) as [Hres Hevents]. auto.
Defined.

Lemma dated_by_day_example :
  dated "backup-" "2025-12-07T10:30:00.000Z" = "backup-2025-12-07.json"
  ∧ dated "backup-" "2025-12-07T10:30:00.000Z" = dated "backup-" "2025-12-07T23:59:59.999Z".
Proof.
  apply (dated_by_day "backup-" "2025-12-07" "10:30:00.000Z" "23:59:59.999Z").
  apply (bool_decide_unpack _). vm_compute. exact I.
Defined.
